(** * Algo-Flatetraade-exp: indicator engine, signal detector, position
      lifecycle and orchestration loop

    A shallow embedding of [src/flattrade_noren_api.py] (class
    [TradingStrategy], the "live trade" engine) and of the older
    single-instrument variant in [src/strategy.py] (class [VWAPStrategy]).

    Conventions of the embedding.
    - Python floats are modelled by exact rationals [Q]: no rounding, no
      NaN or infinity except where a column cell is explicitly optional.
      Equality of prices is therefore [Qeq] ([==]).
    - Python [dict]s that are iterated ([self.positions]) are association
      lists in insertion order with the three operations the code uses
      (get, item assignment, del).
    - Everything the program obtains from outside (broker quotes, order
      acknowledgements, the wall clock, the keyboard, the data cache that
      the dashboard thread refreshes) is read from a [World] oracle indexed
      by a counter of external interactions kept in the state. *)

From Stdlib Require Import String Ascii DecimalString.
From Stdlib Require Import QArith Qminmax Qround ZArith List Sorted Bool Arith Lia Lqa.
From Stdlib Require Import DecimalZ.
Import ListNotations.

Open Scope Q_scope.

(** ** Float comparisons and Python's [max] / [min] *)

Definition Qleb (x y : Q) : bool := Qle_bool x y.
Definition Qltb (x y : Q) : bool := negb (Qle_bool y x).

(** [max(a, b)] returns [a] unless [b > a]; [min(a, b)] returns [a] unless
    [b < a]. *)
Definition pymax (a b : Q) : Q := if Qltb a b then b else a.
Definition pymin (a b : Q) : Q := if Qltb b a then b else a.

(** ** Configuration ([class Config]) *)

Record Config := mkConfig {
  SL_PERCENT : Q;
  TP_PERCENT : Q;
  TRAILING_SL_PERCENT : Q;
  EMA_PERIOD : nat;
  ENTRY_DELAY : nat;
  COMMISSION : Q;
  MAX_DAILY_LOSS : Q
}.

(** The constants written in the source. *)
Definition source_config : Config := {|
  SL_PERCENT := 0;
  TP_PERCENT := 60 # 100;
  TRAILING_SL_PERCENT := 30 # 100;
  EMA_PERIOD := 5;
  ENTRY_DELAY := 30;
  COMMISSION := 3 # 10000;
  MAX_DAILY_LOSS := 5000
|}.

(** ** Series rows *)

(** One OHLCV row of an instrument's CSV; [datetime] is in seconds. *)
Record Bar := mkBar {
  datetime : Z;
  b_open : Q;
  b_high : Q;
  b_low : Q;
  b_close : Q;
  volume : Z
}.

(** A row of the frame kept in [data_cache] once both indicator columns
    have been computed. *)
Record Sample := mkSample {
  s_close : Q;
  s_vwap : Q;
  s_ema : Q
}.

Inductive Signal := BUY_CALL | BUY_PUT.

Definition Signal_eqb (a b : Signal) : bool :=
  match a, b with
  | BUY_CALL, BUY_CALL | BUY_PUT, BUY_PUT => true
  | _, _ => false
  end.

(** ** Signal detector: [TradingStrategy.detect_signal] *)

Definition call_cond (prev curr : Sample) : bool :=
  Qleb (s_ema prev) (s_vwap prev) &&
  Qltb (s_vwap curr) (s_ema curr) &&
  Qltb (s_vwap curr) (s_close curr) &&
  Qltb (s_ema curr) (s_close curr).

Definition put_cond (prev curr : Sample) : bool :=
  Qleb (s_vwap prev) (s_ema prev) &&
  Qltb (s_ema curr) (s_vwap curr) &&
  Qltb (s_close curr) (s_vwap curr) &&
  Qltb (s_close curr) (s_ema curr).

(** [df.iloc[-2]], [df.iloc[-1]] are the two last rows; the result is the
    pair [(signal, price)], [None, None] being [None]. *)
Definition detect_signal (df : list Sample) : option (Signal * Q) :=
  if (length df <? 2)%nat then None
  else
    match rev df with
    | curr :: prev :: _ =>
        if call_cond prev curr then Some (BUY_CALL, s_close curr)
        else if put_cond prev curr then Some (BUY_PUT, s_close curr)
        else None
    | _ => None
    end.

(** The evaluation the loop performs once row [i] is the newest one. *)
Definition signal_at (df : list Sample) (i : nat) : option (Signal * Q) :=
  detect_signal (firstn (S i) df).

Definition fires (s : Signal) (df : list Sample) (i : nat) : Prop :=
  (i < length df)%nat /\ exists p, signal_at df i = Some (s, p).

(** EMA crosses VWAP upward between rows [i-1] and [i]. *)
Definition cross_up (df : list Sample) (i : nat) : Prop :=
  exists prev curr,
    (1 <= i)%nat /\ nth_error df (i - 1) = Some prev /\ nth_error df i = Some curr /\
    s_ema prev <= s_vwap prev /\ s_vwap curr < s_ema curr.

Definition cross_up_exactly_once_at (df : list Sample) (k : nat) : Prop :=
  cross_up df k /\ forall j, cross_up df j -> j = k.

(** ** Indicator engine *)

Definition typical_price (b : Bar) : Q := (b_high b + b_low b + b_close b) / 3.

(** [pd.to_datetime(df["datetime"]).dt.date]: the calendar day. *)
Definition date_of (b : Bar) : Z := (datetime b / 86400)%Z.

(** [df.loc[df["volume"] == 0, "volume"] = 1] *)
Definition fix_volume (v : Z) : Z := if (v =? 0)%Z then 1%Z else v.

(** [groupby(key)[col].cumsum()]: one running total per key, written back
    in row order. *)
Fixpoint group_cumsum (acc : Z -> Q) (rows : list (Z * Q)) : list Q :=
  match rows with
  | [] => []
  | (k, v) :: rest =>
      let s := acc k + v in
      s :: group_cumsum (fun k' => if (k' =? k)%Z then s else acc k') rest
  end.

(** [col.cumsum()] over the whole frame. *)
Fixpoint cumsum (acc : Q) (xs : list Q) : list Q :=
  match xs with
  | [] => []
  | x :: rest => let s := acc + x in s :: cumsum s rest
  end.

(** Float division of two columns cell by cell.  A zero denominator gives
    a cell that is not a finite number; it is [None] here (0/0 is NaN in
    pandas; x/0 with x nonzero is an infinity, which only a negative volume
    can produce and which this model does not tell apart from NaN). *)
Definition fdiv (a b : Q) : option Q :=
  if Qeq_bool b 0 then None else Some (a / b).

Fixpoint col_div (num den : list Q) : list (option Q) :=
  match num, den with
  | n :: num', d :: den' => fdiv n d :: col_div num' den'
  | _, _ => []
  end.

(** [Series.ffill()] and [Series.bfill()]. *)
Fixpoint ffill_from (last : option Q) (col : list (option Q)) : list (option Q) :=
  match col with
  | [] => []
  | c :: rest =>
      let c' := match c with Some _ => c | None => last end in
      c' :: ffill_from c' rest
  end.

Definition ffill (col : list (option Q)) : list (option Q) := ffill_from None col.
Definition bfill (col : list (option Q)) : list (option Q) := rev (ffill (rev col)).

(** [TradingStrategy.calculate_vwap]: the [vwap] column, or [None] when the
    guard [df.empty or len(df) < 2] returns the frame as it came (without
    that column).  [Bar] always has a volume, so the branch
    ["volume" not in df.columns] does not arise. *)
Definition calculate_vwap (df : list Bar) : option (list (option Q)) :=
  if (length df <? 2)%nat then None
  else
    let vol := map (fun b => (date_of b, inject_Z (fix_volume (volume b)))) df in
    let tpv := map (fun b => (date_of b, typical_price b * inject_Z (fix_volume (volume b)))) df in
    let cum_vol := group_cumsum (fun _ => 0) vol in
    let cum_tpv := group_cumsum (fun _ => 0) tpv in
    Some (bfill (ffill (col_div cum_tpv cum_vol))).

(** [Series.ewm(span=span, adjust=False).mean()]: alpha = 2/(span+1),
    y0 = x0, y_t = (1 - alpha) y_(t-1) + alpha x_t. *)
Fixpoint ewm_from (alpha y : Q) (xs : list Q) : list Q :=
  match xs with
  | [] => []
  | x :: rest =>
      let y' := (1 - alpha) * y + alpha * x in
      y' :: ewm_from alpha y' rest
  end.

Definition ewm_mean (span : nat) (xs : list Q) : list Q :=
  match xs with
  | [] => []
  | x :: rest => x :: ewm_from (2 / (inject_Z (Z.of_nat span) + 1)) x rest
  end.

(** [TradingStrategy.calculate_ema]: closes are finite, so the trailing
    [bfill()] finds nothing to fill.  pandas refuses a span below 1 with a
    ValueError; that error path is not modelled, so this column stands for
    the code's only when EMA_PERIOD >= 1 (the source has 5). *)
Definition calculate_ema (cfg : Config) (df : list Bar) : list Q :=
  ewm_mean (EMA_PERIOD cfg) (map b_close df).

(** Rows with both columns attached; [None] if a vwap cell is not finite. *)
Fixpoint attach (df : list Bar) (vwap : list (option Q)) (ema : list Q)
  : option (list Sample) :=
  match df, vwap, ema with
  | [], _, _ => Some []
  | b :: df', Some v :: vwap', e :: ema' =>
      match attach df' vwap' ema' with
      | Some rows => Some (mkSample (b_close b) v e :: rows)
      | None => None
      end
  | _, _, _ => None
  end.

(** The frame [update_instrument_data] stores in [data_cache] once
    [len(df) >= Config.EMA_PERIOD]: [calculate_ema(calculate_vwap(df))]. *)
Definition indicator_frame (cfg : Config) (df : list Bar) : option (list Sample) :=
  if (EMA_PERIOD cfg <=? length df)%nat then
    match calculate_vwap df with
    | Some col => attach df col (calculate_ema cfg df)
    | None => None
    end
  else None.

(** *** The session VWAP as the specification words it

    Typical price (high+low+close)/3, a zero volume counted as 1, both
    running sums restarted whenever the session date changes from one row
    to the next. *)

Fixpoint session_cumsum (cur : option Z) (run : Q) (rows : list (Z * Q)) : list Q :=
  match rows with
  | [] => []
  | (d, v) :: rest =>
      let s := match cur with
               | Some d0 => if (d0 =? d)%Z then run + v else v
               | None => v
               end in
      s :: session_cumsum (Some d) s rest
  end.

Definition spec_weight (b : Bar) : Q :=
  inject_Z (if (volume b =? 0)%Z then 1 else volume b).

Fixpoint col_ratio (num den : list Q) : list Q :=
  match num, den with
  | n :: num', d :: den' => (n / d) :: col_ratio num' den'
  | _, _ => []
  end.

Definition spec_session_vwap (df : list Bar) : list Q :=
  col_ratio
    (session_cumsum None 0 (map (fun b => (date_of b, typical_price b * spec_weight b)) df))
    (session_cumsum None 0 (map (fun b => (date_of b, spec_weight b)) df)).

(** Rows in non-decreasing timestamp order. *)
Definition time_ordered (df : list Bar) : Prop :=
  Sorted (fun a b => (datetime a <= datetime b)%Z) df.

(** ** Dictionaries in insertion order *)

Section Dict.
Context {V : Type}.

Fixpoint dict_get (k : string) (d : list (string * V)) : option V :=
  match d with
  | [] => None
  | (k', v) :: rest => if String.eqb k' k then Some v else dict_get k rest
  end.

(** [d[k] = v]: an existing key keeps its place, a new key goes last. *)
Fixpoint dict_set (k : string) (v : V) (d : list (string * V)) : list (string * V) :=
  match d with
  | [] => [(k, v)]
  | (k', v') :: rest =>
      if String.eqb k' k then (k, v) :: rest else (k', v') :: dict_set k v rest
  end.

(** [del d[k]] *)
Definition dict_del (k : string) (d : list (string * V)) : list (string * V) :=
  filter (fun kv => negb (String.eqb (fst kv) k)) d.
End Dict.

(** ** Positions, quotes, trade records *)

Inductive OptType := CALL | PUT.

(** The dict built by [enter_trade].  The keys [exit_reason], [exit_price],
    [pnl] and [status] are written once at entry ([None], [None], [0],
    ['OPEN']) and never again, so they are left out; [entry_time] is not
    read by any decision. *)
Record Position := mkPosition {
  trade_no : nat;
  symbol : string;
  opt_type : OptType;
  entry : Q;
  qty : Z;
  order_id : string;
  sl : Q;
  tp : Q;
  high : Q;
  low : Q;
  current_sl : Q;
  max_mtm : Q;
  min_mtm : Q
}.

(** A broker quote; a missing key is [None]. *)
Record Quote := mkQuote {
  stat_ok : bool;
  lp : option Q;
  q_high : option Q;
  q_low : option Q
}.

Record TradeRecord := mkTrade {
  t_trade_no : nat;
  t_symbol : string;
  t_type : OptType;
  t_entry : Q;
  t_exit : Q;
  t_qty : Z;
  t_pnl : Q;
  t_mtm : Q;
  t_max_mtm : Q;
  t_min_mtm : Q;
  t_reason : string;
  t_status : string
}.

Record Instrument := mkInstrument {
  i_symbol : string;
  lot_size : Z
}.

(** ** The outside world and the strategy state *)

Inductive Action := Buy | Sell.
Inductive Key := Key_q | Key_m | Key_other.

Record World := mkWorld {
  (** [get_quote(symbol)]: symbol search followed by the quote request *)
  w_quote : nat -> string -> option Quote;
  (** [place_order(symbol, qty, action)]: the order id, or [None] *)
  w_order : nat -> string -> Z -> Action -> option string;
  (** time of day in microseconds since midnight *)
  w_now : nat -> Z;
  (** [msvcrt.kbhit()] and [msvcrt.getch().decode().lower()] *)
  w_key : nat -> option Key;
  (** [input()] in [manual_exit] *)
  w_input : nat -> string;
  (** how many one-second polls fit in the confirmation window of [enter_trade] *)
  w_polls : nat -> nat;
  (** [data_cache.get(symbol)] as the dashboard thread last left it *)
  w_cache : nat -> string -> option (list Sample)
}.

(** Ghost record of what the strategy did, oldest first. *)
Inductive Event :=
| EvOrder (a : Action) (sym : string) (q : Z) (result : option string) (pnl_at_call : Q)
| EvActed (sym : string) (s : Signal).

Record State := mkState {
  positions : list (string * Position);
  pnl : Q;
  trades : nat;
  last_signal : option Signal;
  closed_trades : list TradeRecord;
  trade_counter : nat;
  clock : nat;
  history : list Event
}.

(** [TradingStrategy.__init__] *)
Definition init_state : State := {|
  positions := [];
  pnl := 0;
  trades := 0%nat;
  last_signal := None;
  closed_trades := [];
  trade_counter := 1%nat;
  clock := 0%nat;
  history := []
|}.

Definition set_positions (ps : list (string * Position)) (st : State) : State :=
  mkState ps (pnl st) (trades st) (last_signal st) (closed_trades st)
          (trade_counter st) (clock st) (history st).

Definition advance_by (n : nat) (st : State) : State :=
  mkState (positions st) (pnl st) (trades st) (last_signal st) (closed_trades st)
          (trade_counter st) (n + clock st) (history st).

Definition advance (st : State) : State := advance_by 1 st.

Definition record_event (e : Event) (st : State) : State :=
  mkState (positions st) (pnl st) (trades st) (last_signal st) (closed_trades st)
          (trade_counter st) (clock st) (history st ++ [e]).

Section Strategy.
Variable w : World.
Variable cfg : Config.

Definition get_quote (st : State) (sym : string) : option Quote * State :=
  (w_quote w (clock st) sym, advance st).

Definition place_order (st : State) (sym : string) (q : Z) (a : Action)
  : option string * State :=
  let r := w_order w (clock st) sym q a in
  (r, advance (record_event (EvOrder a sym q r (pnl st)) st)).

(** [datetime.time(9, 15) <= now <= datetime.time(15, 30)] *)
Definition in_trading_hours (st : State) : bool :=
  (33300000000 <=? w_now w (clock st))%Z && (w_now w (clock st) <=? 55800000000)%Z.

(** *** [enter_trade] *)

Definition initial_sl (price : Q) : Q :=
  if Qltb 0 (SL_PERCENT cfg) then price * (1 - SL_PERCENT cfg) else price * (5 # 10).

Definition new_position (tc : nat) (signal : Signal) (sym : string) (price : Q)
           (lot : Z) (oid : string) : Position := {|
  trade_no := tc;
  symbol := sym;
  opt_type := match signal with BUY_CALL => CALL | BUY_PUT => PUT end;
  entry := price;
  qty := lot;
  order_id := oid;
  sl := initial_sl price;
  tp := price * (1 + TP_PERCENT cfg);
  high := price;
  low := price;
  current_sl := initial_sl price;
  max_mtm := 0;
  min_mtm := 0
|}.

(** The confirmation loop polls the quote once a second until
    [ENTRY_DELAY] seconds have passed; what it reads only goes to the
    dashboard's [instrument_data]. *)
Definition wait_confirmation (st : State) : State :=
  advance_by (w_polls w (clock st)) st.

Definition enter_trade (st : State) (signal : Signal) (sym : string) (price : Q)
           (lot : Z) : option string * State :=
  let st := wait_confirmation st in
  let (oid, st) := place_order st sym lot Buy in
  match oid with
  | Some id =>
      if String.eqb id EmptyString then (None, st)
      else
        let pos_id := (sym ++ "_" ++ id)%string in
        let pos := new_position (trade_counter st) signal sym price lot id in
        (Some pos_id,
         mkState (dict_set pos_id pos (positions st)) (pnl st) (trades st)
                 (last_signal st) (closed_trades st) (S (trade_counter st))
                 (clock st) (history st))
  | None => (None, st)
  end.

(** *** [close_position] *)

Definition realized_pnl (pos : Position) (price : Q) : Q :=
  (price - entry pos) * inject_Z (qty pos)
  - (entry pos + price) * inject_Z (qty pos) * COMMISSION cfg.

(** [self.closed_trades[-20:]] once the list is longer than 20 *)
Definition keep_last_20 (l : list TradeRecord) : list TradeRecord :=
  if (20 <? length l)%nat then skipn (length l - 20) l else l.

Definition close_position (st : State) (pos_id : string) (reason : string)
           (price : option Q) (status : option string) : State :=
  match dict_get pos_id (positions st) with
  | None => st
  | Some pos =>
      let '(px, st1) :=
        match price with
        | Some p => (p, st)
        | None =>
            let (quote, st') := get_quote st (symbol pos) in
            (match quote with
             | Some q => match lp q with Some v => v | None => entry pos end
             | None => entry pos
             end, st')
        end in
      let (_, st2) := place_order st1 (symbol pos) (qty pos) Sell in
      let gain := realized_pnl pos px in
      let trade_record := {|
        t_trade_no := trade_no pos;
        t_symbol := symbol pos;
        t_type := opt_type pos;
        t_entry := entry pos;
        t_exit := px;
        t_qty := qty pos;
        t_pnl := gain;
        t_mtm := (px - entry pos) * inject_Z (qty pos);
        t_max_mtm := max_mtm pos;
        t_min_mtm := min_mtm pos;
        t_reason := reason;
        t_status := match status with Some s => s | None => "CLOSED"%string end
      |} in
      mkState (dict_del pos_id (positions st2)) (pnl st2 + gain) (trades st2)
              (last_signal st2) (keep_last_20 (closed_trades st2 ++ [trade_record]))
              (trade_counter st2) (clock st2) (history st2)
  end.

(** *** [manage_positions] *)

(** The part of one iteration that rewrites the position's own keys. *)
Definition tick_update (pos : Position) (hi lo : Q) : Position :=
  let h := pymax (high pos) hi in
  let l := pymin (low pos) lo in
  let mx := pymax (max_mtm pos) ((h - entry pos) * inject_Z (qty pos)) in
  let mn := pymin (min_mtm pos) ((l - entry pos) * inject_Z (qty pos)) in
  let csl :=
    if Qltb 0 (TRAILING_SL_PERCENT cfg) && Qltb 0 (SL_PERCENT cfg)
    then pymax (current_sl pos) (h * (1 - TRAILING_SL_PERCENT cfg))
    else current_sl pos in
  mkPosition (trade_no pos) (symbol pos) (opt_type pos) (entry pos) (qty pos)
             (order_id pos) (sl pos) (tp pos) h l csl mx mn.

(** The [if / elif / elif] chain: exit price, reason and status. *)
Definition exit_decision (in_hours : bool) (pos : Position) (curr hi lo : Q)
  : option (Q * string * string) :=
  if Qltb 0 (SL_PERCENT cfg) && Qleb lo (current_sl pos)
  then Some (current_sl pos, "SL", "SL_HIT")%string
  else if Qleb (tp pos) hi
  then Some (tp pos, "TP", "TGT_HIT")%string
  else if negb in_hours
  then Some (curr, "EOD", "EOD_CLOSE")%string
  else None.

Definition quote_curr (q : Quote) : Q := match lp q with Some v => v | None => 0 end.
Definition quote_high (q : Quote) : Q :=
  match q_high q with Some v => v | None => quote_curr q end.
Definition quote_low (q : Quote) : Q :=
  match q_low q with Some v => v | None => quote_curr q end.

(** One iteration of [for pos_id, pos in list(self.positions.items())].
    [pos] is the very dict stored under [pos_id], so it is read from the
    store when its turn comes and the update is written back there. *)
Definition manage_one (st : State) (pos_id : string) : State :=
  match dict_get pos_id (positions st) with
  | None => st
  | Some pos =>
      let (quote, st1) := get_quote st (symbol pos) in
      match quote with
      | None => st1
      | Some q =>
          if negb (stat_ok q) then st1
          else
            let pos' := tick_update pos (quote_high q) (quote_low q) in
            let st2 := set_positions (dict_set pos_id pos' (positions st1)) st1 in
            match exit_decision (in_trading_hours st2) pos'
                                (quote_curr q) (quote_high q) (quote_low q) with
            | Some (price, reason, status) =>
                close_position st2 pos_id reason (Some price) (Some status)
            | None => st2
            end
      end
  end.

Definition manage_positions (st : State) : State :=
  fold_left manage_one (map fst (positions st)) st.

(** *** [manual_exit] *)

Definition str_of_nat (n : nat) : string := NilEmpty.string_of_uint (Nat.to_uint n).

Fixpoint find_trade (choice : string) (ps : list (string * Position)) : option string :=
  match ps with
  | [] => None
  | (k, p) :: rest =>
      if String.eqb (str_of_nat (trade_no p)) choice then Some k
      else find_trade choice rest
  end.

Definition manual_exit (st : State) : State :=
  match positions st with
  | [] => st
  | _ :: _ =>
      (* the listing fetches one quote per open position *)
      let st1 := advance_by (length (positions st)) st in
      let choice := w_input w (clock st1) in
      let st2 := advance st1 in
      if String.eqb choice "0" then st2
      else
        match find_trade choice (positions st2) with
        | Some pos_id => close_position st2 pos_id "MANUAL" None (Some "MANUAL_CLOSE"%string)
        | None => st2
        end
  end.

(** *** [run] *)

Definition has_position (st : State) (sym : string) : bool :=
  existsb (fun kp => String.eqb (symbol (snd kp)) sym) (positions st).

(** [signal != self.last_signal] *)
Definition differs_from_last (s : Signal) (last : option Signal) : bool :=
  match last with
  | Some l => negb (Signal_eqb s l)
  | None => true
  end.

(** The body of [for inst in self.instruments]. *)
Definition scan_instrument (st : State) (inst : Instrument) : State :=
  match w_cache w (clock st) (i_symbol inst) with
  | None => st
  | Some df =>
      if (EMA_PERIOD cfg <=? length df)%nat then
        match detect_signal df with
        | None => st
        | Some (signal, sig_price) =>
            if negb (has_position st (i_symbol inst))
               && differs_from_last signal (last_signal st)
            then
              match enter_trade st signal (i_symbol inst) sig_price (lot_size inst) with
              | (Some _, st') =>
                  mkState (positions st') (pnl st') (S (trades st')) (Some signal)
                          (closed_trades st') (trade_counter st') (clock st')
                          (history st' ++ [EvActed (i_symbol inst) signal])
              | (None, st') => st'
              end
            else st
        end
      else st
  end.

Inductive Flow := Continue | Break.

(** One pass through the body of [while self.running]. *)
Definition run_cycle (instruments : list Instrument) (st : State) : State * Flow :=
  if negb (in_trading_hours st) then (advance st, Continue)
  else if Qleb (pnl st) (- MAX_DAILY_LOSS cfg) then (st, Break)
  else
    let key := w_key w (clock st) in
    let st := advance st in
    match key with
    | Some Key_q => (st, Break)
    | _ =>
        let st := match key with Some Key_m => manual_exit st | _ => st end in
        let st := manage_positions st in
        let st := fold_left scan_instrument instruments st in
        (advance st, Continue)
    end.

(** [run], cut off after [fuel] passes. *)
Fixpoint run (instruments : list Instrument) (fuel : nat) (st : State) : State :=
  match fuel with
  | O => st
  | S fuel' =>
      match run_cycle instruments st with
      | (st', Continue) => run instruments fuel' st'
      | (st', Break) => st'
      end
  end.
End Strategy.

(** ** The single-instrument variant: [strategy.py], class [VWAPStrategy] *)

Module VWAPStrategy.

(** [VWAPStrategy.calculate_vwap]: running sums over the whole frame, no
    session grouping and no replacement of zero volumes; [None] stands for
    the empty frame, returned as it came.  [fillna(method='ffill')] fills
    forward only. *)
Definition calculate_vwap (df : list Bar) : option (list (option Q)) :=
  match df with
  | [] => None
  | _ :: _ =>
      let vol := map (fun b => inject_Z (volume b)) df in
      let tpv := map (fun b => typical_price b * inject_Z (volume b)) df in
      Some (ffill (col_div (cumsum 0 tpv) (cumsum 0 vol)))
  end.

(** A row after [calculate_vwap]: the close and the vwap cell (NaN is [None]). *)
Record Row := mkRow {
  r_close : Q;
  r_vwap : option Q
}.

(** Comparisons with NaN are false. *)
Definition le_cell (x : Q) (c : option Q) : bool :=
  match c with Some v => Qleb x v | None => false end.
Definition lt_cell (x : Q) (c : option Q) : bool :=
  match c with Some v => Qltb x v | None => false end.
Definition ge_cell (x : Q) (c : option Q) : bool :=
  match c with Some v => Qleb v x | None => false end.
Definition gt_cell (x : Q) (c : option Q) : bool :=
  match c with Some v => Qltb v x | None => false end.

Definition vwap_crossover_logic (df : list Row) : option Signal :=
  if (length df <? 2)%nat then None
  else
    match rev df with
    | current :: previous :: _ =>
        if le_cell (r_close previous) (r_vwap previous)
           && gt_cell (r_close current) (r_vwap current)
        then Some BUY_CALL
        else if ge_cell (r_close previous) (r_vwap previous)
                && lt_cell (r_close current) (r_vwap current)
        then Some BUY_PUT
        else None
    | _ => None
    end.

Fixpoint rows_of (df : list Bar) (vwap : list (option Q)) : list Row :=
  match df, vwap with
  | b :: df', v :: vwap' => mkRow (b_close b) v :: rows_of df' vwap'
  | _, _ => []
  end.

(** Constants of the [config] module (not part of the sources at hand). *)
Record Config := mkConfig {
  QTY : Z;
  MAX_DAILY_LOSS : Q;
  MAX_LOSS_PER_TRADE : Q;
  TAKE_PROFIT_PERCENT : Q
}.

Record Position := mkPosition {
  symbol : string;
  token : string;
  qty : Z;
  entry_price : Q;
  stop_loss : Q;
  take_profit : Q
}.

Record World := mkWorld {
  (** quote of the underlying index *)
  w_underlying : nat -> option Quote;
  (** the at-the-money call symbol computed from the last price, and the
      token [search_specific_contract] finds for it *)
  w_contract : nat -> Q -> string * option string;
  (** [fetch_ohlc_data]; the empty list is the empty frame *)
  w_ohlc : nat -> string -> list Bar;
  (** [api.get_quotes(exchange='NFO', token=...)] *)
  w_quote : nat -> string -> option Quote;
  (** [api.place_order]: [Some id] when the response has [stat == 'Ok'] *)
  w_order : nat -> Action -> string -> Z -> option string;
  w_now : nat -> Z
}.

Inductive Event :=
| EvOrder (a : Action) (sym : string) (q : Z) (ok : bool) (pnl_at_call : Q).

Record State := mkState {
  positions : list (string * Position);
  daily_pnl : Q;
  last_signal : option Signal;
  daily_trades : nat;
  clock : nat;
  history : list Event
}.

Definition init_state : State := mkState [] 0 None 0%nat 0%nat [].

Definition advance (st : State) : State :=
  mkState (positions st) (daily_pnl st) (last_signal st) (daily_trades st)
          (S (clock st)) (history st).

Definition quote_ok (q : option Quote) : option Quote :=
  match q with
  | Some r => if stat_ok r then Some r else None
  | None => None
  end.

Definition quote_lp (q : Quote) : Q := match lp q with Some v => v | None => 0 end.

Section Loop.
Variable w : World.
Variable cfg : Config.

Definition place_order (st : State) (a : Action) (sym : string) (q : Z)
  : option string * State :=
  let r := w_order w (clock st) a sym q in
  (r, advance (mkState (positions st) (daily_pnl st) (last_signal st) (daily_trades st)
                       (clock st)
                       (history st ++ [EvOrder a sym q (match r with Some _ => true | None => false end)
                                               (daily_pnl st)]))).

Definition check_trading_hours (st : State) : bool :=
  (33300000000 <=? w_now w (clock st))%Z && (w_now w (clock st) <=? 55800000000)%Z.

(** [close_position]: the position is only dropped when both the sell order
    and the following quote succeed. *)
Definition close_position (st : State) (position_id : string) : State :=
  match dict_get position_id (positions st) with
  | None => st
  | Some position =>
      let (resp, st1) := place_order st Sell (symbol position) (qty position) in
      match resp with
      | None => st1
      | Some _ =>
          let q := quote_ok (w_quote w (clock st1) (token position)) in
          let st2 := advance st1 in
          match q with
          | None => st2
          | Some r =>
              let gain := (quote_lp r - entry_price position) * inject_Z (qty position) in
              mkState (dict_del position_id (positions st2)) (daily_pnl st2 + gain)
                      (last_signal st2) (daily_trades st2) (clock st2) (history st2)
          end
      end
  end.

Definition manage_position (st : State) (position_id : string) : State :=
  match dict_get position_id (positions st) with
  | None => st
  | Some position =>
      let q := quote_ok (w_quote w (clock st) (token position)) in
      let st1 := advance st in
      match q with
      | None => st1
      | Some r =>
          if Qleb (quote_lp r) (stop_loss position) then close_position st1 position_id
          else if Qleb (take_profit position) (quote_lp r) then close_position st1 position_id
          else st1
      end
  end.

(** The block guarded by [if signal and signal != self.last_signal]. *)
Definition act_on_signal (st : State) (signal : Signal) (call_symbol option_token : string)
  : State :=
  let st := fold_left close_position (map fst (positions st)) st in
  let q := quote_ok (w_quote w (clock st) option_token) in
  let st := advance st in
  match q with
  | None => st
  | Some r =>
      let entry := quote_lp r in
      let (resp, st) := place_order st Buy call_symbol (QTY cfg) in
      match resp with
      | None => st
      | Some order_id =>
          let position_id := (call_symbol ++ "_" ++ order_id)%string in
          let position := {|
            symbol := call_symbol;
            token := option_token;
            qty := QTY cfg;
            entry_price := entry;
            stop_loss := entry * (1 - MAX_LOSS_PER_TRADE cfg / 100);
            take_profit := entry * (1 + TAKE_PROFIT_PERCENT cfg / 100)
          |} in
          mkState (dict_set position_id position (positions st)) (daily_pnl st)
                  (Some signal) (S (daily_trades st)) (clock st) (history st)
      end
  end.

(** One pass through the body of [while True]. *)
Definition run_cycle (st : State) : State * Flow :=
  if negb (check_trading_hours st) then (advance st, Continue)
  else if Qleb (daily_pnl st) (- MAX_DAILY_LOSS cfg) then (st, Break)
  else
    let uq := quote_ok (w_underlying w (clock st)) in
    let st := advance st in
    match uq with
    | None => (advance st, Continue)
    | Some u =>
        match w_contract w (clock st) (quote_lp u) with
        | (_, None) => (advance (advance st), Continue)
        | (call_symbol, Some option_token) =>
            let st := advance st in
            let df := w_ohlc w (clock st) call_symbol in
            let st := advance st in
            match calculate_vwap df with
            | None => (advance st, Continue)
            | Some col =>
                let signal := vwap_crossover_logic (rows_of df col) in
                let st :=
                  match signal with
                  | Some s =>
                      if differs_from_last s (last_signal st)
                      then act_on_signal st s call_symbol option_token
                      else st
                  | None => st
                  end in
                let st := fold_left manage_position (map fst (positions st)) st in
                (advance st, Continue)
            end
        end
    end.

Fixpoint run (fuel : nat) (st : State) : State :=
  match fuel with
  | O => st
  | S fuel' =>
      match run_cycle st with
      | (st', Continue) => run fuel' st'
      | (st', Break) => st'
      end
  end.
End Loop.

End VWAPStrategy.

(** ** The stored series: [update_instrument_data] *)

(** A quote as the dashboard thread reads it (keys lp, o, h, l, v). *)
Record FeedQuote := mkFeedQuote {
  f_stat_ok : bool;
  f_lp : option Q;
  f_o : option Q;
  f_h : option Q;
  f_l : option Q;
  f_v : option Z
}.

(** [data_point]: the row built from a quote read at time [now]. *)
Definition data_point (now : Z) (q : FeedQuote) : Bar :=
  let curr := match f_lp q with Some v => v | None => 0 end in
  mkBar now
        (match f_o q with Some v => v | None => curr end)
        (match f_h q with Some v => v | None => curr end)
        (match f_l q with Some v => v | None => curr end)
        curr
        (match f_v q with Some v => v | None => 0%Z end).

Definition same_time (a b : Bar) : bool := (datetime a =? datetime b)%Z.

(** [drop_duplicates(subset=['datetime'], keep='last')]: a row stays unless
    a later row carries its timestamp. *)
Fixpoint drop_duplicates_last (df : list Bar) : list Bar :=
  match df with
  | [] => []
  | x :: rest =>
      if existsb (same_time x) rest then drop_duplicates_last rest
      else x :: drop_duplicates_last rest
  end.

(** The rows of the instrument's CSV after the write; [None] is a file that
    does not exist yet. *)
Definition write_row (file : option (list Bar)) (new_row : Bar) : list Bar :=
  match file with
  | Some existing => drop_duplicates_last (existing ++ [new_row])
  | None => [new_row]
  end.

(** [update_instrument_data]: the file after the call, and the signal put in
    [instrument_data] ([None] also when the series is still shorter than
    EMA_PERIOD).  A missing or failed quote leaves the file as it is. *)
Definition update_instrument_data (cfg : Config) (now : Z) (file : option (list Bar))
           (quote : option FeedQuote) : option (list Bar) * option Signal :=
  match quote with
  | None => (file, None)
  | Some q =>
      if negb (f_stat_ok q) then (file, None)
      else
        let df := write_row file (data_point now q) in
        (Some df,
         if (EMA_PERIOD cfg <=? length df)%nat then
           match indicator_frame cfg df with
           | Some frame =>
               match detect_signal frame with
               | Some (signal, _) => Some signal
               | None => None
               end
           | None => None
           end
         else None)
  end.

(** A stored series whose timestamps strictly increase, none after [now]. *)
Definition strictly_timed (df : list Bar) : Prop :=
  StronglySorted (fun a b => (datetime a < datetime b)%Z) df.

Definition file_in_order (now : Z) (file : option (list Bar)) : Prop :=
  match file with
  | Some rows => strictly_timed rows /\ Forall (fun b => (datetime b <= now)%Z) rows
  | None => True
  end.

(** ** Instruments: [get_atm_strikes], [initialize_instruments] *)

(** Python's [round] of a float: the nearest integer, a tie going to the
    even one. *)
Definition py_round (x : Q) : Z :=
  let f := Qfloor x in
  let d := x - inject_Z f in
  if Qltb d (1 # 2) then f
  else if Qltb (1 # 2) d then (f + 1)%Z
  else if Z.even f then f else (f + 1)%Z.

(** [str.upper()] on ASCII letters and the substring test [needle in hay]. *)
Definition upper_char (c : ascii) : ascii :=
  let n := nat_of_ascii c in
  if ((97 <=? n) && (n <=? 122))%nat then ascii_of_nat (n - 32) else c.

Fixpoint upper (s : string) : string :=
  match s with
  | EmptyString => EmptyString
  | String c rest => String (upper_char c) (upper rest)
  end.

Fixpoint contains (needle hay : string) : bool :=
  if String.prefix needle hay then true
  else
    match hay with
    | EmptyString => false
    | String _ rest => contains needle rest
    end.

(** [str(n)] for an integer. *)
Definition str_of_int (z : Z) : string := NilEmpty.string_of_int (Z.to_int z).

(** [range(-n, n + 1)] *)
Definition py_range (n : nat) : list Z :=
  map (fun i => (Z.of_nat i - Z.of_nat n)%Z) (seq 0 (2 * n + 1)).

(** The strike steps and expiries come from the [config] module (not part
    of the sources at hand); the other three are constants of
    [class Config]. *)
Record StrikeConfig := mkStrikeConfig {
  NIFTY_STRIKE_STEP : Z;
  BANKNIFTY_STRIKE_STEP : Z;
  NIFTY_EXPIRY : string;
  BANKNIFTY_EXPIRY : string;
  STRIKES_COUNT : nat;
  LOT_NIFTY : Z;
  LOT_BANKNIFTY : Z
}.

Section Instruments.
Variable sc : StrikeConfig.

Definition strike_step_of (underlying : string) : Z :=
  if contains "BANK" (upper underlying) then BANKNIFTY_STRIKE_STEP sc
  else NIFTY_STRIKE_STEP sc.

Definition atm_strike_of (ltp : Q) (underlying : string) : Z :=
  (py_round (ltp / inject_Z (strike_step_of underlying)) * strike_step_of underlying)%Z.

(** [get_atm_strikes(ltp, underlying, expiry)]: strikes, base and lot. *)
Definition get_atm_strikes (ltp : Q) (underlying : string) : list Z * string * Z :=
  let strike_step := strike_step_of underlying in
  let base := if contains "BANK" (upper underlying) then "BANKNIFTY"%string
              else "NIFTY"%string in
  let lot := if contains "BANK" (upper underlying) then LOT_BANKNIFTY sc
             else LOT_NIFTY sc in
  let atm_strike := atm_strike_of ltp underlying in
  (map (fun i => (atm_strike + i * strike_step)%Z) (py_range (STRIKES_COUNT sc)),
   base, lot).

(** The instruments appended for one underlying: for each strike, the call
    and then the put. *)
Definition option_instruments (base expiry : string) (lot : Z) (strikes : list Z)
  : list Instrument :=
  flat_map (fun strike =>
              map (fun opt_type =>
                     mkInstrument (base ++ expiry ++ opt_type ++ str_of_int strike)%string lot)
                  ["C"; "P"]%string)
           strikes.

(** [initialize_instruments], given the two index quotes it fetches. *)
Definition initialize_instruments (nifty_quote banknifty_quote : option Quote)
  : list Instrument :=
  (match VWAPStrategy.quote_ok nifty_quote with
   | Some q =>
       let '(strikes, base, _) := get_atm_strikes (quote_curr q) "NIFTY" in
       option_instruments base (NIFTY_EXPIRY sc) (LOT_NIFTY sc) strikes
   | None => []
   end) ++
  (match VWAPStrategy.quote_ok banknifty_quote with
   | Some q =>
       let '(strikes, base, _) := get_atm_strikes (quote_curr q) "BANKNIFTY" in
       option_instruments base (BANKNIFTY_EXPIRY sc) (LOT_BANKNIFTY sc) strikes
   | None => []
   end).
End Instruments.

(** ** The loop as a sequence of elementary steps

    Everything [run] does to the open set, the daily PnL, the ledger and the
    trade counter is one of four things: nothing (only the clock, the order
    log, [last_signal] or [trades] move), a tick of one stored position, the
    closing of one stored position, or the storing of one new position. *)

Definition closing_record (cfg : Config) (pos : Position) (px : Q) (reason : string)
           (status : option string) : TradeRecord := {|
  t_trade_no := trade_no pos;
  t_symbol := symbol pos;
  t_type := opt_type pos;
  t_entry := entry pos;
  t_exit := px;
  t_qty := qty pos;
  t_pnl := realized_pnl cfg pos px;
  t_mtm := (px - entry pos) * inject_Z (qty pos);
  t_max_mtm := max_mtm pos;
  t_min_mtm := min_mtm pos;
  t_reason := reason;
  t_status := match status with Some s => s | None => "CLOSED"%string end
|}.

Section Steps.
Variable cfg : Config.

Inductive atomic : State -> State -> Prop :=
| at_admin st st' :
    positions st' = positions st -> pnl st' = pnl st ->
    closed_trades st' = closed_trades st -> trade_counter st' = trade_counter st ->
    atomic st st'
| at_tick st st' k pos hi lo :
    dict_get k (positions st) = Some pos ->
    positions st' = dict_set k (tick_update cfg pos hi lo) (positions st) ->
    pnl st' = pnl st ->
    closed_trades st' = closed_trades st -> trade_counter st' = trade_counter st ->
    atomic st st'
| at_close st st' k pos px reason status :
    dict_get k (positions st) = Some pos ->
    positions st' = dict_del k (positions st) ->
    pnl st' = pnl st + realized_pnl cfg pos px ->
    closed_trades st' =
      keep_last_20 (closed_trades st ++ [closing_record cfg pos px reason status]) ->
    trade_counter st' = trade_counter st ->
    atomic st st'
| at_enter st st' k signal sym price lot oid :
    positions st' =
      dict_set k (new_position cfg (trade_counter st) signal sym price lot oid)
               (positions st) ->
    pnl st' = pnl st ->
    closed_trades st' = closed_trades st -> trade_counter st' = S (trade_counter st) ->
    atomic st st'.

Inductive reaches : State -> State -> Prop :=
| reaches_here st : reaches st st
| reaches_next st1 st2 st3 : reaches st1 st2 -> atomic st2 st3 -> reaches st1 st3.
End Steps.

(** The pnl fields of a list of closing records added up the way
    [self.pnl += pnl] adds them: from 0, in ledger order. *)
Definition running_pnl (l : list TradeRecord) : Q :=
  fold_left (fun acc r => acc + t_pnl r) l 0.

(** A ledger record whose pnl and mtm are the ones [close_position]
    computes from the record's own entry, exit and quantity. *)
Definition record_as_computed (cfg : Config) (r : TradeRecord) : Prop :=
  t_pnl r == (t_exit r - t_entry r) * inject_Z (t_qty r)
             - (t_entry r + t_exit r) * inject_Z (t_qty r) * COMMISSION cfg /\
  t_mtm r == (t_exit r - t_entry r) * inject_Z (t_qty r).

(** The trade numbers of the open positions. *)
Definition open_trade_numbers (st : State) : list nat :=
  map (fun kp => trade_no (snd kp)) (positions st).

(** What holds of an open position from its entry on. *)
Definition levels_as_entered (cfg : Config) (p : Position) : Prop :=
  sl p = initial_sl cfg (entry p) /\ tp p = entry p * (1 + TP_PERCENT cfg).

Definition marks_in_order (p : Position) : Prop :=
  low p <= entry p /\ entry p <= high p /\
  min_mtm p <= 0 /\ 0 <= max_mtm p /\ sl p <= current_sl p.

Definition mtm_follows_marks (p : Position) : Prop :=
  (0 <= qty p)%Z ->
  max_mtm p == (high p - entry p) * inject_Z (qty p) /\
  min_mtm p == (low p - entry p) * inject_Z (qty p).

Definition every_open (P : Position -> Prop) (st : State) : Prop :=
  Forall (fun kp => P (snd kp)) (positions st).

Definition numbers_ok (st : State) : Prop :=
  Forall (fun n => (n < trade_counter st)%nat) (open_trade_numbers st) /\
  NoDup (open_trade_numbers st).

(** The VWAP column of [TradingStrategy.calculate_vwap] when no cell needs
    filling, and the frame built from it. *)
Definition vwap_cells (df : list Bar) : list Q :=
  col_ratio
    (group_cumsum (fun _ => 0)
       (map (fun b => (date_of b, typical_price b * inject_Z (fix_volume (volume b)))) df))
    (group_cumsum (fun _ => 0)
       (map (fun b => (date_of b, inject_Z (fix_volume (volume b)))) df)).

Definition frame_rows (cfg : Config) (df : list Bar) : list Sample :=
  map (fun r => mkSample (b_close (fst r)) (fst (snd r)) (snd (snd r)))
      (combine df (combine (vwap_cells df) (calculate_ema cfg df))).

Definition within (lo hi : Q) (x : Q) : Prop := lo <= x /\ x <= hi.

(** Bars from the first traded one on: the first has a positive volume and
    no later volume is negative. *)
Definition traded_from_first (rest : list Bar) : Prop :=
  match rest with
  | [] => True
  | first :: later =>
      (0 < volume first)%Z /\ Forall (fun b => (0 <= volume b)%Z) later
  end.

(** ** Vocabulary of the statements *)

(** A position after a run of ticks, each tick given by the quote read. *)
Definition apply_ticks (cfg : Config) (pos : Position) (quotes : list Quote) : Position :=
  fold_left (fun p q => tick_update cfg p (quote_high q) (quote_low q)) quotes pos.

(** The position stored under [pos_id] has left the open set and the
    newest ledger entry is its closing record. *)
Definition closed_as (st : State) (pos_id : string) (pos : Position)
           (reason : string) (price : Q) : Prop :=
  dict_get pos_id (positions st) = None /\
  exists older rec,
    closed_trades st = older ++ [rec] /\
    t_trade_no rec = trade_no pos /\ t_symbol rec = symbol pos /\
    t_reason rec = reason /\ t_exit rec = price.

(** Number of open positions on a symbol, and the one-per-instrument rule. *)
Definition count_open (sym : string) (ps : list (string * Position)) : nat :=
  length (filter (fun kp => String.eqb (symbol (snd kp)) sym) ps).

Definition one_per_symbol (ps : list (string * Position)) : Prop :=
  forall sym, (count_open sym ps <= 1)%nat.

(** Reading the ghost history: the symbols of the buy orders placed, and
    the signal last acted on for a given instrument. *)
Fixpoint buy_orders (h : list Event) : list string :=
  match h with
  | [] => []
  | EvOrder Buy sym _ _ _ :: rest => sym :: buy_orders rest
  | _ :: rest => buy_orders rest
  end.

Fixpoint last_acted (sym : string) (h : list Event) : option Signal :=
  match h with
  | [] => None
  | e :: rest =>
      match last_acted sym rest with
      | Some s => Some s
      | None =>
          match e with
          | EvActed sym' s => if String.eqb sym' sym then Some s else None
          | _ => None
          end
      end
  end.

(** ** Example inputs *)

(** Five quiet rows that close at 9 under a typical price of 10 (EMA 9,
    VWAP 10), then a wide, heavy bar that closes at 8.9: VWAP drops to
    about 6.48, under the EMA (about 8.97), while the close stays under the
    EMA. *)
Definition quiet_bar (t : Z) : Bar := mkBar t 9 12 9 9 1.

Definition dip_bars : list Bar :=
  [quiet_bar 0; quiet_bar 60; quiet_bar 120; quiet_bar 180; quiet_bar 240;
   mkBar 300 9 9 1 (89 # 10) 100].

Definition dip_frame : list Sample :=
  match indicator_frame source_config dip_bars with
  | Some df => df
  | None => []
  end.

(** A two-row frame with a confirmed upward crossing. *)
Definition up_frame : list Sample := [mkSample 10 10 10; mkSample 13 10 11].

(** A world in which every quote request returns [q], every order is
    acknowledged with id ["1"], it is always 10:00, nobody touches the
    keyboard and the data cache is empty. *)
Definition steady_world (q : Quote) : World := {|
  w_quote := fun _ _ => Some q;
  w_order := fun _ _ _ _ => Some "1"%string;
  w_now := fun _ => 36000000000%Z;
  w_key := fun _ => None;
  w_input := fun _ => "0"%string;
  w_polls := fun _ => 0%nat;
  w_cache := fun _ _ => None
|}.

Definition last_price (p : Q) : Quote := mkQuote true (Some p) None None.

(** The same world with the operator answering 1 at the manual-exit prompt. *)
Definition exit_request_world (q : Quote) : World := {|
  w_quote := fun _ _ => Some q;
  w_order := fun _ _ _ _ => Some "1"%string;
  w_now := fun _ => 36000000000%Z;
  w_key := fun _ => None;
  w_input := fun _ => "1"%string;
  w_polls := fun _ => 0%nat;
  w_cache := fun _ _ => None
|}.

(** The state right after a first entry on NIFTY_C at 100 with one lot. *)
Definition one_open (cfg : Config) : State :=
  snd (enter_trade (steady_world (last_price 100)) cfg init_state BUY_CALL
                   "NIFTY_C" 100 75).

(** A configuration with a 20 percent stop and a 30 percent trail. *)
Definition trailing_config : Config := {|
  SL_PERCENT := 20 # 100;
  TP_PERCENT := 60 # 100;
  TRAILING_SL_PERCENT := 30 # 100;
  EMA_PERIOD := 5;
  ENTRY_DELAY := 30;
  COMMISSION := 3 # 10000;
  MAX_DAILY_LOSS := 5000
|}.

(** Two rows on consecutive days, and two rows of one day whose second
    volume is zero. *)
Definition two_day_bars : list Bar :=
  [mkBar 0 10 10 10 10 1; mkBar 86400 20 20 20 20 1].

Definition zero_volume_bars : list Bar :=
  [mkBar 0 10 10 10 10 5; mkBar 60 20 20 20 20 0].

(** Two tracked instruments and two five-row frames, one ending in a
    confirmed upward crossing, one in a confirmed downward crossing. *)
Definition call_option : Instrument := mkInstrument "NIFTY24C21500" 75.
Definition put_option : Instrument := mkInstrument "NIFTY24P21500" 75.

Definition quiet_sample : Sample := mkSample 1000 1000 1000.
Definition call_frame : list Sample :=
  [quiet_sample; quiet_sample; quiet_sample; quiet_sample; mkSample 1300 1000 1100].
Definition put_frame : list Sample :=
  [quiet_sample; quiet_sample; quiet_sample; quiet_sample; mkSample 700 1000 900].

(** Both instruments show the same BUY_CALL crossing. *)
Definition same_signal_world : World := {|
  w_quote := fun _ _ => Some (last_price 1300);
  w_order := fun _ _ _ _ => Some "1"%string;
  w_now := fun _ => 36000000000%Z;
  w_key := fun _ => None;
  w_input := fun _ => "0"%string;
  w_polls := fun _ => 0%nat;
  w_cache := fun _ _ => Some call_frame
|}.

(** The call shows BUY_CALL, the put shows BUY_PUT; the call is quoted at
    1200; the put is quoted at 700 during the first two passes of the loop
    and at 3000 afterwards; at the start of the second pass the user presses
    M and picks trade 1. *)
Definition loss_world : World := {|
  w_quote := fun t sym =>
    if String.eqb sym (i_symbol call_option) then Some (last_price 1200)
    else Some (last_price (if (t <? 13)%nat then 700 else 3000));
  w_order := fun t _ _ _ => Some (str_of_nat t);
  w_now := fun _ => 36000000000%Z;
  w_key := fun t => if (t =? 4)%nat then Some Key_m else None;
  w_input := fun _ => "1"%string;
  w_polls := fun _ => 0%nat;
  w_cache := fun _ sym =>
    if String.eqb sym (i_symbol call_option) then Some call_frame else Some put_frame
|}.

Definition both_options : list Instrument := [call_option; put_option].

(** The states [loss_world] leads to after the first and the second pass. *)
Definition after_entries : State :=
  run loss_world source_config both_options 1 init_state.
Definition after_loss : State :=
  run loss_world source_config both_options 2 init_state.

(** For [VWAPStrategy]: the option's candles show an upward cross of the
    close over VWAP in the first pass and a downward cross afterwards, while
    its quote falls from 1300 to 1200. *)
Definition rising_bars : list Bar := [mkBar 0 10 10 10 10 1; mkBar 60 12 12 12 12 1].
Definition falling_bars : list Bar := [mkBar 0 10 10 10 10 1; mkBar 60 8 8 8 8 1].

Definition reversal_world : VWAPStrategy.World := {|
  VWAPStrategy.w_underlying := fun _ => Some (last_price 21500);
  VWAPStrategy.w_contract := fun _ _ => ("NIFTY24C21500"%string, Some "54321"%string);
  VWAPStrategy.w_ohlc := fun t _ => if (t <? 8)%nat then rising_bars else falling_bars;
  VWAPStrategy.w_quote := fun t _ =>
    Some (last_price (if (t <? 8)%nat then 1300 else 1200));
  VWAPStrategy.w_order := fun t _ _ _ => Some (str_of_nat t);
  VWAPStrategy.w_now := fun _ => 36000000000%Z
|}.

Definition variant_config : VWAPStrategy.Config := {|
  VWAPStrategy.QTY := 75;
  VWAPStrategy.MAX_DAILY_LOSS := 5000;
  VWAPStrategy.MAX_LOSS_PER_TRADE := 20;
  VWAPStrategy.TAKE_PROFIT_PERCENT := 60
|}.

(** Strike steps of 50 and 100, one strike either side of the money. *)
Definition sample_strikes : StrikeConfig := {|
  NIFTY_STRIKE_STEP := 50;
  BANKNIFTY_STRIKE_STEP := 100;
  NIFTY_EXPIRY := "09DEC25";
  BANKNIFTY_EXPIRY := "30DEC25";
  STRIKES_COUNT := 1;
  LOT_NIFTY := 75;
  LOT_BANKNIFTY := 25
|}.

(** * Properties *)

(** ** Comparisons *)

Lemma Qleb_iff (x y : Q) : Qleb x y = true <-> x <= y.
Proof. apply Qle_bool_iff. Qed.

Lemma Qltb_iff (x y : Q) : Qltb x y = true <-> x < y.
Proof.
  unfold Qltb. rewrite negb_true_iff.
  split; intro H.
  - apply Qnot_le_lt. intro Hle. apply Qle_bool_iff in Hle. congruence.
  - destruct (Qle_bool y x) eqn:E; [|reflexivity].
    apply Qle_bool_iff in E. exfalso. apply (Qlt_not_le _ _ H E).
Qed.

Lemma Qleb_false (x y : Q) : Qleb x y = false <-> y < x.
Proof.
  rewrite <- Qltb_iff. unfold Qltb, Qleb.
  destruct (Qle_bool x y); simpl; split; congruence.
Qed.

Lemma Qltb_false (x y : Q) : Qltb x y = false <-> y <= x.
Proof.
  rewrite <- Qleb_iff. unfold Qltb, Qleb.
  destruct (Qle_bool y x); simpl; split; congruence.
Qed.

Lemma pymax_ge_l (a b : Q) : a <= pymax a b.
Proof.
  unfold pymax. destruct (Qltb a b) eqn:E.
  - apply Qltb_iff in E. apply Qlt_le_weak, E.
  - apply Qle_refl.
Qed.

Lemma pymax_ge_r (a b : Q) : b <= pymax a b.
Proof.
  unfold pymax. destruct (Qltb a b) eqn:E.
  - apply Qle_refl.
  - apply Qltb_false in E. exact E.
Qed.

Lemma pymin_le_l (a b : Q) : pymin a b <= a.
Proof.
  unfold pymin. destruct (Qltb b a) eqn:E.
  - apply Qltb_iff in E. apply Qlt_le_weak, E.
  - apply Qle_refl.
Qed.

Lemma pymin_le_r (a b : Q) : pymin a b <= b.
Proof.
  unfold pymin. destruct (Qltb b a) eqn:E.
  - apply Qle_refl.
  - apply Qltb_false in E. exact E.
Qed.

(** ** Signal detector *)

Lemma call_cond_iff (prev curr : Sample) :
  call_cond prev curr = true <->
  s_ema prev <= s_vwap prev /\ s_vwap curr < s_ema curr /\
  s_vwap curr < s_close curr /\ s_ema curr < s_close curr.
Proof.
  unfold call_cond. rewrite !andb_true_iff, Qleb_iff, !Qltb_iff. tauto.
Qed.

Lemma put_cond_iff (prev curr : Sample) :
  put_cond prev curr = true <->
  s_vwap prev <= s_ema prev /\ s_ema curr < s_vwap curr /\
  s_close curr < s_vwap curr /\ s_close curr < s_ema curr.
Proof.
  unfold put_cond. rewrite !andb_true_iff, Qleb_iff, !Qltb_iff. tauto.
Qed.

Lemma call_put_exclusive (prev curr : Sample) :
  call_cond prev curr = true -> put_cond prev curr = false.
Proof.
  intro Hc. destruct (put_cond prev curr) eqn:Hp; [|reflexivity].
  apply call_cond_iff in Hc. apply put_cond_iff in Hp.
  destruct Hc as (_ & Hc & _). destruct Hp as (_ & Hp & _).
  exfalso. apply (Qlt_irrefl (s_ema curr)). eapply Qlt_trans; eassumption.
Qed.

Lemma detect_signal_last_two (pre : list Sample) (prev curr : Sample) :
  detect_signal (pre ++ [prev; curr]) =
  if call_cond prev curr then Some (BUY_CALL, s_close curr)
  else if put_cond prev curr then Some (BUY_PUT, s_close curr)
  else None.
Proof.
  unfold detect_signal.
  rewrite length_app, rev_app_distr. simpl.
  replace (length pre + 2 <? 2)%nat with false
    by (symmetry; apply Nat.ltb_ge; lia).
  reflexivity.
Qed.

Lemma prefix_last_two (df : list Sample) (i : nat) (prev curr : Sample) :
  (1 <= i)%nat -> nth_error df (i - 1) = Some prev -> nth_error df i = Some curr ->
  firstn (S i) df = firstn (i - 1) df ++ [prev; curr].
Proof.
  revert i. induction df as [|a df IH]; intros i Hi Hp Hc.
  - destruct i; discriminate.
  - destruct i as [|i]; [lia|].
    simpl in Hp, Hc. rewrite Nat.sub_0_r in Hp.
    destruct i as [|i].
    + simpl in Hp. injection Hp as ->.
      destruct df as [|b df]; [discriminate|].
      simpl in Hc. injection Hc as ->. reflexivity.
    + change (firstn (S (S (S i))) (a :: df)) with (a :: firstn (S (S i)) df).
      rewrite (IH (S i)); try assumption; try lia.
      * simpl. rewrite Nat.sub_0_r. reflexivity.
      * simpl. rewrite Nat.sub_0_r. simpl in Hp. exact Hp.
Qed.

Lemma signal_at_rows (df : list Sample) (i : nat) (prev curr : Sample) :
  (1 <= i)%nat -> nth_error df (i - 1) = Some prev -> nth_error df i = Some curr ->
  signal_at df i =
  if call_cond prev curr then Some (BUY_CALL, s_close curr)
  else if put_cond prev curr then Some (BUY_PUT, s_close curr)
  else None.
Proof.
  intros Hi Hp Hc. unfold signal_at.
  rewrite (prefix_last_two df i prev curr Hi Hp Hc).
  apply detect_signal_last_two.
Qed.

Lemma no_signal_at_first_row (df : list Sample) : signal_at df 0 = None.
Proof.
  unfold signal_at, detect_signal.
  destruct df as [|a df]; reflexivity.
Qed.

Lemma fires_call_is_cross_up (df : list Sample) (j : nat) :
  fires BUY_CALL df j -> cross_up df j.
Proof.
  intros [Hlt [p Hp]].
  destruct j as [|j].
  - rewrite no_signal_at_first_row in Hp. discriminate.
  - destruct (nth_error df (S j - 1)) as [prev|] eqn:Eprev.
    2:{ apply nth_error_None in Eprev. lia. }
    destruct (nth_error df (S j)) as [curr|] eqn:Ecurr.
    2:{ apply nth_error_None in Ecurr. lia. }
    rewrite (signal_at_rows df (S j) prev curr) in Hp by (assumption || lia).
    destruct (call_cond prev curr) eqn:Hc.
    + apply call_cond_iff in Hc. destruct Hc as (H1 & H2 & _).
      exists prev, curr. repeat split; try assumption; lia.
    + destruct (put_cond prev curr); discriminate.
Qed.

(** C1 (amended).  With row [i-1] as [prev] and row [i] as [curr], the
    evaluation at row [i] returns BUY_CALL (priced at the current close)
    exactly when prev.ema <= prev.vwap, curr.ema > curr.vwap,
    curr.close > curr.vwap and curr.close > curr.ema; BUY_PUT exactly under
    the mirrored conditions; nothing otherwise; never both.  On a series
    whose EMA crosses VWAP upward exactly once, BUY_CALL fires at no row
    other than the crossing row, and fires there exactly when the close of
    that row is above both the VWAP and the EMA. *)
Theorem detect_signal_crossover (df : list Sample) (i : nat) (prev curr : Sample) :
  (1 <= i)%nat -> nth_error df (i - 1) = Some prev -> nth_error df i = Some curr ->
  (signal_at df i = Some (BUY_CALL, s_close curr) <->
     s_ema prev <= s_vwap prev /\ s_vwap curr < s_ema curr /\
     s_vwap curr < s_close curr /\ s_ema curr < s_close curr) /\
  (signal_at df i = Some (BUY_PUT, s_close curr) <->
     s_vwap prev <= s_ema prev /\ s_ema curr < s_vwap curr /\
     s_close curr < s_vwap curr /\ s_close curr < s_ema curr) /\
  (signal_at df i = None <->
     call_cond prev curr = false /\ put_cond prev curr = false) /\
  (forall s p, signal_at df i = Some (s, p) -> p = s_close curr) /\
  ~ (fires BUY_CALL df i /\ fires BUY_PUT df i) /\
  (forall k, cross_up_exactly_once_at df k -> forall j, fires BUY_CALL df j -> j = k) /\
  (cross_up_exactly_once_at df i ->
     (fires BUY_CALL df i <-> s_vwap curr < s_close curr /\ s_ema curr < s_close curr)).
Proof.
  intros Hi Hprev Hcurr.
  pose proof (signal_at_rows df i prev curr Hi Hprev Hcurr) as Hsig.
  assert (Hlen : (i < length df)%nat).
  { apply nth_error_Some. rewrite Hcurr. discriminate. }
  assert (Hcall : signal_at df i = Some (BUY_CALL, s_close curr) <->
                  call_cond prev curr = true).
  { rewrite Hsig. destruct (call_cond prev curr).
    - tauto.
    - destruct (put_cond prev curr); split; discriminate. }
  assert (Hput : signal_at df i = Some (BUY_PUT, s_close curr) <->
                 put_cond prev curr = true).
  { rewrite Hsig. destruct (call_cond prev curr) eqn:Hc.
    - apply call_put_exclusive in Hc. rewrite Hc. split; discriminate.
    - destruct (put_cond prev curr); [tauto|split; discriminate]. }
  assert (Hprice : forall s p, signal_at df i = Some (s, p) -> p = s_close curr).
  { intros s p H. rewrite Hsig in H.
    destruct (call_cond prev curr); [congruence|].
    destruct (put_cond prev curr); congruence. }
  assert (Hfire : fires BUY_CALL df i <-> call_cond prev curr = true).
  { rewrite <- Hcall. split.
    - intros [_ [p Hp]]. rewrite Hp. f_equal. f_equal. eapply Hprice, Hp.
    - intro H. split; [exact Hlen|]. eexists. exact H. }
  split; [rewrite Hcall; apply call_cond_iff|].
  split; [rewrite Hput; apply put_cond_iff|].
  split.
  { rewrite Hsig. destruct (call_cond prev curr).
    - split; [discriminate|intros [? _]; discriminate].
    - destruct (put_cond prev curr).
      + split; [discriminate|intros [_ ?]; discriminate].
      + tauto. }
  split; [exact Hprice|].
  split.
  { intros [[_ [p Hp]] [_ [p' Hp']]]. congruence. }
  split.
  { intros k [_ Huniq] j Hj. apply Huniq, fires_call_is_cross_up, Hj. }
  intros [(prev' & curr' & _ & Hp' & Hc' & H1 & H2) _].
  rewrite Hprev in Hp'. rewrite Hcurr in Hc'.
  injection Hp' as <-. injection Hc' as <-.
  rewrite Hfire, call_cond_iff. tauto.
Qed.

Lemma detect_signal_crossover_witness :
  signal_at up_frame 1 = Some (BUY_CALL, 13).
Proof.
  pose proof (detect_signal_crossover up_frame 1 (mkSample 10 10 10) (mkSample 13 10 11)
                (le_n 1) eq_refl eq_refl) as H.
  apply (proj2 (proj1 H)).
  simpl. repeat split; unfold Qle, Qlt; simpl; lia.
Defined.

Ltac concrete_row H :=
  vm_compute in H; injection H; clear H; intros; subst.

(** C1 (as stated) fails: [dip_bars], run through [calculate_vwap] and
    [calculate_ema], gives a frame whose EMA crosses VWAP upward exactly
    once, at row 5, and yet BUY_CALL fires at no row: at the crossing the
    close (8.9) is below the EMA. *)
Lemma crossover_without_call :
  indicator_frame source_config dip_bars = Some dip_frame /\
  cross_up_exactly_once_at dip_frame 5 /\
  forall i, ~ fires BUY_CALL dip_frame i.
Proof.
  split; [vm_compute; reflexivity|].
  assert (Hcross : cross_up dip_frame 5).
  { eexists. eexists.
    split; [lia|].
    split; [vm_compute; reflexivity|].
    split; [vm_compute; reflexivity|].
    split; [apply Qleb_iff|apply Qltb_iff]; vm_compute; reflexivity. }
  assert (Honly : forall j, cross_up dip_frame j -> j = 5%nat).
  { intros j (prev & curr & Hj & Hp & Hc & _ & Hup).
    apply Qltb_iff in Hup.
    do 6 (destruct j as [|j]; [try lia; try (concrete_row Hc; vm_compute in Hup; discriminate)|]).
    assert (Hlen : (S (S (S (S (S (S j))))) < length dip_frame)%nat)
      by (apply nth_error_Some; rewrite Hc; discriminate).
    change (length dip_frame) with 6%nat in Hlen. lia. }
  split; [split; assumption|].
  intros i Hfire. apply fires_call_is_cross_up in Hfire as Hx.
  apply Honly in Hx. subst i.
  destruct Hfire as [_ [p Hp]]. vm_compute in Hp. discriminate.
Qed.

(** ** Dictionaries *)

Lemma dict_get_set_same {V} (k : string) (v : V) (d : list (string * V)) :
  dict_get k (dict_set k v d) = Some v.
Proof.
  induction d as [|[k' v'] d IH]; simpl.
  - rewrite String.eqb_refl. reflexivity.
  - destruct (String.eqb k' k) eqn:E; simpl.
    + rewrite String.eqb_refl. reflexivity.
    + rewrite E. exact IH.
Qed.

Lemma dict_get_set_other {V} (k k' : string) (v : V) (d : list (string * V)) :
  k <> k' -> dict_get k' (dict_set k v d) = dict_get k' d.
Proof.
  intro Hne. induction d as [|[k0 v0] d IH]; simpl.
  - apply String.eqb_neq in Hne. rewrite Hne. reflexivity.
  - destruct (String.eqb k0 k) eqn:E; simpl.
    + apply String.eqb_eq in E. subst k0.
      apply String.eqb_neq in Hne. rewrite Hne. reflexivity.
    + rewrite IH. reflexivity.
Qed.

Lemma dict_get_del_same {V} (k : string) (d : list (string * V)) :
  dict_get k (dict_del k d) = None.
Proof.
  unfold dict_del. induction d as [|[k' v'] d IH]; simpl; [reflexivity|].
  destruct (String.eqb k' k) eqn:E; simpl; [exact IH|].
  rewrite E. exact IH.
Qed.

Lemma dict_get_del_other {V} (k k' : string) (d : list (string * V)) :
  k <> k' -> dict_get k' (dict_del k d) = dict_get k' d.
Proof.
  intro Hne. unfold dict_del. induction d as [|[k0 v0] d IH]; simpl; [reflexivity|].
  destruct (String.eqb k0 k) eqn:E; simpl.
  - apply String.eqb_eq in E. subst k0.
    apply String.eqb_neq in Hne. rewrite Hne. exact IH.
  - rewrite IH. reflexivity.
Qed.

(** ** Ticks *)

Section TickFacts.
Variable cfg : Config.

Lemma tick_update_entry (pos : Position) (hi lo : Q) :
  entry (tick_update cfg pos hi lo) = entry pos /\
  qty (tick_update cfg pos hi lo) = qty pos /\
  symbol (tick_update cfg pos hi lo) = symbol pos /\
  trade_no (tick_update cfg pos hi lo) = trade_no pos /\
  tp (tick_update cfg pos hi lo) = tp pos /\
  sl (tick_update cfg pos hi lo) = sl pos.
Proof. repeat split. Qed.

Lemma tick_update_monotone (pos : Position) (hi lo : Q) :
  high pos <= high (tick_update cfg pos hi lo) /\
  low (tick_update cfg pos hi lo) <= low pos /\
  max_mtm pos <= max_mtm (tick_update cfg pos hi lo) /\
  min_mtm (tick_update cfg pos hi lo) <= min_mtm pos /\
  current_sl pos <= current_sl (tick_update cfg pos hi lo).
Proof.
  unfold tick_update; simpl.
  repeat split; try apply pymax_ge_l; try apply pymin_le_l.
  destruct (Qltb 0 (TRAILING_SL_PERCENT cfg) && Qltb 0 (SL_PERCENT cfg)).
  - apply pymax_ge_l.
  - apply Qle_refl.
Qed.

Lemma apply_ticks_app (pos : Position) (qs1 qs2 : list Quote) :
  apply_ticks cfg pos (qs1 ++ qs2) = apply_ticks cfg (apply_ticks cfg pos qs1) qs2.
Proof. unfold apply_ticks. apply fold_left_app. Qed.

Lemma apply_ticks_monotone (quotes : list Quote) (pos : Position) :
  high pos <= high (apply_ticks cfg pos quotes) /\
  low (apply_ticks cfg pos quotes) <= low pos /\
  max_mtm pos <= max_mtm (apply_ticks cfg pos quotes) /\
  min_mtm (apply_ticks cfg pos quotes) <= min_mtm pos /\
  current_sl pos <= current_sl (apply_ticks cfg pos quotes).
Proof.
  revert pos. induction quotes as [|q quotes IH]; intro pos.
  - simpl. repeat split; apply Qle_refl.
  - change (apply_ticks cfg pos (q :: quotes))
      with (apply_ticks cfg (tick_update cfg pos (quote_high q) (quote_low q)) quotes).
    destruct (IH (tick_update cfg pos (quote_high q) (quote_low q)))
      as (H1 & H2 & H3 & H4 & H5).
    destruct (tick_update_monotone pos (quote_high q) (quote_low q))
      as (T1 & T2 & T3 & T4 & T5).
    repeat split; eapply Qle_trans; eassumption.
Qed.

Lemma apply_ticks_entry (quotes : list Quote) (pos : Position) :
  entry (apply_ticks cfg pos quotes) = entry pos /\
  symbol (apply_ticks cfg pos quotes) = symbol pos.
Proof.
  revert pos. induction quotes as [|q quotes IH]; intro pos; [split; reflexivity|].
  change (apply_ticks cfg pos (q :: quotes))
    with (apply_ticks cfg (tick_update cfg pos (quote_high q) (quote_low q)) quotes).
  destruct (IH (tick_update cfg pos (quote_high q) (quote_low q))) as [-> ->].
  split; reflexivity.
Qed.
End TickFacts.

(** ** What [close_position] and [manage_positions] do to the open set *)

Section LifecycleFacts.
Variable w : World.
Variable cfg : Config.

Lemma keep_last_20_snoc (l : list TradeRecord) (r : TradeRecord) :
  exists older, keep_last_20 (l ++ [r]) = older ++ [r].
Proof.
  unfold keep_last_20.
  destruct (20 <? length (l ++ [r]))%nat eqn:E.
  - rewrite length_app. simpl.
    rewrite skipn_app.
    replace (length l + 1 - 20 - length l)%nat with 0%nat by lia.
    simpl. eexists. reflexivity.
  - exists l. reflexivity.
Qed.

Lemma close_position_positions (st : State) (pos_id reason : string)
      (price : option Q) (status : option string) :
  positions (close_position w cfg st pos_id reason price status) =
  match dict_get pos_id (positions st) with
  | Some _ => dict_del pos_id (positions st)
  | None => positions st
  end.
Proof.
  unfold close_position.
  destruct (dict_get pos_id (positions st)); [|reflexivity].
  destruct price; reflexivity.
Qed.

Lemma close_position_at (st : State) (pos_id reason : string) (pos : Position)
      (px : Q) (status : option string) :
  dict_get pos_id (positions st) = Some pos ->
  let st' := close_position w cfg st pos_id reason (Some px) status in
  closed_as st' pos_id pos reason px /\
  pnl st' = pnl st + realized_pnl cfg pos px /\
  exists older rec, closed_trades st' = older ++ [rec] /\
                    t_pnl rec = realized_pnl cfg pos px /\ t_exit rec = px.
Proof.
  intros Hget st'. subst st'. unfold closed_as, close_position. rewrite Hget. simpl.
  destruct (keep_last_20_snoc (closed_trades st)
    {| t_trade_no := trade_no pos; t_symbol := symbol pos; t_type := opt_type pos;
       t_entry := entry pos; t_exit := px; t_qty := qty pos;
       t_pnl := realized_pnl cfg pos px;
       t_mtm := (px - entry pos) * inject_Z (qty pos);
       t_max_mtm := max_mtm pos; t_min_mtm := min_mtm pos; t_reason := reason;
       t_status := match status with Some s => s | None => "CLOSED"%string end |})
    as [older Hk].
  rewrite Hk.
  split; [split; [apply dict_get_del_same|]|split; [reflexivity|]];
    eexists; eexists; (split; [reflexivity|]); repeat split.
Qed.

(** What one iteration of [manage_positions] can do to the open set. *)
Lemma manage_one_positions (st : State) (pos_id : string) :
  positions (manage_one w cfg st pos_id) = positions st \/
  exists pos q,
    dict_get pos_id (positions st) = Some pos /\
    let pos' := tick_update cfg pos (quote_high q) (quote_low q) in
    (positions (manage_one w cfg st pos_id) = dict_set pos_id pos' (positions st) \/
     positions (manage_one w cfg st pos_id) =
       dict_del pos_id (dict_set pos_id pos' (positions st))).
Proof.
  unfold manage_one.
  destruct (dict_get pos_id (positions st)) as [pos|] eqn:Hget; [|left; reflexivity].
  simpl.
  destruct (w_quote w (clock st) (symbol pos)) as [q|]; [|left; reflexivity].
  destruct (stat_ok q); simpl; [|left; reflexivity].
  right. exists pos, q. split; [reflexivity|]. simpl.
  match goal with |- context [match ?d with Some _ => _ | None => _ end] =>
    destruct d as [[[price reason] status]|] end.
  - right. rewrite close_position_positions. simpl.
    rewrite dict_get_set_same. reflexivity.
  - left. reflexivity.
Qed.

Lemma manage_one_get_other (st : State) (pos_id k : string) :
  pos_id <> k ->
  dict_get k (positions (manage_one w cfg st pos_id)) = dict_get k (positions st).
Proof.
  intro Hne.
  destruct (manage_one_positions st pos_id) as [->|(pos & q & _ & [-> | ->])].
  - reflexivity.
  - apply dict_get_set_other, Hne.
  - rewrite dict_get_del_other by exact Hne. apply dict_get_set_other, Hne.
Qed.

Lemma manage_one_get_same (st : State) (k : string) (p : Position) :
  dict_get k (positions st) = Some p ->
  dict_get k (positions (manage_one w cfg st k)) = Some p \/
  dict_get k (positions (manage_one w cfg st k)) = None \/
  exists q, dict_get k (positions (manage_one w cfg st k)) =
            Some (tick_update cfg p (quote_high q) (quote_low q)).
Proof.
  intro Hget.
  destruct (manage_one_positions st k) as [->|(pos & q & Hpos & [-> | ->])].
  - left. exact Hget.
  - right. right. exists q. rewrite Hget in Hpos. injection Hpos as <-.
    apply dict_get_set_same.
  - right. left. apply dict_get_del_same.
Qed.

Lemma manage_one_get_none (st : State) (pos_id k : string) :
  dict_get k (positions st) = None ->
  dict_get k (positions (manage_one w cfg st pos_id)) = None.
Proof.
  intro Hnone.
  destruct (string_dec pos_id k) as [->|Hne].
  - unfold manage_one. rewrite Hnone. exact Hnone.
  - rewrite manage_one_get_other by exact Hne. exact Hnone.
Qed.

Lemma manage_fold_get_none (keys : list string) (st : State) (k : string) :
  dict_get k (positions st) = None ->
  dict_get k (positions (fold_left (manage_one w cfg) keys st)) = None.
Proof.
  revert st. induction keys as [|a keys IH]; intros st Hnone; [exact Hnone|].
  simpl. apply IH, manage_one_get_none, Hnone.
Qed.

Lemma manage_fold_ticks (keys : list string) (st : State) (k : string) (p p' : Position) :
  dict_get k (positions st) = Some p ->
  dict_get k (positions (fold_left (manage_one w cfg) keys st)) = Some p' ->
  exists quotes, p' = apply_ticks cfg p quotes.
Proof.
  revert st p. induction keys as [|a keys IH]; intros st p Hget Hget'.
  - simpl in Hget'. exists []. simpl. congruence.
  - simpl in Hget'.
    destruct (string_dec a k) as [->|Hne].
    + destruct (manage_one_get_same st k p Hget) as [H|[H|[q H]]].
      * eapply IH; eassumption.
      * rewrite (manage_fold_get_none keys _ k H) in Hget'. discriminate.
      * destruct (IH _ _ H Hget') as [quotes ->].
        exists (q :: quotes). reflexivity.
    + eapply IH; [|exact Hget'].
      rewrite manage_one_get_other by exact Hne. exact Hget.
Qed.

(** A position that is still open after [manage_positions] is the earlier
    one advanced by ticks, and nothing else. *)
Lemma manage_positions_ticks (st : State) (k : string) (p p' : Position) :
  dict_get k (positions st) = Some p ->
  dict_get k (positions (manage_positions w cfg st)) = Some p' ->
  exists quotes, p' = apply_ticks cfg p quotes.
Proof. apply manage_fold_ticks. Qed.
End LifecycleFacts.

(** ** Claims about a single position *)

Lemma pymax_Qmax (a b : Q) : pymax a b == Qmax a b.
Proof.
  unfold pymax. destruct (Qltb a b) eqn:E.
  - apply Qltb_iff in E. symmetry. apply Q.max_r, Qlt_le_weak, E.
  - apply Qltb_false in E. symmetry. apply Q.max_l, E.
Qed.

Lemma new_position_marks (cfg : Config) (tc : nat) (signal : Signal) (sym : string)
      (price : Q) (lot : Z) (oid : string) :
  let p0 := new_position cfg tc signal sym price lot oid in
  high p0 = entry p0 /\ low p0 = entry p0 /\ max_mtm p0 = 0 /\ min_mtm p0 = 0.
Proof. repeat split. Qed.

(** C10.  A position starts with both water marks at the entry price and
    both mark-to-market extremes at 0.  Over any run of ticks the high
    water mark and [max_mtm] never decrease, the low water mark and
    [min_mtm] never increase; hence high >= entry >= low and
    max_mtm >= 0 >= min_mtm at every moment of its life.  The same holds
    across [manage_positions] for every position it leaves open. *)
Theorem water_marks_monotone (w : World) (cfg : Config) (tc : nat) (signal : Signal)
        (sym : string) (price : Q) (lot : Z) (oid : string) (earlier later : list Quote) :
  let p0 := new_position cfg tc signal sym price lot oid in
  let p1 := apply_ticks cfg p0 earlier in
  let p2 := apply_ticks cfg p1 later in
  (high p0 = entry p0 /\ low p0 = entry p0 /\ max_mtm p0 = 0 /\ min_mtm p0 = 0) /\
  (high p1 <= high p2 /\ low p2 <= low p1 /\
   max_mtm p1 <= max_mtm p2 /\ min_mtm p2 <= min_mtm p1) /\
  (entry p1 <= high p1 /\ low p1 <= entry p1 /\ min_mtm p1 <= 0 /\ 0 <= max_mtm p1) /\
  (forall st k p p',
      dict_get k (positions st) = Some p ->
      dict_get k (positions (manage_positions w cfg st)) = Some p' ->
      high p <= high p' /\ low p' <= low p /\
      max_mtm p <= max_mtm p' /\ min_mtm p' <= min_mtm p).
Proof.
  intros p0 p1 p2.
  split; [apply new_position_marks|].
  split.
  { destruct (apply_ticks_monotone cfg later p1) as (H1 & H2 & H3 & H4 & _). tauto. }
  split.
  { destruct (apply_ticks_monotone cfg earlier p0) as (H1 & H2 & H3 & H4 & _).
    destruct (apply_ticks_entry cfg earlier p0) as [He _].
    unfold p1. rewrite He. tauto. }
  intros st k p p' Hp Hp'.
  destruct (manage_positions_ticks w cfg st k p p' Hp Hp') as [quotes ->].
  destruct (apply_ticks_monotone cfg quotes p) as (H1 & H2 & H3 & H4 & _). tauto.
Qed.


Lemma manage_one_with_quote (w : World) (cfg : Config) (st : State) (pos_id : string)
      (pos : Position) (q : Quote) :
  dict_get pos_id (positions st) = Some pos ->
  w_quote w (clock st) (symbol pos) = Some q -> stat_ok q = true ->
  let pos' := tick_update cfg pos (quote_high q) (quote_low q) in
  let st2 := set_positions (dict_set pos_id pos' (positions st)) (advance st) in
  dict_get pos_id (positions st2) = Some pos' /\
  manage_one w cfg st pos_id =
  match exit_decision cfg (in_trading_hours w (advance st)) pos'
                      (quote_curr q) (quote_high q) (quote_low q) with
  | Some (price, reason, status) =>
      close_position w cfg st2 pos_id reason (Some price) (Some status)
  | None => st2
  end.
Proof.
  intros Hget Hq Hok pos' st2.
  split; [apply dict_get_set_same|].
  unfold manage_one. rewrite Hget. simpl. rewrite Hq, Hok. reflexivity.
Qed.

(** C4 (amended).  On a tick of an open position for which a quote with
    status Ok was obtained, the exits are tried in this order, first match
    wins: if a base stop-loss percentage is configured (SL_PERCENT > 0) and
    the tick low <= current_sl, the position closes with reason SL at
    current_sl; otherwise if the tick high >= take-profit it closes with
    reason TP at the take-profit; otherwise if the time is outside trading
    hours it closes with reason EOD at the last price; otherwise it stays
    open, carrying the tick's updates. *)
Theorem manage_one_exit_order (w : World) (cfg : Config) (st : State) (pos_id : string)
        (pos : Position) (q : Quote) :
  dict_get pos_id (positions st) = Some pos ->
  w_quote w (clock st) (symbol pos) = Some q -> stat_ok q = true ->
  let pos' := tick_update cfg pos (quote_high q) (quote_low q) in
  let st' := manage_one w cfg st pos_id in
  let sl_hit := 0 < SL_PERCENT cfg /\ quote_low q <= current_sl pos' in
  let tp_hit := tp pos' <= quote_high q in
  let in_hours := in_trading_hours w (advance st) = true in
  (sl_hit -> closed_as st' pos_id pos "SL" (current_sl pos')) /\
  (~ sl_hit -> tp_hit -> closed_as st' pos_id pos "TP" (tp pos')) /\
  (~ sl_hit -> ~ tp_hit -> ~ in_hours -> closed_as st' pos_id pos "EOD" (quote_curr q)) /\
  (~ sl_hit -> ~ tp_hit -> in_hours ->
   dict_get pos_id (positions st') = Some pos' /\ closed_trades st' = closed_trades st).
Proof.
  intros Hget Hq Hok pos' st' sl_hit tp_hit in_hours.
  destruct (manage_one_with_quote w cfg st pos_id pos q Hget Hq Hok) as [Hget2 Hstep].
  fold pos' in Hget2, Hstep. fold st' in Hstep.
  set (st2 := set_positions (dict_set pos_id pos' (positions st)) (advance st)) in *.
  assert (Hsl : Qltb 0 (SL_PERCENT cfg) && Qleb (quote_low q) (current_sl pos') = true
                <-> sl_hit).
  { unfold sl_hit. rewrite andb_true_iff, Qltb_iff, Qleb_iff. tauto. }
  assert (Htp : Qleb (tp pos') (quote_high q) = true <-> tp_hit).
  { unfold tp_hit. apply Qleb_iff. }
  unfold exit_decision in Hstep.
  destruct (Qltb 0 (SL_PERCENT cfg) && Qleb (quote_low q) (current_sl pos')) eqn:Esl.
  { assert (sl_hit) by (apply Hsl; reflexivity).
    repeat split; try tauto.
    - rewrite Hstep. apply (close_position_at w cfg st2 pos_id "SL" pos' _ _ Hget2).
    - rewrite Hstep. apply (close_position_at w cfg st2 pos_id "SL" pos' _ _ Hget2). }
  assert (~ sl_hit) by (rewrite <- Hsl; discriminate).
  destruct (Qleb (tp pos') (quote_high q)) eqn:Etp.
  { assert (tp_hit) by (apply Htp; reflexivity).
    repeat split; try tauto.
    - rewrite Hstep. apply (close_position_at w cfg st2 pos_id "TP" pos' _ _ Hget2).
    - rewrite Hstep. apply (close_position_at w cfg st2 pos_id "TP" pos' _ _ Hget2). }
  assert (~ tp_hit) by (rewrite <- Htp; discriminate).
  unfold in_hours.
  destruct (in_trading_hours w (advance st)) eqn:Eh; simpl in Hstep.
  - repeat split; try tauto; try (intros; exfalso; tauto);
      intros; rewrite Hstep; [exact Hget2|reflexivity].
  - repeat split; try tauto; try (intros; discriminate).
    + rewrite Hstep. apply (close_position_at w cfg st2 pos_id "EOD" pos' _ _ Hget2).
    + rewrite Hstep. apply (close_position_at w cfg st2 pos_id "EOD" pos' _ _ Hget2).
Qed.

Lemma water_marks_monotone_witness :
  exists p',
    dict_get "NIFTY_C_1"
      (positions (manage_positions (steady_world (last_price 40)) source_config
                                   (one_open source_config))) = Some p' /\
    low p' <= 100 /\ 100 <= high p'.
Proof.
  eexists. split; [vm_compute; reflexivity|].
  destruct (water_marks_monotone (steady_world (last_price 40)) source_config
              1 BUY_CALL "NIFTY_C" 100 75 "1" [] []) as (_ & _ & _ & Hstate).
  match goal with |- low ?p <= _ /\ _ =>
    destruct (Hstate (one_open source_config) "NIFTY_C_1"%string
                     (new_position source_config 1 BUY_CALL "NIFTY_C" 100 75 "1") p
                     eq_refl eq_refl) as (Hh & Hl & _)
  end.
  split; assumption.
Defined.


Lemma manage_one_exit_order_witness :
  let st := one_open trailing_config in
  let pos := new_position trailing_config 1 BUY_CALL "NIFTY_C" 100 75 "1" in
  closed_as (manage_one (steady_world (last_price 70)) trailing_config st "NIFTY_C_1")
            "NIFTY_C_1" pos "SL" (initial_sl trailing_config 100).
Proof.
  intros st pos.
  destruct (manage_one_exit_order (steady_world (last_price 70)) trailing_config st
              "NIFTY_C_1" pos (last_price 70) eq_refl eq_refl eq_refl) as (Hsl & _).
  apply Hsl. split; [reflexivity|]. apply Qleb_iff. reflexivity.
Defined.

(** C4 (as stated) fails: under the configuration written in the source
    (SL_PERCENT = 0) a position entered at 100 has current_sl = 50; a tick
    at 40, during trading hours, has low <= current_sl, and the position
    stays open with nothing added to the ledger. *)
Lemma low_under_stop_stays_open :
  let st := one_open source_config in
  let st' := manage_one (steady_world (last_price 40)) source_config st "NIFTY_C_1" in
  exists pos',
    dict_get "NIFTY_C_1" (positions st') = Some pos' /\
    current_sl pos' == 50 /\
    quote_low (last_price 40) <= current_sl pos' /\
    in_trading_hours (steady_world (last_price 40)) (advance st) = true /\
    closed_trades st' = [].
Proof.
  eexists. split; [vm_compute; reflexivity|].
  split; [reflexivity|].
  split; [apply Qleb_iff; reflexivity|].
  split; reflexivity.
Qed.

(** ** Session VWAP *)

Lemma group_cumsum_length (rows : list (Z * Q)) (acc : Z -> Q) :
  length (group_cumsum acc rows) = length rows.
Proof.
  revert acc. induction rows as [|[k v] rows IH]; intro acc; simpl; [reflexivity|].
  rewrite IH. reflexivity.
Qed.

Lemma col_ratio_length (num den : list Q) :
  length num = length den -> length (col_ratio num den) = length num.
Proof.
  revert den. induction num as [|n num IH]; intros [|d den] Hlen; simpl in *;
    try reflexivity; try discriminate.
  rewrite IH by lia. reflexivity.
Qed.

(** On keys that never decrease, one running total per key is the same as
    one running total restarted at each change of key. *)
Lemma group_cumsum_session (rows : list (Z * Q)) :
  forall (acc : Z -> Q) (cur : option Z) (run : Q),
    StronglySorted (fun a b => (fst a <= fst b)%Z) rows ->
    match cur with
    | Some d0 => acc d0 == run /\ (forall k, (d0 < k)%Z -> acc k == 0) /\
                 Forall (fun r => (d0 <= fst r)%Z) rows
    | None => forall k, acc k == 0
    end ->
    Forall2 Qeq (group_cumsum acc rows) (session_cumsum cur run rows).
Proof.
  induction rows as [|[d v] rows IH]; intros acc cur run Hsorted Hinv; simpl.
  - constructor.
  - apply StronglySorted_inv in Hsorted. destruct Hsorted as [Hrest Hhead].
    assert (Hcell : acc d + v ==
                    match cur with
                    | Some d0 => if (d0 =? d)%Z then run + v else v
                    | None => v
                    end).
    { destruct cur as [d0|].
      - destruct Hinv as (Hrun & Hzero & Hge).
        destruct (Z.eqb_spec d0 d) as [->|Hne].
        + rewrite Hrun. reflexivity.
        + rewrite Hzero; [ring|].
          apply Forall_inv in Hge. simpl in Hge. lia.
      - rewrite Hinv. ring. }
    constructor; [exact Hcell|].
    apply IH; [exact Hrest|].
    split; [rewrite Z.eqb_refl; exact Hcell|].
    split.
    + intros k Hk. destruct (Z.eqb_spec k d) as [->|_]; [lia|].
      destruct cur as [d0|].
      * destruct Hinv as (_ & Hzero & Hge). apply Hzero.
        apply Forall_inv in Hge. simpl in Hge. lia.
      * apply Hinv.
    + exact Hhead.
Qed.

Lemma group_cumsum_positive (rows : list (Z * Q)) :
  forall acc : Z -> Q,
    (forall k, 0 <= acc k) -> Forall (fun r => 0 < snd r) rows ->
    Forall (fun c => 0 < c) (group_cumsum acc rows).
Proof.
  induction rows as [|[d v] rows IH]; intros acc Hacc Hpos; simpl; constructor.
  - apply Forall_inv in Hpos. simpl in Hpos. specialize (Hacc d). cbv beta. lra.
  - apply IH; [|eapply Forall_inv_tail; exact Hpos].
    intro k. apply Forall_inv in Hpos. simpl in Hpos.
    destruct (k =? d)%Z; [specialize (Hacc d); lra|apply Hacc].
Qed.

Lemma col_div_defined (num den : list Q) :
  Forall (fun c => 0 < c) den -> col_div num den = map Some (col_ratio num den).
Proof.
  revert den. induction num as [|n num IH]; intros [|d den] Hpos; simpl; try reflexivity.
  rewrite IH by (eapply Forall_inv_tail; exact Hpos).
  apply Forall_inv in Hpos. unfold fdiv.
  destruct (Qeq_bool d 0) eqn:E; [|reflexivity].
  apply Qeq_bool_eq in E. rewrite E in Hpos. exfalso. apply (Qlt_irrefl 0 Hpos).
Qed.

Lemma ffill_from_defined (col : list Q) (last : option Q) :
  ffill_from last (map Some col) = map Some col.
Proof.
  revert last. induction col as [|c col IH]; intro last; simpl; [reflexivity|].
  rewrite IH. reflexivity.
Qed.

Lemma bfill_ffill_defined (col : list Q) :
  bfill (ffill (map Some col)) = map Some col.
Proof.
  unfold bfill, ffill. rewrite ffill_from_defined, <- map_rev, ffill_from_defined.
  rewrite map_rev, rev_involutive. reflexivity.
Qed.

Lemma col_ratio_Qeq (n n' d d' : list Q) :
  Forall2 Qeq n n' -> Forall2 Qeq d d' ->
  Forall2 Qeq (col_ratio n d) (col_ratio n' d').
Proof.
  intro Hn. revert d d'. induction Hn as [|a a' n n' Ha Hn IH]; intros d d' Hd.
  - simpl. constructor.
  - destruct Hd as [|b b' d d' Hb Hd]; simpl; constructor.
    + rewrite Ha, Hb. reflexivity.
    + apply IH, Hd.
Qed.

Lemma time_ordered_dates (f : Bar -> Q) (df : list Bar) :
  time_ordered df ->
  StronglySorted (fun a b => (fst a <= fst b)%Z) (map (fun b => (date_of b, f b)) df).
Proof.
  intro Hs. apply Sorted_StronglySorted in Hs.
  2:{ intros a b c Hab Hbc. lia. }
  induction Hs as [|a df Hs IH Hhead]; simpl; constructor.
  - exact IH.
  - rewrite Forall_map. eapply Forall_impl; [|exact Hhead].
    intros b Hb. simpl in *. unfold date_of. apply Z.div_le_mono; [lia|exact Hb].
Qed.

Lemma fixed_volume_positive (df : list Bar) :
  Forall (fun b => (0 <= volume b)%Z) df ->
  Forall (fun r => 0 < snd r)
         (map (fun b => (date_of b, inject_Z (fix_volume (volume b)))) df).
Proof.
  intro Hvol. rewrite Forall_map. eapply Forall_impl; [|exact Hvol].
  intros b Hb. simpl in *. unfold fix_volume, Qlt. simpl.
  destruct (Z.eqb_spec (volume b) 0); lia.
Qed.

Lemma cumsum_session (rows : list (Z * Q)) (d : Z) :
  forall (acc : Q) (cur : option Z) (run : Q),
    Forall (fun r => fst r = d) rows ->
    match cur with
    | Some d0 => d0 = d /\ acc == run
    | None => acc == 0
    end ->
    Forall2 Qeq (cumsum acc (map snd rows)) (session_cumsum cur run rows).
Proof.
  induction rows as [|[k v] rows IH]; intros acc cur run Hkeys Hinv; simpl.
  - constructor.
  - pose proof (Forall_inv Hkeys) as Hk. simpl in Hk. subst k.
    assert (Hcell : acc + v ==
                    match cur with
                    | Some d0 => if (d0 =? d)%Z then run + v else v
                    | None => v
                    end).
    { destruct cur as [d0|].
      - destruct Hinv as [-> Hrun]. rewrite Z.eqb_refl, Hrun. reflexivity.
      - rewrite Hinv. ring. }
    constructor; [exact Hcell|].
    apply IH; [eapply Forall_inv_tail; exact Hkeys|].
    split; [reflexivity|exact Hcell].
Qed.

Lemma cumsum_positive (xs : list Q) :
  forall acc, 0 <= acc -> Forall (fun x => 0 < x) xs ->
              Forall (fun c => 0 < c) (cumsum acc xs).
Proof.
  induction xs as [|x xs IH]; intros acc Hacc Hpos; simpl; constructor.
  - apply Forall_inv in Hpos. cbv beta. lra.
  - apply IH; [|eapply Forall_inv_tail; exact Hpos].
    apply Forall_inv in Hpos. lra.
Qed.

Lemma spec_weight_nonzero (b : Bar) :
  (0 < volume b)%Z -> spec_weight b = inject_Z (volume b).
Proof.
  intro H. unfold spec_weight.
  destruct (Z.eqb_spec (volume b) 0); [lia|reflexivity].
Qed.

(** C7 (amended).  For a series of at least two rows, in non-decreasing
    timestamp order and with no negative volume,
    [TradingStrategy.calculate_vwap] yields a column without gaps whose cell
    at each row is cumulative(typical x volume) / cumulative(volume), with
    typical = (high + low + close) / 3, a zero volume counted as 1, and both
    sums restarted at every change of session date.
    [VWAPStrategy.calculate_vwap] sums over the whole frame and keeps zero
    volumes; it yields that same column when the frame is not empty, lies
    within one session date and has only positive volumes. *)
Theorem calculate_vwap_session (df : list Bar) :
  ((2 <= length df)%nat -> time_ordered df ->
   Forall (fun b => (0 <= volume b)%Z) df ->
   exists col,
     calculate_vwap df = Some (map Some col) /\
     length col = length df /\
     Forall2 Qeq col (spec_session_vwap df)) /\
  (df <> [] -> (forall a b, In a df -> In b df -> date_of a = date_of b) ->
   Forall (fun b => (0 < volume b)%Z) df ->
   exists col,
     VWAPStrategy.calculate_vwap df = Some (map Some col) /\
     Forall2 Qeq col (spec_session_vwap df)).
Proof.
  split.
  - intros Hlen Hsorted Hvol.
    set (vol := map (fun b => (date_of b, inject_Z (fix_volume (volume b)))) df).
    set (tpv := map (fun b => (date_of b, typical_price b * inject_Z (fix_volume (volume b)))) df).
    exists (col_ratio (group_cumsum (fun _ => 0) tpv) (group_cumsum (fun _ => 0) vol)).
    split; [|split].
    + unfold calculate_vwap.
      replace (length df <? 2)%nat with false by (symmetry; apply Nat.ltb_ge; exact Hlen).
      fold vol tpv. cbv zeta.
      rewrite col_div_defined, bfill_ffill_defined; [reflexivity|].
      apply group_cumsum_positive; [intro; apply Qle_refl|].
      apply fixed_volume_positive, Hvol.
    + rewrite col_ratio_length; rewrite !group_cumsum_length; unfold tpv, vol;
        rewrite !length_map; reflexivity.
    + unfold spec_session_vwap.
      apply col_ratio_Qeq; apply group_cumsum_session;
        try (apply time_ordered_dates; exact Hsorted); intro; reflexivity.
  - intros Hne Hdate Hvol.
    destruct df as [|b0 df']; [congruence|].
    set (df := b0 :: df') in *.
    set (vol := map (fun b => inject_Z (volume b)) df).
    set (tpv := map (fun b => typical_price b * inject_Z (volume b)) df).
    exists (col_ratio (cumsum 0 tpv) (cumsum 0 vol)).
    assert (Hkeys : forall f : Bar -> Q,
               Forall (fun r => fst r = date_of b0) (map (fun b => (date_of b, f b)) df)).
    { intro f. rewrite Forall_map. apply Forall_forall. intros b Hb. simpl.
      apply Hdate; [exact Hb|left; reflexivity]. }
    split.
    + unfold VWAPStrategy.calculate_vwap, df. fold df. fold vol tpv. cbv zeta.
      rewrite col_div_defined; [unfold ffill; rewrite ffill_from_defined; reflexivity|].
      apply cumsum_positive; [apply Qle_refl|].
      unfold vol. rewrite Forall_map. eapply Forall_impl; [|exact Hvol].
      intros b Hb. simpl in *. unfold Qlt. simpl. lia.
    + unfold spec_session_vwap.
      replace (map (fun b => (date_of b, typical_price b * spec_weight b)) df)
        with (map (fun b => (date_of b, typical_price b * inject_Z (volume b))) df).
      2:{ apply map_ext_in. intros b Hb. rewrite spec_weight_nonzero; [reflexivity|].
          rewrite Forall_forall in Hvol. apply Hvol, Hb. }
      replace (map (fun b => (date_of b, spec_weight b)) df)
        with (map (fun b => (date_of b, inject_Z (volume b))) df).
      2:{ apply map_ext_in. intros b Hb. rewrite spec_weight_nonzero; [reflexivity|].
          rewrite Forall_forall in Hvol. apply Hvol, Hb. }
      apply col_ratio_Qeq.
      * replace tpv with (map snd (map (fun b => (date_of b, typical_price b * inject_Z (volume b))) df))
          by (rewrite map_map; reflexivity).
        apply (cumsum_session _ (date_of b0)); [apply Hkeys|reflexivity].
      * replace vol with (map snd (map (fun b => (date_of b, inject_Z (volume b))) df))
          by (rewrite map_map; reflexivity).
        apply (cumsum_session _ (date_of b0)); [apply Hkeys|reflexivity].
Qed.

Lemma calculate_vwap_session_witness :
  exists col,
    calculate_vwap two_day_bars = Some (map Some col) /\
    length col = 2%nat /\
    Forall2 Qeq col (spec_session_vwap two_day_bars).
Proof.
  apply (proj1 (calculate_vwap_session two_day_bars)).
  - simpl. lia.
  - repeat constructor. simpl. lia.
  - repeat constructor; simpl; lia.
Defined.

(** C7 (as stated) fails for [VWAPStrategy.calculate_vwap]: on two rows of
    consecutive days it returns 15 at the second row where the
    session-restricted value is 20 (no restart at the date change), and on
    two rows of one day of which the second has volume 0 it returns 10
    where the value with the zero volume counted as 1 is 70/6. *)
Lemma whole_frame_vwap_differs :
  time_ordered two_day_bars /\ time_ordered zero_volume_bars /\
  (exists a b, VWAPStrategy.calculate_vwap two_day_bars = Some [Some a; Some b] /\
               b == 15 /\ nth 1 (spec_session_vwap two_day_bars) 0 == 20) /\
  (exists a b, VWAPStrategy.calculate_vwap zero_volume_bars = Some [Some a; Some b] /\
               b == 10 /\ nth 1 (spec_session_vwap zero_volume_bars) 0 == 70 # 6).
Proof.
  split; [repeat constructor; simpl; lia|].
  split; [repeat constructor; simpl; lia|].
  split; eexists; eexists; (split; [vm_compute; reflexivity|]); split; reflexivity.
Qed.

(** ** One open position per instrument *)

Lemma count_open_del (sym k : string) (ps : list (string * Position)) :
  (count_open sym (dict_del k ps) <= count_open sym ps)%nat.
Proof.
  unfold count_open, dict_del.
  induction ps as [|[k' v] ps IH]; simpl; [lia|].
  destruct (negb (String.eqb k' k)); simpl;
    destruct (String.eqb (symbol v) sym); simpl; lia.
Qed.

Lemma count_open_set_le (sym k : string) (p : Position) (ps : list (string * Position)) :
  (count_open sym (dict_set k p ps)
   <= count_open sym ps + (if String.eqb (symbol p) sym then 1 else 0))%nat.
Proof.
  unfold count_open.
  induction ps as [|[k' v] ps IH]; simpl.
  - destruct (String.eqb (symbol p) sym); simpl; lia.
  - destruct (String.eqb k' k); simpl.
    + destruct (String.eqb (symbol p) sym), (String.eqb (symbol v) sym); simpl; lia.
    + destruct (String.eqb (symbol v) sym); simpl; lia.
Qed.

Lemma count_open_set_same (sym k : string) (p p' : Position) (ps : list (string * Position)) :
  dict_get k ps = Some p -> symbol p' = symbol p ->
  count_open sym (dict_set k p' ps) = count_open sym ps.
Proof.
  unfold count_open. intros Hget Hsym.
  induction ps as [|[k' v] ps IH]; simpl in *; [discriminate|].
  destruct (String.eqb k' k); simpl.
  - injection Hget as ->. rewrite Hsym.
    destruct (String.eqb (symbol p) sym); reflexivity.
  - destruct (String.eqb (symbol v) sym); simpl; rewrite (IH Hget); reflexivity.
Qed.

Lemma has_position_count (st : State) (sym : string) :
  has_position st sym = false -> count_open sym (positions st) = 0%nat.
Proof.
  unfold has_position, count_open.
  induction (positions st) as [|[k v] ps IH]; simpl; [reflexivity|].
  destruct (String.eqb (symbol v) sym); simpl; [discriminate|exact IH].
Qed.

Section OnePerSymbol.
Variable w : World.
Variable cfg : Config.

Lemma close_position_one (st : State) (pos_id reason : string) (price : option Q)
      (status : option string) :
  one_per_symbol (positions st) ->
  one_per_symbol (positions (close_position w cfg st pos_id reason price status)).
Proof.
  intros Hinv sym. rewrite close_position_positions.
  destruct (dict_get pos_id (positions st)); [|apply Hinv].
  eapply Nat.le_trans; [apply count_open_del|apply Hinv].
Qed.

Lemma manage_one_one (st : State) (pos_id : string) :
  one_per_symbol (positions st) ->
  one_per_symbol (positions (manage_one w cfg st pos_id)).
Proof.
  intros Hinv sym.
  destruct (manage_one_positions w cfg st pos_id) as [->|(pos & q & Hget & [-> | ->])].
  - apply Hinv.
  - rewrite (count_open_set_same sym pos_id pos) by (assumption || reflexivity).
    apply Hinv.
  - eapply Nat.le_trans; [apply count_open_del|].
    rewrite (count_open_set_same sym pos_id pos) by (assumption || reflexivity).
    apply Hinv.
Qed.

Lemma manage_positions_one (st : State) :
  one_per_symbol (positions st) ->
  one_per_symbol (positions (manage_positions w cfg st)).
Proof.
  unfold manage_positions. generalize (map fst (positions st)) as keys.
  intro keys. revert st.
  induction keys as [|k keys IH]; intros st Hinv; simpl; [exact Hinv|].
  apply IH, manage_one_one, Hinv.
Qed.

Lemma manual_exit_one (st : State) :
  one_per_symbol (positions st) ->
  one_per_symbol (positions (manual_exit w cfg st)).
Proof.
  intro Hinv. unfold manual_exit.
  destruct (positions st) as [|kp ps] eqn:Hps; [rewrite Hps; exact Hinv|].
  rewrite <- Hps in Hinv |- *.
  match goal with |- context [String.eqb ?c "0"] => destruct (String.eqb c "0") end;
    [exact Hinv|].
  match goal with |- context [find_trade ?c ?l] => destruct (find_trade c l) end;
    [|exact Hinv].
  apply close_position_one. exact Hinv.
Qed.

(** [enter_trade] either leaves the open set alone or stores one new
    position, whose symbol is the instrument's. *)
Lemma enter_trade_positions (st : State) (signal : Signal) (sym : string) (price : Q)
      (lot : Z) :
  positions (snd (enter_trade w cfg st signal sym price lot)) = positions st \/
  exists pos_id pos,
    symbol pos = sym /\
    positions (snd (enter_trade w cfg st signal sym price lot)) =
      dict_set pos_id pos (positions st).
Proof.
  unfold enter_trade. simpl.
  destruct (w_order w _ sym lot Buy) as [id|]; [|left; reflexivity].
  destruct (String.eqb id EmptyString); [left; reflexivity|].
  right. eexists. eexists. split; [|reflexivity]. reflexivity.
Qed.

Lemma scan_instrument_positions (st : State) (inst : Instrument) :
  positions (scan_instrument w cfg st inst) = positions st \/
  has_position st (i_symbol inst) = false /\
  exists pos_id pos,
    symbol pos = i_symbol inst /\
    positions (scan_instrument w cfg st inst) = dict_set pos_id pos (positions st).
Proof.
  unfold scan_instrument.
  destruct (w_cache w (clock st) (i_symbol inst)) as [df|]; [|left; reflexivity].
  destruct (EMA_PERIOD cfg <=? length df)%nat; [|left; reflexivity].
  destruct (detect_signal df) as [[signal sig_price]|]; [|left; reflexivity].
  destruct (has_position st (i_symbol inst)) eqn:Hhas; simpl; [left; reflexivity|].
  destruct (differs_from_last signal (last_signal st)); [|left; reflexivity].
  pose proof (enter_trade_positions st signal (i_symbol inst) sig_price (lot_size inst))
    as Hent.
  destruct (enter_trade w cfg st signal (i_symbol inst) sig_price (lot_size inst))
    as [[pid|] st']; simpl in *.
  - destruct Hent as [->|Hent]; [left; reflexivity|right; split; [reflexivity|exact Hent]].
  - destruct Hent as [->|Hent]; [left; reflexivity|right; split; [reflexivity|exact Hent]].
Qed.

Lemma scan_instrument_one (st : State) (inst : Instrument) :
  one_per_symbol (positions st) ->
  one_per_symbol (positions (scan_instrument w cfg st inst)).
Proof.
  intros Hinv sym.
  destruct (scan_instrument_positions st inst)
    as [->|(Hflat & pos_id & pos & Hsym & ->)]; [apply Hinv|].
  eapply Nat.le_trans; [apply count_open_set_le|].
  rewrite Hsym. destruct (String.eqb_spec (i_symbol inst) sym) as [<-|_].
  - rewrite (has_position_count st _ Hflat). lia.
  - specialize (Hinv sym). lia.
Qed.

Lemma scan_all_one (instruments : list Instrument) (st : State) :
  one_per_symbol (positions st) ->
  one_per_symbol (positions (fold_left (scan_instrument w cfg) instruments st)).
Proof.
  revert st. induction instruments as [|inst instruments IH]; intros st Hinv; simpl;
    [exact Hinv|].
  apply IH, scan_instrument_one, Hinv.
Qed.

Lemma run_cycle_one (instruments : list Instrument) (st : State) :
  one_per_symbol (positions st) ->
  one_per_symbol (positions (fst (run_cycle w cfg instruments st))).
Proof.
  intro Hinv. unfold run_cycle.
  destruct (in_trading_hours w st); simpl; [|exact Hinv].
  destruct (Qleb (pnl st) (- MAX_DAILY_LOSS cfg)); simpl; [exact Hinv|].
  destruct (w_key w (clock st)) as [[| |]|]; simpl; try exact Hinv;
    apply scan_all_one, manage_positions_one; try exact Hinv.
  apply manual_exit_one. exact Hinv.
Qed.

Lemma run_one (instruments : list Instrument) (fuel : nat) (st : State) :
  one_per_symbol (positions st) ->
  one_per_symbol (positions (run w cfg instruments fuel st)).
Proof.
  revert st. induction fuel as [|fuel IH]; intros st Hinv; simpl; [exact Hinv|].
  pose proof (run_cycle_one instruments st Hinv) as Hstep.
  destruct (run_cycle w cfg instruments st) as [st' [|]]; simpl in Hstep.
  - apply IH, Hstep.
  - exact Hstep.
Qed.
End OnePerSymbol.

(** ** Claims about the loop *)

(** C9.  Starting from the initial state, after any number of passes of the
    loop (manual exits, position management and entries included) no symbol
    has more than one open position; every single operation of a pass keeps
    that property; and for an instrument that already has an open position
    the entry scan does nothing at all. *)
Theorem one_open_position_per_symbol (w : World) (cfg : Config)
        (instruments : list Instrument) (fuel : nat) :
  one_per_symbol (positions (run w cfg instruments fuel init_state)) /\
  (forall st,
      one_per_symbol (positions st) ->
      one_per_symbol (positions (manual_exit w cfg st)) /\
      one_per_symbol (positions (manage_positions w cfg st)) /\
      (forall inst, one_per_symbol (positions (scan_instrument w cfg st inst))) /\
      one_per_symbol (positions (fst (run_cycle w cfg instruments st)))) /\
  (forall st inst,
      has_position st (i_symbol inst) = true -> scan_instrument w cfg st inst = st).
Proof.
  split; [|split].
  - apply run_one. intro sym. unfold count_open. simpl. lia.
  - intros st Hinv.
    split; [apply manual_exit_one, Hinv|].
    split; [apply manage_positions_one, Hinv|].
    split; [intro inst; apply scan_instrument_one, Hinv|].
    apply run_cycle_one, Hinv.
  - intros st inst Hhas. unfold scan_instrument.
    destruct (w_cache w (clock st) (i_symbol inst)) as [df|]; [|reflexivity].
    destruct (EMA_PERIOD cfg <=? length df)%nat; [|reflexivity].
    destruct (detect_signal df) as [[signal sig_price]|]; [|reflexivity].
    rewrite Hhas. reflexivity.
Qed.

Lemma one_open_position_per_symbol_witness :
  one_per_symbol (positions after_loss) /\
  scan_instrument loss_world source_config after_entries call_option = after_entries.
Proof.
  split.
  - apply (proj1 (one_open_position_per_symbol loss_world source_config both_options 2)).
  - apply (proj2 (proj2 (one_open_position_per_symbol loss_world source_config
                           both_options 0))).
    vm_compute. reflexivity.
Defined.

(** C2 (amended).  In [TradingStrategy.run], a detected signal on an
    instrument leads to an entry attempt (a buy order) exactly when no
    position is open on that instrument and the signal differs from the
    strategy's single last acted-on signal, [self.last_signal], which is
    shared by all instruments; otherwise the pass leaves the state as it
    is. *)
Theorem entry_needs_flat_and_new_signal (w : World) (cfg : Config) (st : State)
        (inst : Instrument) (df : list Sample) (signal : Signal) (price : Q) :
  w_cache w (clock st) (i_symbol inst) = Some df ->
  (EMA_PERIOD cfg <= length df)%nat ->
  detect_signal df = Some (signal, price) ->
  let st' := scan_instrument w cfg st inst in
  (has_position st (i_symbol inst) = false /\ last_signal st <> Some signal ->
   exists result rest,
     history st' =
     history st ++ EvOrder Buy (i_symbol inst) (lot_size inst) result (pnl st) :: rest) /\
  (has_position st (i_symbol inst) = true \/ last_signal st = Some signal -> st' = st).
Proof.
  intros Hcache Hlen Hsig st'. subst st'. unfold scan_instrument.
  rewrite Hcache, Hsig.
  replace (EMA_PERIOD cfg <=? length df)%nat with true
    by (symmetry; apply Nat.leb_le; exact Hlen).
  split.
  - intros [Hflat Hnew]. rewrite Hflat.
    assert (Hdiff : differs_from_last signal (last_signal st) = true).
    { unfold differs_from_last. destruct (last_signal st) as [l|]; [|reflexivity].
      destruct signal, l; simpl; try reflexivity; exfalso; apply Hnew; reflexivity. }
    rewrite Hdiff. simpl. unfold enter_trade. simpl.
    destruct (w_order w _ (i_symbol inst) (lot_size inst) Buy) as [id|].
    + destruct (String.eqb id EmptyString); simpl; rewrite <- ?app_assoc; simpl;
        eexists; eexists; reflexivity.
    + simpl. eexists. exists []. reflexivity.
  - intros [Hhas|Hsame].
    + rewrite Hhas. reflexivity.
    + rewrite Hsame. unfold differs_from_last.
      replace (Signal_eqb signal signal) with true by (destruct signal; reflexivity).
      simpl. rewrite andb_false_r. reflexivity.
Qed.

Lemma entry_needs_flat_and_new_signal_witness :
  exists result rest,
    history (scan_instrument same_signal_world source_config init_state call_option) =
    EvOrder Buy "NIFTY24C21500" 75 result 0 :: rest.
Proof.
  apply (proj1 (entry_needs_flat_and_new_signal same_signal_world source_config
                  init_state call_option call_frame BUY_CALL 1300
                  eq_refl (le_n 5) eq_refl)).
  split; [reflexivity|discriminate].
Defined.

(** C2 (as stated) fails: with the same BUY_CALL crossing on two
    instruments, both flat and never traded, one pass enters the call and
    then skips the put: the put is flat, has no acted-on signal of its own,
    and is refused only because the call's entry set the shared
    [last_signal].  Were the put scanned alone, it would be entered. *)
Lemma shared_last_signal_blocks_other_instrument :
  let st' := fst (run_cycle same_signal_world source_config both_options init_state) in
  detect_signal call_frame = Some (BUY_CALL, 1300) /\
  has_position st' (i_symbol put_option) = false /\
  last_acted (i_symbol put_option) (history st') = None /\
  buy_orders (history st') = [i_symbol call_option] /\
  last_signal st' = Some BUY_CALL /\
  buy_orders (history (fst (run_cycle same_signal_world source_config [put_option]
                                      init_state))) = [i_symbol put_option].
Proof. repeat split. Qed.

Lemma run_continue (w : World) (cfg : Config) (instruments : list Instrument)
      (fuel : nat) (st st' : State) :
  run_cycle w cfg instruments st = (st', Continue) ->
  run w cfg instruments (S fuel) st = run w cfg instruments fuel st'.
Proof. intro H. simpl. rewrite H. reflexivity. Qed.

Lemma run_break (w : World) (cfg : Config) (instruments : list Instrument)
      (fuel : nat) (st st' : State) :
  run_cycle w cfg instruments st = (st', Break) ->
  run w cfg instruments (S fuel) st = st'.
Proof. intro H. simpl. rewrite H. reflexivity. Qed.

Lemma breach_breaks (w : World) (cfg : Config) (instruments : list Instrument)
      (st : State) :
  in_trading_hours w st = true -> pnl st <= - MAX_DAILY_LOSS cfg ->
  run_cycle w cfg instruments st = (st, Break).
Proof.
  intros Hh Hp. unfold run_cycle. rewrite Hh. simpl.
  apply Qleb_iff in Hp. rewrite Hp. reflexivity.
Qed.

(** C3 (amended).  When the daily PnL is at or below -MAX_DAILY_LOSS at
    the top of a pass inside trading hours, the loop ends there: the breach
    closes no position, and nothing is tick-managed any more -- the state,
    open positions included, is left exactly as it was, whatever the number
    of further passes allowed.  [VWAPStrategy.run] ends the same way. *)
Theorem breach_ends_loop (w : World) (cfg : Config) (instruments : list Instrument)
        (st : State) (fuel : nat) :
  in_trading_hours w st = true -> pnl st <= - MAX_DAILY_LOSS cfg ->
  run_cycle w cfg instruments st = (st, Break) /\
  run w cfg instruments fuel st = st /\
  (forall vw vcfg vst n,
      VWAPStrategy.check_trading_hours vw vst = true ->
      VWAPStrategy.daily_pnl vst <= - VWAPStrategy.MAX_DAILY_LOSS vcfg ->
      VWAPStrategy.run vw vcfg n vst = vst).
Proof.
  intros Hh Hp.
  pose proof (breach_breaks w cfg instruments st Hh Hp) as Hb.
  split; [exact Hb|]. split.
  - destruct fuel as [|fuel]; [reflexivity|]. apply run_break, Hb.
  - intros vw vcfg vst n Hvh Hvp.
    destruct n as [|n]; [reflexivity|]. simpl.
    unfold VWAPStrategy.run_cycle. rewrite Hvh. simpl.
    apply Qleb_iff in Hvp. rewrite Hvp. reflexivity.
Qed.

Lemma breach_ends_loop_witness :
  run loss_world source_config both_options 5 after_loss = after_loss.
Proof.
  apply (breach_ends_loop loss_world source_config both_options after_loss 5).
  - vm_compute. reflexivity.
  - apply Qleb_iff. vm_compute. reflexivity.
Defined.

Lemma run_two_then_break (w : World) (cfg : Config) (instruments : list Instrument)
      (st0 st1 st2 : State) (fuel : nat) :
  run_cycle w cfg instruments st0 = (st1, Continue) ->
  run_cycle w cfg instruments st1 = (st2, Continue) ->
  run_cycle w cfg instruments st2 = (st2, Break) ->
  run w cfg instruments (2 + fuel) st0 = st2.
Proof.
  intros H0 H1 H2. simpl. rewrite H0, H1.
  destruct fuel as [|fuel]; [reflexivity|].
  simpl. rewrite H2. reflexivity.
Qed.

(** C3 (as stated) fails.  In [loss_world] the second pass ends with the
    daily PnL at -7556.25, under the limit of 5000, and with the put
    position still open.  From then on the put is quoted at 3000, above its
    take-profit: [manage_positions] would tick it and close it with reason
    TP.  It never runs: however many passes are allowed, the final state is
    the state after the second pass, the put still open and unticked. *)
Lemma breached_loop_leaves_positions_unmanaged :
  pnl after_loss <= - MAX_DAILY_LOSS source_config /\
  in_trading_hours loss_world after_loss = true /\
  map fst (positions after_loss) = ["NIFTY24P21500_2"; "NIFTY24C21500_11"]%string /\
  map t_reason (closed_trades (manage_positions loss_world source_config after_loss))
    = ["MANUAL"; "TP"]%string /\
  forall fuel, run loss_world source_config both_options (2 + fuel) init_state = after_loss.
Proof.
  split; [apply Qleb_iff; vm_compute; reflexivity|].
  split; [vm_compute; reflexivity|].
  split; [vm_compute; reflexivity|].
  split; [vm_compute; reflexivity|].
  intro fuel.
  apply (run_two_then_break loss_world source_config both_options
           init_state after_entries after_loss fuel);
    vm_compute; reflexivity.
Qed.

(** C8: the code against the claim.  In [loss_world] the second pass starts
    with the daily PnL at 0; the user's manual exit of trade 1 realizes
    -7556.25, under the limit of 5000; later in that same pass the entry
    scan finds BUY_CALL on the call, now flat, and places a buy order while
    the daily PnL stands at that loss.  Only the next pass stops the loop. *)
Theorem entry_order_placed_after_breach :
  Qleb (pnl after_entries) (- MAX_DAILY_LOSS source_config) = false /\
  history after_loss =
    history after_entries ++
    [EvOrder Sell "NIFTY24C21500" 75 (Some "9"%string) 0;
     EvOrder Buy "NIFTY24C21500" 75 (Some "11"%string) (pnl after_loss);
     EvActed "NIFTY24C21500" BUY_CALL] /\
  pnl after_loss <= - MAX_DAILY_LOSS source_config /\
  pnl after_loss == - (755625 # 100) /\
  has_position after_loss "NIFTY24C21500" = true /\
  run_cycle loss_world source_config both_options after_loss = (after_loss, Break).
Proof.
  split; [vm_compute; reflexivity|].
  split; [vm_compute; reflexivity|].
  split; [apply Qleb_iff; vm_compute; reflexivity|].
  split; [vm_compute; reflexivity|].
  split; vm_compute; reflexivity.
Qed.

(** The same defect in [VWAPStrategy.run]: in [reversal_world] the second
    pass sees BUY_PUT after BUY_CALL, closes the open position at a loss of
    7500 and, in the same pass, buys again with the daily PnL at -7500. *)
Lemma variant_entry_order_placed_after_breach :
  VWAPStrategy.history (VWAPStrategy.run reversal_world variant_config 2
                                         VWAPStrategy.init_state) =
    VWAPStrategy.history (VWAPStrategy.run reversal_world variant_config 1
                                           VWAPStrategy.init_state) ++
    [VWAPStrategy.EvOrder Sell "NIFTY24C21500" 75 true 0;
     VWAPStrategy.EvOrder Buy "NIFTY24C21500" 75 true
       (VWAPStrategy.daily_pnl (VWAPStrategy.run reversal_world variant_config 2
                                                 VWAPStrategy.init_state))] /\
  VWAPStrategy.daily_pnl (VWAPStrategy.run reversal_world variant_config 2
                                           VWAPStrategy.init_state)
    <= - VWAPStrategy.MAX_DAILY_LOSS variant_config /\
  VWAPStrategy.daily_pnl (VWAPStrategy.run reversal_world variant_config 2
                                           VWAPStrategy.init_state) == - 7500.
Proof.
  split; [vm_compute; reflexivity|].
  split; [apply Qleb_iff; vm_compute; reflexivity|vm_compute; reflexivity].
Qed.

(** * Further properties of the code *)

(** ** Every operation of the loop is a sequence of elementary steps *)

Section Reachability.
Variable w : World.
Variable cfg : Config.

Lemma reaches_trans (st1 st2 st3 : State) :
  reaches cfg st1 st2 -> reaches cfg st2 st3 -> reaches cfg st1 st3.
Proof.
  intros H12 H23. induction H23 as [|st2 st3 st4 _ IH Hstep]; [exact H12|].
  eapply reaches_next; [apply IH, H12|exact Hstep].
Qed.

Lemma reaches_admin (st st' : State) :
  positions st' = positions st -> pnl st' = pnl st ->
  closed_trades st' = closed_trades st -> trade_counter st' = trade_counter st ->
  reaches cfg st st'.
Proof.
  intros. eapply reaches_next; [apply reaches_here|apply at_admin; assumption].
Qed.

Lemma reaches_invariant (P : State -> Prop) :
  (forall st st', atomic cfg st st' -> P st -> P st') ->
  forall st st', reaches cfg st st' -> P st -> P st'.
Proof.
  intros Hstep st st' Hreach Hst.
  induction Hreach as [|st1 st2 st3 _ IH Hat]; [exact Hst|].
  eapply Hstep; [exact Hat|apply IH, Hst].
Qed.

Lemma close_position_reaches (st : State) (pos_id reason : string) (price : option Q)
      (status : option string) :
  reaches cfg st (close_position w cfg st pos_id reason price status).
Proof.
  unfold close_position.
  destruct (dict_get pos_id (positions st)) as [pos|] eqn:Hget; [|apply reaches_here].
  destruct price as [p|]; simpl.
  - eapply reaches_next; [apply reaches_here|].
    eapply (at_close cfg _ _ pos_id pos p reason status); try reflexivity. exact Hget.
  - eapply reaches_next; [apply reaches_here|].
    eapply (at_close cfg _ _ pos_id pos _ reason status); try reflexivity. exact Hget.
Qed.

Lemma manage_one_reaches (st : State) (pos_id : string) :
  reaches cfg st (manage_one w cfg st pos_id).
Proof.
  unfold manage_one.
  destruct (dict_get pos_id (positions st)) as [pos|] eqn:Hget; [|apply reaches_here].
  simpl.
  destruct (w_quote w (clock st) (symbol pos)) as [q|];
    [|apply reaches_admin; reflexivity].
  destruct (stat_ok q); simpl; [|apply reaches_admin; reflexivity].
  set (pos' := tick_update cfg pos (quote_high q) (quote_low q)).
  set (st2 := set_positions (dict_set pos_id pos' (positions st)) (advance st)).
  assert (Htick : reaches cfg st st2).
  { eapply reaches_next; [apply reaches_here|].
    eapply (at_tick cfg st st2 pos_id pos (quote_high q) (quote_low q));
      try reflexivity. exact Hget. }
  destruct (exit_decision cfg (in_trading_hours w st2) pos' (quote_curr q)
                          (quote_high q) (quote_low q)) as [[[price reason] status]|].
  - eapply reaches_trans; [exact Htick|apply close_position_reaches].
  - exact Htick.
Qed.

Lemma manage_fold_reaches (keys : list string) (st : State) :
  reaches cfg st (fold_left (manage_one w cfg) keys st).
Proof.
  revert st. induction keys as [|k keys IH]; intro st; simpl; [apply reaches_here|].
  eapply reaches_trans; [apply manage_one_reaches|apply IH].
Qed.

Lemma manage_positions_reaches (st : State) :
  reaches cfg st (manage_positions w cfg st).
Proof. apply manage_fold_reaches. Qed.

Lemma manual_exit_reaches (st : State) :
  reaches cfg st (manual_exit w cfg st).
Proof.
  unfold manual_exit.
  destruct (positions st) as [|kp ps] eqn:Hps; [apply reaches_here|].
  rewrite <- Hps.
  match goal with |- context [String.eqb ?c "0"] => destruct (String.eqb c "0") end;
    [apply reaches_admin; reflexivity|].
  match goal with |- context [find_trade ?c ?l] => destruct (find_trade c l) end;
    [|apply reaches_admin; reflexivity].
  eapply reaches_trans; [|apply close_position_reaches].
  apply reaches_admin; reflexivity.
Qed.

Lemma enter_trade_reaches (st : State) (signal : Signal) (sym : string) (price : Q)
      (lot : Z) :
  reaches cfg st (snd (enter_trade w cfg st signal sym price lot)).
Proof.
  unfold enter_trade. simpl.
  destruct (w_order w _ sym lot Buy) as [id|]; [|apply reaches_admin; reflexivity].
  destruct (String.eqb id EmptyString); [apply reaches_admin; reflexivity|].
  simpl. eapply reaches_next; [apply reaches_here|].
  eapply (at_enter cfg st _ _ signal sym price lot id); reflexivity.
Qed.

Lemma scan_instrument_reaches (st : State) (inst : Instrument) :
  reaches cfg st (scan_instrument w cfg st inst).
Proof.
  unfold scan_instrument.
  destruct (w_cache w (clock st) (i_symbol inst)) as [df|]; [|apply reaches_here].
  destruct (EMA_PERIOD cfg <=? length df)%nat; [|apply reaches_here].
  destruct (detect_signal df) as [[signal sig_price]|]; [|apply reaches_here].
  destruct (negb (has_position st (i_symbol inst))
            && differs_from_last signal (last_signal st)); [|apply reaches_here].
  pose proof (enter_trade_reaches st signal (i_symbol inst) sig_price (lot_size inst))
    as Hent.
  destruct (enter_trade w cfg st signal (i_symbol inst) sig_price (lot_size inst))
    as [[pid|] st']; simpl in Hent; [|exact Hent].
  eapply reaches_trans; [exact Hent|apply reaches_admin; reflexivity].
Qed.

Lemma scan_all_reaches (instruments : list Instrument) (st : State) :
  reaches cfg st (fold_left (scan_instrument w cfg) instruments st).
Proof.
  revert st. induction instruments as [|inst instruments IH]; intro st; simpl;
    [apply reaches_here|].
  eapply reaches_trans; [apply scan_instrument_reaches|apply IH].
Qed.

Lemma run_cycle_reaches (instruments : list Instrument) (st : State) :
  reaches cfg st (fst (run_cycle w cfg instruments st)).
Proof.
  unfold run_cycle.
  destruct (in_trading_hours w st); simpl; [|apply reaches_admin; reflexivity].
  destruct (Qleb (pnl st) (- MAX_DAILY_LOSS cfg)); simpl; [apply reaches_here|].
  assert (Hrest : forall st0, reaches cfg st0
            (advance (fold_left (scan_instrument w cfg) instruments
                                (manage_positions w cfg st0)))).
  { intro st0. eapply reaches_trans; [apply manage_positions_reaches|].
    eapply reaches_trans; [apply scan_all_reaches|apply reaches_admin; reflexivity]. }
  destruct (w_key w (clock st)) as [[| |]|]; simpl.
  - apply reaches_admin; reflexivity.
  - eapply reaches_trans; [apply reaches_admin with (st' := advance st); reflexivity|].
    eapply reaches_trans; [apply manual_exit_reaches|apply Hrest].
  - eapply reaches_trans; [apply reaches_admin with (st' := advance st); reflexivity|].
    apply Hrest.
  - eapply reaches_trans; [apply reaches_admin with (st' := advance st); reflexivity|].
    apply Hrest.
Qed.

Lemma run_reaches (instruments : list Instrument) (fuel : nat) (st : State) :
  reaches cfg st (run w cfg instruments fuel st).
Proof.
  revert st. induction fuel as [|fuel IH]; intro st; simpl; [apply reaches_here|].
  pose proof (run_cycle_reaches instruments st) as Hc.
  destruct (run_cycle w cfg instruments st) as [st' [|]]; simpl in Hc.
  - eapply reaches_trans; [exact Hc|apply IH].
  - exact Hc.
Qed.
End Reachability.

(** ** The ledger and the daily PnL *)

Lemma keep_last_20_length (l : list TradeRecord) : (length (keep_last_20 l) <= 20)%nat.
Proof.
  unfold keep_last_20. destruct (20 <? length l)%nat eqn:E.
  - rewrite length_skipn. lia.
  - apply Nat.ltb_ge in E. exact E.
Qed.

Lemma keep_last_20_short (l : list TradeRecord) :
  (length (keep_last_20 l) < 20)%nat -> keep_last_20 l = l.
Proof.
  unfold keep_last_20. destruct (20 <? length l)%nat eqn:E; [|reflexivity].
  apply Nat.ltb_lt in E. rewrite length_skipn. lia.
Qed.

Lemma keep_last_20_Forall (P : TradeRecord -> Prop) (l : list TradeRecord) :
  Forall P l -> Forall P (keep_last_20 l).
Proof.
  intro Hl. unfold keep_last_20. destruct (20 <? length l)%nat; [|exact Hl].
  rewrite <- (firstn_skipn (length l - 20) l) in Hl.
  apply Forall_app in Hl. tauto.
Qed.

Lemma running_pnl_snoc (l : list TradeRecord) (r : TradeRecord) :
  running_pnl (l ++ [r]) = running_pnl l + t_pnl r.
Proof. unfold running_pnl. rewrite fold_left_app. reflexivity. Qed.

Section LedgerFacts.
Variable w : World.
Variable cfg : Config.

Lemma atomic_ledger_bound (st st' : State) :
  atomic cfg st st' ->
  (length (closed_trades st) <= 20)%nat -> (length (closed_trades st') <= 20)%nat.
Proof.
  intros Hat Hinv.
  destruct Hat as [st st' _ _ Hc _|st st' k pos hi lo _ _ _ Hc _
                   |st st' k pos px reason status _ _ _ Hc _
                   |st st' k signal sym price lot oid _ _ Hc _]; rewrite Hc;
    try exact Hinv.
  apply keep_last_20_length.
Qed.

Lemma atomic_accounting (st st' : State) :
  atomic cfg st st' ->
  ((length (closed_trades st) < 20)%nat -> pnl st == running_pnl (closed_trades st)) ->
  (length (closed_trades st') < 20)%nat -> pnl st' == running_pnl (closed_trades st').
Proof.
  intros Hat Hinv.
  destruct Hat as [st st' _ Hp' Hc' _|st st' k pos hi lo _ _ Hp' Hc' _
                   |st st' k pos px reason status _ _ Hp' Hc' _
                   |st st' k signal sym price lot oid _ Hp' Hc' _];
    rewrite Hc', Hp'; try exact Hinv.
  intro Hlen. pose proof (keep_last_20_short _ Hlen) as Hkeep.
  rewrite Hkeep in Hlen |- *.
  rewrite running_pnl_snoc. rewrite length_app in Hlen. simpl in Hlen.
  rewrite Hinv by lia. reflexivity.
Qed.

Lemma atomic_records (st st' : State) :
  atomic cfg st st' ->
  Forall (record_as_computed cfg) (closed_trades st) ->
  Forall (record_as_computed cfg) (closed_trades st').
Proof.
  intros Hat Hinv.
  destruct Hat as [st st' _ _ Hc' _|st st' k pos hi lo _ _ _ Hc' _
                   |st st' k pos px reason status _ _ _ Hc' _
                   |st st' k signal sym price lot oid _ _ Hc' _];
    rewrite Hc'; try exact Hinv.
  apply keep_last_20_Forall, Forall_app. split; [exact Hinv|].
  constructor; [|constructor]. split; reflexivity.
Qed.

(** The ledger never holds more than 20 records, whatever the world does
    and however long the loop runs. *)
Theorem ledger_never_exceeds_20 (instruments : list Instrument) (fuel : nat) :
  (length (closed_trades (run w cfg instruments fuel init_state)) <= 20)%nat.
Proof.
  apply (reaches_invariant cfg (fun st => (length (closed_trades st) <= 20)%nat)
           atomic_ledger_bound init_state); [apply run_reaches|].
  simpl. lia.
Qed.

(** Every record of the ledger carries the pnl and the mtm that
    [close_position] computes from the record's own entry, exit and
    quantity; and as long as the ledger holds fewer than 20 records (so no
    record has been dropped yet), the daily PnL is the pnl fields of the
    ledger added up from 0 in ledger order. *)
Theorem daily_pnl_is_sum_of_closings (instruments : list Instrument) (fuel : nat) :
  let st := run w cfg instruments fuel init_state in
  Forall (record_as_computed cfg) (closed_trades st) /\
  ((length (closed_trades st) < 20)%nat -> pnl st == running_pnl (closed_trades st)).
Proof.
  intro st. split.
  - apply (reaches_invariant cfg
             (fun s => Forall (record_as_computed cfg) (closed_trades s))
             atomic_records init_state); [apply run_reaches|constructor].
  - apply (reaches_invariant cfg
             (fun s => (length (closed_trades s) < 20)%nat ->
                       pnl s == running_pnl (closed_trades s))
             atomic_accounting init_state); [apply run_reaches|].
    intros _. reflexivity.
Qed.
End LedgerFacts.

Lemma daily_pnl_is_sum_of_closings_witness :
  closed_trades after_loss <> [] /\
  pnl after_loss == running_pnl (closed_trades after_loss).
Proof.
  split; [vm_compute; discriminate|].
  refine (proj2 (daily_pnl_is_sum_of_closings loss_world source_config both_options 2) _).
  vm_compute. lia.
Defined.

(** ** Facts about every open position of every reachable state *)

Lemma dict_get_In {V} (k : string) (v : V) (d : list (string * V)) :
  dict_get k d = Some v -> exists k', In (k', v) d.
Proof.
  induction d as [|[k0 v0] d IH]; simpl; [discriminate|].
  destruct (String.eqb k0 k).
  - intro H. injection H as ->. exists k0. left. reflexivity.
  - intro H. destruct (IH H) as [k' Hin]. exists k'. right. exact Hin.
Qed.

Lemma Forall_dict_set {V} (P : string * V -> Prop) (k : string) (v : V)
      (d : list (string * V)) :
  Forall P d -> P (k, v) -> Forall P (dict_set k v d).
Proof.
  intros Hd Hv. induction d as [|[k0 v0] d IH]; simpl.
  - constructor; [exact Hv|constructor].
  - destruct (String.eqb k0 k).
    + constructor; [exact Hv|eapply Forall_inv_tail; exact Hd].
    + constructor; [eapply Forall_inv; exact Hd|].
      apply IH. eapply Forall_inv_tail; exact Hd.
Qed.

Lemma Forall_dict_del {V} (P : string * V -> Prop) (k : string) (d : list (string * V)) :
  Forall P d -> Forall P (dict_del k d).
Proof.
  intro Hd. unfold dict_del. apply Forall_forall. intros x Hx.
  apply filter_In in Hx. destruct Hx as [Hx _].
  rewrite Forall_forall in Hd. apply Hd, Hx.
Qed.

Section PositionFacts.
Variable w : World.
Variable cfg : Config.

(** A property of positions that a new position has and a tick keeps holds
    of every open position of every reachable state. *)
Lemma every_open_invariant (P : Position -> Prop) :
  (forall tc signal sym price lot oid, P (new_position cfg tc signal sym price lot oid)) ->
  (forall p hi lo, P p -> P (tick_update cfg p hi lo)) ->
  forall st st', reaches cfg st st' -> every_open P st -> every_open P st'.
Proof.
  intros Hnew Htick. apply reaches_invariant.
  intros st st' Hat Hinv. unfold every_open in *.
  destruct Hat as [st st' Hps _ _ _|st st' k pos hi lo Hget Hps _ _ _
                   |st st' k pos px reason status _ Hps _ _ _
                   |st st' k signal sym price lot oid Hps _ _ _]; rewrite Hps.
  - exact Hinv.
  - apply Forall_dict_set; [exact Hinv|]. simpl. apply Htick.
    destruct (dict_get_In _ _ _ Hget) as [k' Hin].
    rewrite Forall_forall in Hinv. apply (Hinv (k', pos) Hin).
  - apply Forall_dict_del, Hinv.
  - apply Forall_dict_set; [exact Hinv|]. simpl. apply Hnew.
Qed.

Lemma tick_keeps_marks (p : Position) (hi lo : Q) :
  marks_in_order p -> marks_in_order (tick_update cfg p hi lo).
Proof.
  intros (Hl & Hh & Hmin & Hmax & Hsl).
  destruct (tick_update_monotone cfg p hi lo) as (T1 & T2 & T3 & T4 & T5).
  unfold marks_in_order.
  change (entry (tick_update cfg p hi lo)) with (entry p).
  change (sl (tick_update cfg p hi lo)) with (sl p).
  repeat split; eapply Qle_trans; eassumption.
Qed.

Lemma tick_keeps_mtm (p : Position) (hi lo : Q) :
  marks_in_order p -> mtm_follows_marks p -> mtm_follows_marks (tick_update cfg p hi lo).
Proof.
  intros _ Hm Hq. change (qty (tick_update cfg p hi lo)) with (qty p) in Hq.
  destruct (Hm Hq) as [Hmax Hmin].
  assert (Hqty : 0 <= inject_Z (qty p)) by (unfold Qle; simpl; lia).
  change (max_mtm (tick_update cfg p hi lo))
    with (pymax (max_mtm p) ((pymax (high p) hi - entry p) * inject_Z (qty p))).
  change (min_mtm (tick_update cfg p hi lo))
    with (pymin (min_mtm p) ((pymin (low p) lo - entry p) * inject_Z (qty p))).
  change (high (tick_update cfg p hi lo)) with (pymax (high p) hi).
  change (low (tick_update cfg p hi lo)) with (pymin (low p) lo).
  change (entry (tick_update cfg p hi lo)) with (entry p).
  change (qty (tick_update cfg p hi lo)) with (qty p).
  pose proof (pymax_ge_l (high p) hi) as Hh.
  pose proof (pymin_le_l (low p) lo) as Hl.
  set (h' := pymax (high p) hi) in *. set (l' := pymin (low p) lo) in *.
  assert (Hup : max_mtm p <= (h' - entry p) * inject_Z (qty p)).
  { rewrite Hmax. apply Qmult_le_compat_r; [lra|exact Hqty]. }
  assert (Hdown : (l' - entry p) * inject_Z (qty p) <= min_mtm p).
  { rewrite Hmin. apply Qmult_le_compat_r; [lra|exact Hqty]. }
  split.
  - unfold pymax. destruct (Qltb (max_mtm p) ((h' - entry p) * inject_Z (qty p))) eqn:E.
    + reflexivity.
    + apply Qltb_false in E. apply Qle_antisym; assumption.
  - unfold pymin. destruct (Qltb ((l' - entry p) * inject_Z (qty p)) (min_mtm p)) eqn:E.
    + reflexivity.
    + apply Qltb_false in E. apply Qle_antisym; assumption.
Qed.

Lemma new_position_good (tc : nat) (signal : Signal) (sym : string) (price : Q)
      (lot : Z) (oid : string) :
  let p := new_position cfg tc signal sym price lot oid in
  levels_as_entered cfg p /\ marks_in_order p /\ mtm_follows_marks p.
Proof.
  simpl. split; [split; reflexivity|]. split.
  - unfold marks_in_order. simpl. repeat split; apply Qle_refl.
  - intros _. simpl. split; ring.
Qed.

(** In every state the loop reaches, each open position has
    low <= entry <= high, min_mtm <= 0 <= max_mtm and a current stop that
    is not below its initial stop. *)
Theorem open_positions_marks_in_order (instruments : list Instrument) (fuel : nat) :
  every_open marks_in_order (run w cfg instruments fuel init_state).
Proof.
  apply (every_open_invariant marks_in_order) with (st := init_state).
  - intros. apply new_position_good.
  - intros p hi lo H. apply tick_keeps_marks, H.
  - apply run_reaches.
  - constructor.
Qed.

(** The running extremes are redundant: in every state the loop reaches, a
    position with a non-negative quantity has max_mtm = (high - entry) x qty
    and min_mtm = (low - entry) x qty. *)
Theorem mtm_extremes_follow_water_marks (instruments : list Instrument) (fuel : nat) :
  every_open mtm_follows_marks (run w cfg instruments fuel init_state).
Proof.
  assert (H : every_open (fun p => marks_in_order p /\ mtm_follows_marks p)
                         (run w cfg instruments fuel init_state)).
  { apply (every_open_invariant (fun p => marks_in_order p /\ mtm_follows_marks p))
      with (st := init_state).
    - intros. apply new_position_good.
    - intros p hi lo [Hm Hf]. split; [apply tick_keeps_marks, Hm|apply tick_keeps_mtm; assumption].
    - apply run_reaches.
    - constructor. }
  unfold every_open in *. eapply Forall_impl; [|exact H].
  intros kp [_ Hf]. exact Hf.
Qed.
End PositionFacts.

(** ** Trade numbers *)

Lemma numbers_dict_set_same (k : string) (p p' : Position) (ps : list (string * Position)) :
  dict_get k ps = Some p -> trade_no p' = trade_no p ->
  map (fun kp => trade_no (snd kp)) (dict_set k p' ps) =
  map (fun kp => trade_no (snd kp)) ps.
Proof.
  intros Hget Hno. induction ps as [|[k0 v0] ps IH]; simpl in *; [discriminate|].
  destruct (String.eqb k0 k); simpl.
  - injection Hget as ->. rewrite Hno. reflexivity.
  - rewrite (IH Hget). reflexivity.
Qed.

Lemma numbers_dict_set_in (k : string) (p : Position) (ps : list (string * Position))
      (n : nat) :
  In n (map (fun kp => trade_no (snd kp)) (dict_set k p ps)) ->
  n = trade_no p \/ In n (map (fun kp => trade_no (snd kp)) ps).
Proof.
  induction ps as [|[k0 v0] ps IH]; simpl.
  - intros [H|[]]. left. symmetry. exact H.
  - destruct (String.eqb k0 k); simpl.
    + intros [H|H]; [left; symmetry; exact H|right; right; exact H].
    + intros [H|H]; [right; left; exact H|].
      destruct (IH H) as [H'|H']; [left; exact H'|right; right; exact H'].
Qed.

Lemma numbers_dict_set_fresh (k : string) (p : Position) (ps : list (string * Position)) :
  NoDup (map (fun kp => trade_no (snd kp)) ps) ->
  ~ In (trade_no p) (map (fun kp => trade_no (snd kp)) ps) ->
  NoDup (map (fun kp => trade_no (snd kp)) (dict_set k p ps)).
Proof.
  induction ps as [|[k0 v0] ps IH]; simpl; intros Hnd Hfresh.
  - constructor; [intros []|constructor].
  - apply NoDup_cons_iff in Hnd. destruct Hnd as [Hv0 Hnd].
    destruct (String.eqb k0 k); simpl.
    + constructor; [tauto|exact Hnd].
    + constructor.
      * intro Hin. apply numbers_dict_set_in in Hin. destruct Hin as [Heq|Hin]; [|tauto].
        apply Hfresh. left. exact Heq.
      * apply IH; [exact Hnd|tauto].
Qed.

Lemma numbers_dict_del (k : string) (ps : list (string * Position)) :
  NoDup (map (fun kp => trade_no (snd kp)) ps) ->
  NoDup (map (fun kp => trade_no (snd kp)) (dict_del k ps)).
Proof.
  unfold dict_del. induction ps as [|[k0 v0] ps IH]; simpl; intro Hnd; [constructor|].
  apply NoDup_cons_iff in Hnd. destruct Hnd as [Hv0 Hnd].
  destruct (negb (String.eqb k0 k)); simpl; [|apply IH, Hnd].
  constructor; [|apply IH, Hnd].
  intro Hin. apply Hv0. apply in_map_iff in Hin. destruct Hin as [x [Hx Hin]].
  apply filter_In in Hin. apply in_map_iff. exists x. tauto.
Qed.

Section TradeNumbers.
Variable w : World.
Variable cfg : Config.

Lemma atomic_numbers (st st' : State) :
  atomic cfg st st' -> numbers_ok st -> numbers_ok st'.
Proof.
  unfold numbers_ok, open_trade_numbers. intros Hat [Hlt Hnd].
  destruct Hat as [st st' Hps _ _ Htc|st st' k pos hi lo Hget Hps _ _ Htc
                   |st st' k pos px reason status _ Hps _ _ Htc
                   |st st' k signal sym price lot oid Hps _ _ Htc]; rewrite Hps, Htc.
  - split; assumption.
  - rewrite (numbers_dict_set_same k pos) by (assumption || reflexivity).
    split; assumption.
  - split; [|apply numbers_dict_del, Hnd].
    apply Forall_forall. intros n Hin. rewrite Forall_forall in Hlt. apply Hlt.
    apply in_map_iff in Hin. destruct Hin as [x [Hx Hin]].
    apply filter_In in Hin. apply in_map_iff. exists x. tauto.
  - split.
    + apply Forall_forall. intros n Hin. apply numbers_dict_set_in in Hin.
      destruct Hin as [->|Hin]; [simpl; lia|].
      rewrite Forall_forall in Hlt. specialize (Hlt n Hin). lia.
    + apply numbers_dict_set_fresh; [exact Hnd|]. simpl. intro Hin.
      rewrite Forall_forall in Hlt. specialize (Hlt _ Hin). lia.
Qed.

(** Open positions never share a trade number, and every trade number in
    use is below the counter that numbers the next entry; so the number
    typed at a manual exit designates at most one open position. *)
Theorem trade_numbers_are_unique (instruments : list Instrument) (fuel : nat) :
  let st := run w cfg instruments fuel init_state in
  NoDup (open_trade_numbers st) /\
  Forall (fun n => (1 <= n < trade_counter st)%nat) (open_trade_numbers st).
Proof.
  intro st.
  assert (Hok : numbers_ok st).
  { apply (reaches_invariant cfg numbers_ok atomic_numbers init_state);
      [apply run_reaches|]. split; constructor. }
  assert (Hpos : every_open (fun p => (1 <= trade_no p)%nat) st /\
                 (1 <= trade_counter st)%nat).
  { apply (reaches_invariant cfg
             (fun s => every_open (fun p => (1 <= trade_no p)%nat) s /\
                       (1 <= trade_counter s)%nat)) with (st := init_state);
      [|apply run_reaches|split; [constructor|simpl; lia]].
    intros s s' Hat [Hall Htc]. unfold every_open in *.
    destruct Hat as [s s' Hps _ _ Htc'|s s' k pos hi lo Hget Hps _ _ Htc'
                     |s s' k pos px reason status _ Hps _ _ Htc'
                     |s s' k signal sym price lot oid Hps _ _ Htc']; rewrite Hps, Htc'.
    - split; assumption.
    - split; [|exact Htc]. apply Forall_dict_set; [exact Hall|]. simpl.
      destruct (dict_get_In _ _ _ Hget) as [k' Hin].
      rewrite Forall_forall in Hall. apply (Hall (k', pos) Hin).
    - split; [apply Forall_dict_del, Hall|exact Htc].
    - split; [|lia]. apply Forall_dict_set; [exact Hall|]. simpl. exact Htc. }
  destruct Hok as [Hlt Hnd]. destruct Hpos as [Hge _].
  split; [exact Hnd|].
  unfold open_trade_numbers, every_open in *.
  rewrite Forall_map in *. rewrite Forall_forall in *.
  intros x Hx. split; [apply Hge, Hx|apply Hlt, Hx].
Qed.
End TradeNumbers.

(** ** One position through the loop *)

Section SamePosition.
Variable w : World.
Variable cfg : Config.

Lemma apply_ticks_fixed (quotes : list Quote) (p : Position) :
  entry (apply_ticks cfg p quotes) = entry p /\
  qty (apply_ticks cfg p quotes) = qty p /\
  symbol (apply_ticks cfg p quotes) = symbol p /\
  trade_no (apply_ticks cfg p quotes) = trade_no p /\
  tp (apply_ticks cfg p quotes) = tp p /\
  sl (apply_ticks cfg p quotes) = sl p.
Proof.
  revert p. induction quotes as [|q quotes IH]; intro p; [repeat split|].
  change (apply_ticks cfg p (q :: quotes))
    with (apply_ticks cfg (tick_update cfg p (quote_high q) (quote_low q)) quotes).
  destruct (IH (tick_update cfg p (quote_high q) (quote_low q)))
    as (-> & -> & -> & -> & -> & ->).
  repeat split.
Qed.

(** A position whose number is older than the counter of an earlier state
    was already open in that state under the same key, and has only been
    ticked since. *)
Lemma reaches_same_position (st st' : State) :
  reaches cfg st st' ->
  (trade_counter st <= trade_counter st')%nat /\
  forall k p', dict_get k (positions st') = Some p' ->
               (trade_no p' < trade_counter st)%nat ->
               exists p quotes, dict_get k (positions st) = Some p /\
                                p' = apply_ticks cfg p quotes.
Proof.
  induction 1 as [st|st s2 s3 Hr IH Hat].
  - split; [lia|]. intros k p' Hget _. exists p', []. split; [exact Hget|reflexivity].
  - destruct IH as [Htc IH].
    destruct Hat as [s2 s3 Hps _ _ Htc'|s2 s3 k0 pos hi lo Hget0 Hps _ _ Htc'
                     |s2 s3 k0 pos px reason status Hget0 Hps _ _ Htc'
                     |s2 s3 k0 signal sym price lot oid Hps _ _ Htc'];
      rewrite Hps, Htc'; (split; [lia|]); intros k p' Hget Hlt.
    + apply IH; assumption.
    + destruct (string_dec k0 k) as [->|Hne].
      * rewrite dict_get_set_same in Hget. injection Hget as <-.
        destruct (IH k pos Hget0 Hlt) as (p & quotes & Hp & ->).
        exists p, (quotes ++ [mkQuote true (Some hi) (Some hi) (Some lo)]).
        split; [exact Hp|]. rewrite apply_ticks_app. reflexivity.
      * rewrite dict_get_set_other in Hget by exact Hne. apply IH; assumption.
    + destruct (string_dec k0 k) as [->|Hne].
      * rewrite dict_get_del_same in Hget. discriminate.
      * rewrite dict_get_del_other in Hget by exact Hne. apply IH; assumption.
    + destruct (string_dec k0 k) as [->|Hne].
      * rewrite dict_get_set_same in Hget. injection Hget as <-.
        simpl in Hlt. lia.
      * rewrite dict_get_set_other in Hget by exact Hne. apply IH; assumption.
Qed.

(** Between two moments of a run, a key that still holds the position with
    the same trade number holds the earlier position advanced by ticks. *)
Lemma run_same_position (instruments : list Instrument) (fuel1 fuel2 : nat)
      (k : string) (p p' : Position) :
  let st := run w cfg instruments fuel1 init_state in
  dict_get k (positions st) = Some p ->
  dict_get k (positions (run w cfg instruments fuel2 st)) = Some p' ->
  trade_no p' = trade_no p ->
  exists quotes, p' = apply_ticks cfg p quotes.
Proof.
  intros st Hp Hp' Hno.
  assert (Hok : numbers_ok st).
  { apply (reaches_invariant cfg numbers_ok (atomic_numbers cfg) init_state);
      [apply run_reaches|]. split; constructor. }
  destruct Hok as [Hlt _].
  assert (Hold : (trade_no p < trade_counter st)%nat).
  { destruct (dict_get_In _ _ _ Hp) as [k' Hin].
    unfold open_trade_numbers in Hlt. rewrite Forall_map, Forall_forall in Hlt.
    apply (Hlt (k', p) Hin). }
  destruct (reaches_same_position st (run w cfg instruments fuel2 st)
              (run_reaches w cfg instruments fuel2 st)) as [_ Hsame].
  destruct (Hsame k p' Hp') as (p0 & quotes & Hp0 & Heq); [rewrite Hno; exact Hold|].
  rewrite Hp in Hp0. injection Hp0 as <-. exists quotes. exact Heq.
Qed.

Lemma manage_fold_get_other (keys : list string) (st : State) (k : string) :
  ~ In k keys ->
  dict_get k (positions (fold_left (manage_one w cfg) keys st)) =
  dict_get k (positions st).
Proof.
  revert st. induction keys as [|a keys IH]; intros st Hk; [reflexivity|].
  simpl. rewrite IH by (intro H; apply Hk; right; exact H).
  apply manage_one_get_other. intro Heq. apply Hk. left. exact Heq.
Qed.

(** What [manage_positions] stores for the position at a given place of the
    key list, when its quote is Ok and it is still open afterwards: the
    tick of that position with that quote. *)
Lemma manage_positions_at_key (st : State) (before after : list string)
      (pos_id : string) (pos p' : Position) (q : Quote) :
  NoDup (map fst (positions st)) ->
  map fst (positions st) = before ++ pos_id :: after ->
  dict_get pos_id (positions st) = Some pos ->
  w_quote w (clock (fold_left (manage_one w cfg) before st)) (symbol pos) = Some q ->
  stat_ok q = true ->
  dict_get pos_id (positions (manage_positions w cfg st)) = Some p' ->
  p' = tick_update cfg pos (quote_high q) (quote_low q).
Proof.
  intros Hnd Hkeys Hget Hq Hok Hget'.
  rewrite Hkeys in Hnd. apply NoDup_remove_2 in Hnd.
  assert (Hb : ~ In pos_id before) by (intro H; apply Hnd, in_or_app; left; exact H).
  assert (Ha : ~ In pos_id after) by (intro H; apply Hnd, in_or_app; right; exact H).
  unfold manage_positions in Hget'. rewrite Hkeys, fold_left_app in Hget'.
  simpl in Hget'. rewrite manage_fold_get_other in Hget' by exact Ha.
  set (st_k := fold_left (manage_one w cfg) before st) in *.
  assert (Hget_k : dict_get pos_id (positions st_k) = Some pos).
  { unfold st_k. rewrite manage_fold_get_other by exact Hb. exact Hget. }
  destruct (manage_one_with_quote w cfg st_k pos_id pos q Hget_k Hq Hok)
    as [Hget2 Hstep].
  rewrite Hstep in Hget'.
  destruct (exit_decision cfg (in_trading_hours w (advance st_k))
              (tick_update cfg pos (quote_high q) (quote_low q))
              (quote_curr q) (quote_high q) (quote_low q))
    as [[[price reason] status]|].
  - rewrite close_position_positions, Hget2, dict_get_del_same in Hget'. discriminate.
  - rewrite Hget2 in Hget'. injection Hget' as <-. reflexivity.
Qed.

Lemma tick_update_ratchet (pos : Position) (hi lo : Q) :
  0 < TRAILING_SL_PERCENT cfg -> 0 < SL_PERCENT cfg ->
  current_sl (tick_update cfg pos hi lo) ==
  Qmax (current_sl pos) (Qmax (high pos) hi * (1 - TRAILING_SL_PERCENT cfg)).
Proof.
  intros Ht Hs. unfold tick_update. simpl.
  apply Qltb_iff in Ht. apply Qltb_iff in Hs. rewrite Ht, Hs. simpl.
  rewrite pymax_Qmax.
  apply Q.max_compat; [reflexivity|].
  rewrite pymax_Qmax. reflexivity.
Qed.
End SamePosition.

(** C5.  With both a trailing percentage and a base stop percentage
    configured, every tick the loop performs on an open position (a pass of
    [manage_positions] over a position whose quote is Ok) stores
    current_sl = max(current_sl, high x (1 - trailing percentage)), high
    being the position's high water mark after the tick, max(high, tick
    high); a tick low at or below that stop closes the position with reason
    SL at that stop.  Hence the stop never loosens: not over any run of
    ticks, not across [manage_positions], and not between any two moments
    of the loop at which the same position (same key and trade number) is
    open. *)
Theorem trailing_stop_ratchet (w : World) (cfg : Config) :
  0 < TRAILING_SL_PERCENT cfg -> 0 < SL_PERCENT cfg ->
  let ratchet (pos : Position) (q : Quote) :=
    Qmax (current_sl pos)
         (Qmax (high pos) (quote_high q) * (1 - TRAILING_SL_PERCENT cfg)) in
  (forall pos q,
      let pos' := tick_update cfg pos (quote_high q) (quote_low q) in
      high pos' == Qmax (high pos) (quote_high q) /\
      current_sl pos' == Qmax (current_sl pos) (high pos' * (1 - TRAILING_SL_PERCENT cfg))) /\
  (forall st pos_id pos q,
      dict_get pos_id (positions st) = Some pos ->
      w_quote w (clock st) (symbol pos) = Some q -> stat_ok q = true ->
      let st' := manage_one w cfg st pos_id in
      (forall p', dict_get pos_id (positions st') = Some p' ->
                  current_sl p' == ratchet pos q /\
                  high p' == Qmax (high pos) (quote_high q)) /\
      (ratchet pos q < quote_low q -> quote_high q < tp pos ->
       in_trading_hours w (advance st) = true ->
       exists p', dict_get pos_id (positions st') = Some p' /\
                  current_sl p' == ratchet pos q) /\
      (quote_low q <= ratchet pos q ->
       exists px, px == ratchet pos q /\ closed_as st' pos_id pos "SL" px)) /\
  (forall st before pos_id after pos q p',
      NoDup (map fst (positions st)) ->
      map fst (positions st) = before ++ pos_id :: after ->
      dict_get pos_id (positions st) = Some pos ->
      w_quote w (clock (fold_left (manage_one w cfg) before st)) (symbol pos) = Some q ->
      stat_ok q = true ->
      dict_get pos_id (positions (manage_positions w cfg st)) = Some p' ->
      current_sl p' == ratchet pos q) /\
  (forall pos earlier later,
      current_sl (apply_ticks cfg pos earlier)
      <= current_sl (apply_ticks cfg (apply_ticks cfg pos earlier) later)) /\
  (forall st k p p',
      dict_get k (positions st) = Some p ->
      dict_get k (positions (manage_positions w cfg st)) = Some p' ->
      current_sl p <= current_sl p') /\
  (forall instruments fuel1 fuel2 k p p',
      let st := run w cfg instruments fuel1 init_state in
      dict_get k (positions st) = Some p ->
      dict_get k (positions (run w cfg instruments fuel2 st)) = Some p' ->
      trade_no p' = trade_no p ->
      current_sl p <= current_sl p').
Proof.
  intros Ht Hs ratchet.
  split.
  { intros pos q pos'. split; [apply pymax_Qmax|].
    unfold pos', tick_update. simpl.
    assert (Ht' := Ht). assert (Hs' := Hs).
    apply Qltb_iff in Ht'. apply Qltb_iff in Hs'. rewrite Ht', Hs'. simpl.
    apply pymax_Qmax. }
  split.
  { intros st pos_id pos q Hget Hq Hok st'.
    destruct (manage_one_with_quote w cfg st pos_id pos q Hget Hq Hok) as [Hget2 Hstep].
    fold st' in Hstep.
    set (pos' := tick_update cfg pos (quote_high q) (quote_low q)) in *.
    set (st2 := set_positions (dict_set pos_id pos' (positions st)) (advance st)) in *.
    assert (Hsl : current_sl pos' == ratchet pos q)
      by (apply tick_update_ratchet; assumption).
    assert (Hopen : forall p', dict_get pos_id (positions st') = Some p' -> p' = pos').
    { intros p' Hp'. rewrite Hstep in Hp'.
      destruct (exit_decision cfg (in_trading_hours w (advance st)) pos'
                              (quote_curr q) (quote_high q) (quote_low q))
        as [[[price reason] status]|].
      - rewrite close_position_positions, Hget2, dict_get_del_same in Hp'. discriminate.
      - rewrite Hget2 in Hp'. injection Hp' as <-. reflexivity. }
    split; [|split].
    - intros p' Hp'. rewrite (Hopen p' Hp'). split; [exact Hsl|apply pymax_Qmax].
    - intros Hlow Htp Hin. exists pos'. split; [|exact Hsl].
      rewrite Hstep. unfold exit_decision.
      replace (Qleb (quote_low q) (current_sl pos')) with false
        by (symmetry; apply Qleb_false; rewrite Hsl; exact Hlow).
      rewrite andb_false_r.
      replace (Qleb (tp pos') (quote_high q)) with false
        by (symmetry; apply Qleb_false; exact Htp).
      rewrite Hin. exact Hget2.
    - intro Hlow. exists (current_sl pos'). split; [exact Hsl|].
      rewrite Hstep. unfold exit_decision.
      replace (Qltb 0 (SL_PERCENT cfg)) with true by (symmetry; apply Qltb_iff; exact Hs).
      replace (Qleb (quote_low q) (current_sl pos')) with true
        by (symmetry; apply Qleb_iff; rewrite Hsl; exact Hlow).
      apply (close_position_at w cfg st2 pos_id "SL" pos' _ _ Hget2). }
  split.
  { intros st before pos_id after pos q p' Hnd Hkeys Hget Hq Hok Hget'.
    rewrite (manage_positions_at_key w cfg st before after pos_id pos p' q
               Hnd Hkeys Hget Hq Hok Hget').
    apply tick_update_ratchet; assumption. }
  split; [intros; apply apply_ticks_monotone|].
  split.
  { intros st k p p' Hp Hp'.
    destruct (manage_positions_ticks w cfg st k p p' Hp Hp') as [quotes ->].
    apply apply_ticks_monotone. }
  intros instruments fuel1 fuel2 k p p' st Hp Hp' Hno.
  destruct (run_same_position w cfg instruments fuel1 fuel2 k p p' Hp Hp' Hno)
    as [quotes ->].
  apply apply_ticks_monotone.
Qed.

Lemma trailing_stop_ratchet_witness :
  exists p',
    dict_get "NIFTY_C_1"
      (positions (manage_positions (steady_world (mkQuote true (Some 110) (Some 120) (Some 95)))
                                   trailing_config (one_open trailing_config))) = Some p' /\
    current_sl p' == 84.
Proof.
  eexists. split; [vm_compute; reflexivity|].
  assert (Ht : 0 < TRAILING_SL_PERCENT trailing_config) by reflexivity.
  assert (Hs : 0 < SL_PERCENT trailing_config) by reflexivity.
  destruct (trailing_stop_ratchet
              (steady_world (mkQuote true (Some 110) (Some 120) (Some 95)))
              trailing_config Ht Hs) as (_ & _ & Hloop & _).
  match goal with |- current_sl ?p == _ =>
    rewrite (Hloop (one_open trailing_config) [] "NIFTY_C_1"%string []
                   (new_position trailing_config 1 BUY_CALL "NIFTY_C" 100 75 "1")
                   (mkQuote true (Some 110) (Some 120) (Some 95)) p)
  end.
  - vm_compute. reflexivity.
  - vm_compute. repeat constructor. intros [].
  - reflexivity.
  - vm_compute. reflexivity.
  - reflexivity.
  - reflexivity.
  - vm_compute. reflexivity.
Defined.

Section LevelFacts.
Variable w : World.
Variable cfg : Config.

(** Entry price, stop and target are set once, by [enter_trade], and never
    touched again: the position an accepted entry stores has
    sl = initial stop of the entry price and tp = entry x (1 + TP_PERCENT);
    [manage_positions] leaves entry price, stop, target, quantity, symbol
    and trade number of every position it keeps as they were; and between
    any two moments of the loop at which the same position is open these
    fields are equal.  So every open position of every reachable state
    still has the levels computed at its entry. *)
Theorem levels_never_recomputed (instruments : list Instrument) (fuel1 fuel2 : nat) :
  let st := run w cfg instruments fuel1 init_state in
  (forall st0 signal sym price lot pos_id,
      fst (enter_trade w cfg st0 signal sym price lot) = Some pos_id ->
      exists p, dict_get pos_id (positions (snd (enter_trade w cfg st0 signal sym price lot)))
                = Some p /\
                entry p = price /\ sl p = initial_sl cfg price /\
                tp p = price * (1 + TP_PERCENT cfg)) /\
  (forall st0 k p p',
      dict_get k (positions st0) = Some p ->
      dict_get k (positions (manage_positions w cfg st0)) = Some p' ->
      entry p' = entry p /\ sl p' = sl p /\ tp p' = tp p /\
      qty p' = qty p /\ symbol p' = symbol p /\ trade_no p' = trade_no p) /\
  (forall k p p',
      dict_get k (positions st) = Some p ->
      dict_get k (positions (run w cfg instruments fuel2 st)) = Some p' ->
      trade_no p' = trade_no p ->
      entry p' = entry p /\ sl p' = sl p /\ tp p' = tp p /\
      qty p' = qty p /\ symbol p' = symbol p) /\
  every_open (levels_as_entered cfg) st.
Proof.
  intro st.
  split.
  { intros st0 signal sym price lot pos_id. unfold enter_trade. simpl.
    destruct (w_order w _ sym lot Buy) as [id|]; [|discriminate].
    destruct (String.eqb id EmptyString); [discriminate|].
    simpl. intro Hid. injection Hid as <-.
    eexists. split; [apply dict_get_set_same|]. repeat split. }
  split.
  { intros st0 k p p' Hp Hp'.
    destruct (manage_positions_ticks w cfg st0 k p p' Hp Hp') as [quotes ->].
    destruct (apply_ticks_fixed cfg quotes p) as (H1 & H2 & H3 & H4 & H5 & H6).
    repeat split; assumption. }
  split.
  { intros k p p' Hp Hp' Hno.
    destruct (run_same_position w cfg instruments fuel1 fuel2 k p p' Hp Hp' Hno)
      as [quotes ->].
    destruct (apply_ticks_fixed cfg quotes p) as (H1 & H2 & H3 & H4 & H5 & H6).
    repeat split; assumption. }
  apply (every_open_invariant cfg (levels_as_entered cfg)) with (st := init_state).
  - intros. apply new_position_good.
  - intros p hi lo H. exact H.
  - apply run_reaches.
  - constructor.
Qed.
End LevelFacts.

Lemma levels_never_recomputed_witness :
  exists p',
    dict_get "NIFTY_C_1"
      (positions (manage_positions (steady_world (last_price 110)) source_config
                                   (one_open source_config))) = Some p' /\
    entry p' = 100 /\ sl p' = initial_sl source_config 100 /\
    tp p' = 100 * (1 + TP_PERCENT source_config).
Proof.
  eexists. split; [vm_compute; reflexivity|].
  destruct (levels_never_recomputed (steady_world (last_price 110)) source_config
              [] 0 0) as (_ & Hkept & _).
  match goal with |- entry ?p = _ /\ _ =>
    destruct (Hkept (one_open source_config) "NIFTY_C_1"%string
                    (new_position source_config 1 BUY_CALL "NIFTY_C" 100 75 "1") p
                    eq_refl eq_refl) as (He & Hs & Ht & _)
  end.
  rewrite He, Hs, Ht. repeat split.
Defined.

(** ** Entries *)

Section EntryFacts.
Variable w : World.
Variable cfg : Config.

(** An accepted buy order stores, under the key symbol_orderid, a position
    entered at the signal price, numbered by the trade counter (which then
    moves on), with both water marks at the entry price, a stop strictly
    below and a take-profit strictly above the entry price. *)
Theorem accepted_entry_brackets_price (st : State) (signal : Signal) (sym : string)
        (price : Q) (lot : Z) (id : string) :
  w_order w (w_polls w (clock st) + clock st)%nat sym lot Buy = Some id ->
  id <> EmptyString -> 0 < price -> 0 < TP_PERCENT cfg ->
  let st' := snd (enter_trade w cfg st signal sym price lot) in
  exists p,
    fst (enter_trade w cfg st signal sym price lot) = Some (sym ++ "_" ++ id)%string /\
    dict_get (sym ++ "_" ++ id)%string (positions st') = Some p /\
    symbol p = sym /\ qty p = lot /\ entry p = price /\
    trade_no p = trade_counter st /\ trade_counter st' = S (trade_counter st) /\
    high p = price /\ low p = price /\
    sl p < price /\ price < tp p /\ current_sl p = sl p /\
    (SL_PERCENT cfg < 1 -> 0 < sl p).
Proof.
  intros Horder Hid Hprice Htp st'. subst st'. unfold enter_trade. simpl.
  rewrite Horder. apply String.eqb_neq in Hid. rewrite Hid. simpl.
  eexists. split; [reflexivity|]. split; [apply dict_get_set_same|].
  simpl. repeat split.
  - unfold initial_sl. destruct (Qltb 0 (SL_PERCENT cfg)) eqn:E.
    + apply Qltb_iff in E.
      assert (0 < price * SL_PERCENT cfg) by (apply Qmult_lt_0_compat; assumption).
      setoid_replace (price * (1 - SL_PERCENT cfg)) with (price - price * SL_PERCENT cfg)
        by ring. lra.
    + lra.
  - assert (0 < price * TP_PERCENT cfg) by (apply Qmult_lt_0_compat; assumption).
    setoid_replace (price * (1 + TP_PERCENT cfg)) with (price + price * TP_PERCENT cfg)
      by ring. lra.
  - intro Hsl. unfold initial_sl. destruct (Qltb 0 (SL_PERCENT cfg)).
    + apply Qmult_lt_0_compat; [exact Hprice|lra].
    + lra.
Qed.

(** A rejected buy order (no order id) abandons the entry: no position is
    stored, the trade counter, the daily PnL, [trades] and [last_signal] stay
    as they were, so the same signal is acted on again at the next pass. *)
Theorem rejected_entry_changes_nothing (st : State) (inst : Instrument) :
  (w_order w (w_polls w (clock st) + clock st)%nat (i_symbol inst) (lot_size inst) Buy
     = None \/
   w_order w (w_polls w (clock st) + clock st)%nat (i_symbol inst) (lot_size inst) Buy
     = Some EmptyString) ->
  let st' := scan_instrument w cfg st inst in
  positions st' = positions st /\ last_signal st' = last_signal st /\
  trades st' = trades st /\ trade_counter st' = trade_counter st /\
  pnl st' = pnl st /\ closed_trades st' = closed_trades st.
Proof.
  intros Hrej st'. subst st'. unfold scan_instrument.
  destruct (w_cache w (clock st) (i_symbol inst)) as [df|]; [|repeat split].
  destruct (EMA_PERIOD cfg <=? length df)%nat; [|repeat split].
  destruct (detect_signal df) as [[signal sig_price]|]; [|repeat split].
  destruct (negb (has_position st (i_symbol inst))
            && differs_from_last signal (last_signal st)); [|repeat split].
  unfold enter_trade. simpl.
  destruct Hrej as [-> | ->]; simpl; repeat split.
Qed.
End EntryFacts.

Lemma accepted_entry_brackets_price_witness :
  exists p,
    dict_get "NIFTY_C_1"%string (positions (one_open source_config)) = Some p /\
    sl p < 100 /\ 100 < tp p.
Proof.
  destruct (accepted_entry_brackets_price (steady_world (last_price 100)) source_config
              init_state BUY_CALL "NIFTY_C" 100 75 "1")
    as (p & _ & Hget & _ & _ & _ & _ & _ & _ & _ & Hsl & Htp & _);
    try reflexivity; try discriminate.
  exists p. split; [exact Hget|]. split; assumption.
Defined.

Lemma rejected_entry_changes_nothing_witness :
  positions (scan_instrument
               (mkWorld (fun _ _ => None) (fun _ _ _ _ => None) (fun _ => 36000000000%Z)
                        (fun _ => None) (fun _ => "0"%string) (fun _ => 0%nat)
                        (fun _ _ => Some call_frame))
               source_config init_state call_option) = [].
Proof.
  apply (rejected_entry_changes_nothing
           (mkWorld (fun _ _ => None) (fun _ _ _ _ => None) (fun _ => 36000000000%Z)
                    (fun _ => None) (fun _ => "0"%string) (fun _ => 0%nat)
                    (fun _ _ => Some call_frame))
           source_config init_state call_option).
  left. reflexivity.
Defined.

(** ** Closing *)

Section ClosingFacts.
Variable w : World.
Variable cfg : Config.

(** [close_position] removes the named position and no other; closing an id
    that is not open is a no-op, so closing twice is closing once and no
    PnL is counted twice. *)
Theorem close_position_is_local (st : State) (pos_id reason : string) (price : option Q)
        (status : option string) :
  let st' := close_position w cfg st pos_id reason price status in
  dict_get pos_id (positions st') = None /\
  (forall k, k <> pos_id -> dict_get k (positions st') = dict_get k (positions st)) /\
  (dict_get pos_id (positions st) = None -> st' = st) /\
  (forall reason' price' status',
      close_position w cfg st' pos_id reason' price' status' = st').
Proof.
  intro st'.
  assert (Hgone : dict_get pos_id (positions st') = None).
  { unfold st'. rewrite close_position_positions.
    destruct (dict_get pos_id (positions st)) eqn:E; [apply dict_get_del_same|exact E]. }
  split; [exact Hgone|]. split; [|split].
  - intros k Hk. unfold st'. rewrite close_position_positions.
    destruct (dict_get pos_id (positions st)); [|reflexivity].
    apply dict_get_del_other. congruence.
  - intro Hnone. unfold st', close_position. rewrite Hnone. reflexivity.
  - intros reason' price' status'. unfold close_position at 1. rewrite Hgone. reflexivity.
Qed.

(** [manual_exit]: with nothing open it does nothing at all; with the answer
    "0", or a number that no open position carries, it closes nothing and
    places no order; with the number of an open position it closes that
    position with reason MANUAL at the quoted last price, or at the entry
    price when no quote (or no last price) is to be had. *)
Theorem manual_exit_cases (st : State) :
  (positions st = [] -> manual_exit w cfg st = st) /\
  (let asked := advance_by (length (positions st)) st in
   let choice := w_input w (clock asked) in
   (choice = "0"%string \/ find_trade choice (positions st) = None ->
    positions (manual_exit w cfg st) = positions st /\
    pnl (manual_exit w cfg st) = pnl st /\
    closed_trades (manual_exit w cfg st) = closed_trades st /\
    history (manual_exit w cfg st) = history st) /\
   (forall pos_id pos,
       positions st <> [] -> choice <> "0"%string ->
       find_trade choice (positions st) = Some pos_id ->
       dict_get pos_id (positions st) = Some pos ->
       let px := match w_quote w (clock (advance asked)) (symbol pos) with
                 | Some q => match lp q with Some v => v | None => entry pos end
                 | None => entry pos
                 end in
       closed_as (manual_exit w cfg st) pos_id pos "MANUAL" px /\
       pnl (manual_exit w cfg st) = pnl st + realized_pnl cfg pos px)).
Proof.
  split.
  - intro Hempty. unfold manual_exit. rewrite Hempty. reflexivity.
  - cbv zeta. split.
    + intros Hno. unfold manual_exit.
      destruct (positions st) as [|kp ps] eqn:Hps;
        [simpl; rewrite ?Hps; repeat split|].
      rewrite <- Hps in *. simpl positions. simpl clock in *.
      destruct Hno as [Hzero|Hnone].
      * rewrite Hzero. simpl. repeat split.
      * destruct (String.eqb _ "0"); [repeat split|].
        rewrite Hnone. repeat split.
    + intros pos_id pos Hne Hchoice Hfind Hget.
      unfold manual_exit.
      destruct (positions st) as [|kp ps] eqn:Hps; [congruence|].
      rewrite <- Hps in *. simpl positions. simpl clock in *.
      apply String.eqb_neq in Hchoice. rewrite Hchoice, Hfind.
      unfold closed_as, close_position. simpl positions. rewrite Hget. simpl.
      match goal with |- context [keep_last_20 (?l ++ [?r])] =>
        destruct (keep_last_20_snoc l r) as [older Hk]; rewrite Hk end.
      split; [|reflexivity].
      split; [apply dict_get_del_same|].
      exists older. eexists. split; [reflexivity|]. repeat split.
Qed.
End ClosingFacts.

Lemma manual_exit_cases_witness :
  dict_get "NIFTY_C_1"%string
    (positions (manual_exit (exit_request_world (last_price 110)) source_config
                            (one_open source_config))) = None.
Proof.
  destruct (dict_get "NIFTY_C_1"%string (positions (one_open source_config))) as [pos|] eqn:E;
    [|vm_compute in E; discriminate].
  refine (proj1 (proj1 (proj2 (proj2 (manual_exit_cases
            (exit_request_world (last_price 110)) source_config
            (one_open source_config))) "NIFTY_C_1"%string pos _ _ _ E))).
  - vm_compute. discriminate.
  - vm_compute. discriminate.
  - vm_compute. reflexivity.
Defined.

(** ** Indicator engine *)

Lemma ewm_from_length (alpha y : Q) (xs : list Q) :
  length (ewm_from alpha y xs) = length xs.
Proof.
  revert y. induction xs as [|x xs IH]; intro y; simpl; [reflexivity|].
  rewrite IH. reflexivity.
Qed.

Lemma ewm_mean_length (span : nat) (xs : list Q) :
  length (ewm_mean span xs) = length xs.
Proof. destruct xs; simpl; [reflexivity|]. rewrite ewm_from_length. reflexivity. Qed.

Lemma ewm_from_within (alpha lo hi : Q) (xs : list Q) :
  0 <= alpha -> alpha <= 1 ->
  forall y, within lo hi y -> Forall (within lo hi) xs ->
            Forall (within lo hi) (ewm_from alpha y xs).
Proof.
  intros Ha0 Ha1. induction xs as [|x xs IH]; intros y Hy Hxs; simpl; constructor.
  - apply Forall_inv in Hxs. destruct Hy, Hxs. split; nra.
  - apply IH; [|eapply Forall_inv_tail; exact Hxs].
    apply Forall_inv in Hxs. destruct Hy, Hxs. split; nra.
Qed.

Lemma span_alpha (span : nat) :
  (1 <= span)%nat ->
  0 <= 2 / (inject_Z (Z.of_nat span) + 1) /\ 2 / (inject_Z (Z.of_nat span) + 1) <= 1.
Proof.
  intro Hs.
  assert (Hd : 2 <= inject_Z (Z.of_nat span) + 1).
  { assert (1 <= inject_Z (Z.of_nat span)) by (unfold Qle; simpl; lia). lra. }
  split.
  - apply Qle_shift_div_l; lra.
  - apply Qle_shift_div_r; lra.
Qed.

Lemma ewm_from_app (alpha y : Q) (xs ys : list Q) :
  exists y', ewm_from alpha y (xs ++ ys) = ewm_from alpha y xs ++ ewm_from alpha y' ys.
Proof.
  revert y. induction xs as [|x xs IH]; intro y; simpl.
  - exists y. reflexivity.
  - destruct (IH ((1 - alpha) * y + alpha * x)) as [y' ->]. exists y'. reflexivity.
Qed.

Lemma ewm_mean_prefix (span : nat) (xs ys : list Q) :
  xs <> [] -> firstn (length xs) (ewm_mean span (xs ++ ys)) = ewm_mean span xs.
Proof.
  intro Hne. destruct xs as [|x xs]; [congruence|]. simpl.
  destruct (ewm_from_app (2 / (inject_Z (Z.of_nat span) + 1)) x xs ys) as [y' ->].
  f_equal. rewrite <- (ewm_from_length (2 / (inject_Z (Z.of_nat span) + 1)) x xs) at 1.
  rewrite firstn_app, Nat.sub_diag, firstn_all. simpl. apply app_nil_r.
Qed.

(** The EMA column has one cell per row and, for a span of at least 1,
    every cell lies within any range that contains all the closes. *)
Theorem ema_stays_within_closes (cfg : Config) (df : list Bar) (lo hi : Q) :
  (1 <= EMA_PERIOD cfg)%nat ->
  Forall (fun b => within lo hi (b_close b)) df ->
  length (calculate_ema cfg df) = length df /\
  Forall (within lo hi) (calculate_ema cfg df).
Proof.
  intros Hspan Hdf. unfold calculate_ema.
  split; [rewrite ewm_mean_length, length_map; reflexivity|].
  destruct (span_alpha _ Hspan) as [Ha0 Ha1].
  rewrite <- Forall_map in Hdf.
  destruct (map b_close df) as [|x xs]; simpl; constructor.
  - eapply Forall_inv; exact Hdf.
  - apply ewm_from_within; try assumption.
    + eapply Forall_inv; exact Hdf.
    + eapply Forall_inv_tail; exact Hdf.
Qed.

Lemma ema_stays_within_closes_witness :
  Forall (within (89 # 10) 9) (calculate_ema source_config dip_bars).
Proof.
  apply (ema_stays_within_closes source_config dip_bars (89 # 10) 9).
  - simpl. lia.
  - repeat constructor; simpl; unfold Qle; simpl; lia.
Defined.

Lemma group_cumsum_app (rows1 rows2 : list (Z * Q)) (acc : Z -> Q) :
  exists acc',
    group_cumsum acc (rows1 ++ rows2) = group_cumsum acc rows1 ++ group_cumsum acc' rows2.
Proof.
  revert acc. induction rows1 as [|[k v] rows1 IH]; intro acc; simpl.
  - exists acc. reflexivity.
  - destruct (IH (fun k' => if (k' =? k)%Z then acc k + v else acc k')) as [acc' ->].
    exists acc'. reflexivity.
Qed.

Lemma col_ratio_app (n1 n2 d1 d2 : list Q) :
  length n1 = length d1 ->
  col_ratio (n1 ++ n2) (d1 ++ d2) = col_ratio n1 d1 ++ col_ratio n2 d2.
Proof.
  revert d1. induction n1 as [|a n1 IH]; intros [|b d1] Hlen; simpl in *;
    try discriminate; [reflexivity|].
  rewrite IH by lia. reflexivity.
Qed.

Lemma vwap_cells_length (df : list Bar) : length (vwap_cells df) = length df.
Proof.
  unfold vwap_cells.
  rewrite col_ratio_length; rewrite !group_cumsum_length, !length_map; reflexivity.
Qed.

Lemma vwap_cells_prefix (df1 df2 : list Bar) :
  firstn (length df1) (vwap_cells (df1 ++ df2)) = vwap_cells df1.
Proof.
  unfold vwap_cells. rewrite !map_app.
  match goal with |- context [group_cumsum ?a (?t1 ++ ?t2)] =>
    destruct (group_cumsum_app t1 t2 a) as [accT ->] end.
  match goal with |- context [group_cumsum ?a (?v1 ++ ?v2)] =>
    destruct (group_cumsum_app v1 v2 a) as [accV ->] end.
  rewrite col_ratio_app by (rewrite !group_cumsum_length, !length_map; reflexivity).
  rewrite <- (vwap_cells_length df1) at 1. unfold vwap_cells.
  rewrite firstn_app, Nat.sub_diag, firstn_all. simpl. apply app_nil_r.
Qed.

(** With at least two rows and no negative volume the VWAP column has no
    gap: it is [vwap_cells]. *)
Lemma calculate_vwap_defined (df : list Bar) :
  (2 <= length df)%nat -> Forall (fun b => (0 <= volume b)%Z) df ->
  calculate_vwap df = Some (map Some (vwap_cells df)).
Proof.
  intros Hlen Hvol. unfold calculate_vwap, vwap_cells.
  replace (length df <? 2)%nat with false by (symmetry; apply Nat.ltb_ge; exact Hlen).
  cbv zeta. rewrite col_div_defined, bfill_ffill_defined; [reflexivity|].
  apply group_cumsum_positive; [intro; apply Qle_refl|].
  apply fixed_volume_positive, Hvol.
Qed.

Lemma attach_defined (df : list Bar) (vwap ema : list Q) :
  length vwap = length df -> length ema = length df ->
  attach df (map Some vwap) ema =
  Some (map (fun r => mkSample (b_close (fst r)) (fst (snd r)) (snd (snd r)))
            (combine df (combine vwap ema))).
Proof.
  revert vwap ema. induction df as [|b df IH]; intros vwap ema Hv He; simpl.
  - reflexivity.
  - destruct vwap as [|v vwap]; [discriminate|].
    destruct ema as [|e ema]; [discriminate|].
    simpl in *. rewrite IH by lia. reflexivity.
Qed.

Lemma indicator_frame_defined (cfg : Config) (df : list Bar) :
  (EMA_PERIOD cfg <= length df)%nat -> (2 <= length df)%nat ->
  Forall (fun b => (0 <= volume b)%Z) df ->
  indicator_frame cfg df = Some (frame_rows cfg df).
Proof.
  intros Hp Hlen Hvol. unfold indicator_frame, frame_rows.
  replace (EMA_PERIOD cfg <=? length df)%nat with true
    by (symmetry; apply Nat.leb_le; exact Hp).
  rewrite (calculate_vwap_defined df Hlen Hvol).
  apply attach_defined; [apply vwap_cells_length|].
  unfold calculate_ema. rewrite ewm_mean_length, length_map. reflexivity.
Qed.

(** Indicator values are causal: for a span EMA_PERIOD of at least 1 (pandas
    refuses a smaller one), once a series of at least two rows (and at least
    EMA_PERIOD rows) has its frame, appending rows leaves every row of that
    frame as it was; the new frame only grows at the end. *)
Theorem appended_rows_keep_earlier_indicators (cfg : Config) (df1 df2 : list Bar) :
  (1 <= EMA_PERIOD cfg)%nat ->
  (EMA_PERIOD cfg <= length df1)%nat -> (2 <= length df1)%nat ->
  Forall (fun b => (0 <= volume b)%Z) (df1 ++ df2) ->
  exists f1 f,
    indicator_frame cfg df1 = Some f1 /\
    indicator_frame cfg (df1 ++ df2) = Some f /\
    length f = (length df1 + length df2)%nat /\
    firstn (length df1) f = f1.
Proof.
  intros _ Hp Hlen Hvol.
  assert (Hvol1 : Forall (fun b => (0 <= volume b)%Z) df1).
  { apply Forall_app in Hvol. tauto. }
  exists (frame_rows cfg df1), (frame_rows cfg (df1 ++ df2)).
  split; [apply indicator_frame_defined; assumption|].
  split; [apply indicator_frame_defined; try assumption; rewrite length_app; lia|].
  assert (Hema : forall d, length (calculate_ema cfg d) = length d).
  { intro d. unfold calculate_ema. rewrite ewm_mean_length, length_map. reflexivity. }
  split.
  - unfold frame_rows.
    rewrite length_map, !length_combine, vwap_cells_length, Hema, length_app. lia.
  - unfold frame_rows. rewrite firstn_map, !combine_firstn.
    rewrite vwap_cells_prefix.
    rewrite firstn_app, Nat.sub_diag, firstn_all. simpl. rewrite app_nil_r.
    unfold calculate_ema. rewrite map_app.
    rewrite <- (length_map b_close df1) at 1.
    rewrite ewm_mean_prefix; [reflexivity|].
    destruct df1; simpl in *; [lia|discriminate].
Qed.

Lemma appended_rows_keep_earlier_indicators_witness :
  exists f1 f,
    indicator_frame source_config (firstn 5 dip_bars) = Some f1 /\
    indicator_frame source_config dip_bars = Some f /\
    firstn 5 f = f1.
Proof.
  destruct (appended_rows_keep_earlier_indicators source_config (firstn 5 dip_bars)
              (skipn 5 dip_bars)) as (f1 & f & H1 & H2 & _ & H3).
  - simpl. lia.
  - simpl. lia.
  - simpl. lia.
  - repeat constructor; simpl; lia.
  - exists f1, f. split; [exact H1|]. split; [exact H2|exact H3].
Defined.

(** ** The stored series *)

Lemma drop_duplicates_last_In (df : list Bar) (b : Bar) :
  In b (drop_duplicates_last df) -> In b df.
Proof.
  induction df as [|x df IH]; simpl; [tauto|].
  destruct (existsb (same_time x) df); simpl; intuition.
Qed.

Lemma drop_duplicates_last_NoDup (df : list Bar) :
  NoDup (map datetime (drop_duplicates_last df)).
Proof.
  induction df as [|x df IH]; simpl; [constructor|].
  destruct (existsb (same_time x) df) eqn:E; [exact IH|].
  simpl. constructor; [|exact IH].
  intro Hin. apply in_map_iff in Hin. destruct Hin as [y [Hy Hin]].
  apply drop_duplicates_last_In in Hin.
  assert (existsb (same_time x) df = true).
  { apply existsb_exists. exists y. split; [exact Hin|].
    unfold same_time. rewrite Hy. apply Z.eqb_refl. }
  congruence.
Qed.

Lemma drop_duplicates_last_id (df : list Bar) :
  NoDup (map datetime df) -> drop_duplicates_last df = df.
Proof.
  induction df as [|x df IH]; simpl; intro Hnd; [reflexivity|].
  apply NoDup_cons_iff in Hnd. destruct Hnd as [Hx Hnd].
  destruct (existsb (same_time x) df) eqn:E.
  - exfalso. apply existsb_exists in E. destruct E as [y [Hin Hy]].
    apply Hx. apply in_map_iff. exists y. split; [|exact Hin].
    unfold same_time in Hy. apply Z.eqb_eq in Hy. symmetry. exact Hy.
  - rewrite (IH Hnd). reflexivity.
Qed.

Lemma drop_duplicates_last_snoc (df : list Bar) (r : Bar) :
  drop_duplicates_last (df ++ [r]) =
  filter (fun b => negb (same_time b r)) (drop_duplicates_last df) ++ [r].
Proof.
  induction df as [|x df IH]; simpl; [reflexivity|].
  rewrite existsb_app. simpl. rewrite orb_false_r.
  destruct (existsb (same_time x) df) eqn:E; simpl; [exact IH|].
  destruct (same_time x r) eqn:Exr; simpl; [exact IH|].
  rewrite IH. reflexivity.
Qed.

Lemma filter_keeps_NoDup_times (f : Bar -> bool) (df : list Bar) :
  NoDup (map datetime df) -> NoDup (map datetime (filter f df)).
Proof.
  induction df as [|x df IH]; simpl; intro Hnd; [constructor|].
  apply NoDup_cons_iff in Hnd. destruct Hnd as [Hx Hnd].
  destruct (f x); simpl; [|apply IH, Hnd].
  constructor; [|apply IH, Hnd].
  intro Hin. apply Hx. apply in_map_iff in Hin. destruct Hin as [y [Hy Hin]].
  apply filter_In in Hin. apply in_map_iff. exists y. tauto.
Qed.

Lemma filter_twice (f : Bar -> bool) (df : list Bar) :
  filter f (filter f df) = filter f df.
Proof.
  induction df as [|x df IH]; simpl; [reflexivity|].
  destruct (f x) eqn:E; simpl; [rewrite E, IH|]; auto.
Qed.

Lemma NoDup_snoc {A} (l : list A) (x : A) :
  NoDup l -> ~ In x l -> NoDup (l ++ [x]).
Proof.
  induction l as [|a l IH]; simpl; intros Hnd Hx.
  - constructor; [intros []|constructor].
  - apply NoDup_cons_iff in Hnd. destruct Hnd as [Ha Hnd].
    constructor.
    + rewrite in_app_iff. simpl. intros [H|[H|[]]]; [tauto|]. apply Hx. left. symmetry. exact H.
    + apply IH; [exact Hnd|tauto].
Qed.

(** After a write the file has one row per timestamp, the row just written
    is the last one, every other row is an earlier row with a different
    timestamp, and writing the same row again changes nothing. *)
Theorem write_row_last_write_wins (file : option (list Bar)) (new_row : Bar) :
  let rows := write_row file new_row in
  NoDup (map datetime rows) /\
  (exists earlier, rows = earlier ++ [new_row] /\
     forall b, In b earlier ->
               datetime b <> datetime new_row /\
               exists existing, file = Some existing /\ In b existing) /\
  write_row (Some rows) new_row = rows.
Proof.
  destruct file as [existing|]; simpl.
  - rewrite !drop_duplicates_last_snoc.
    set (keep := fun b => negb (same_time b new_row)).
    assert (Hnd : NoDup (map datetime (filter keep (drop_duplicates_last existing)))).
    { apply filter_keeps_NoDup_times, drop_duplicates_last_NoDup. }
    assert (Hother : forall b, In b (filter keep (drop_duplicates_last existing)) ->
                               datetime b <> datetime new_row /\ In b existing).
    { intros b Hb. apply filter_In in Hb. destruct Hb as [Hb Hk].
      split; [|apply drop_duplicates_last_In, Hb].
      unfold keep, same_time in Hk. apply negb_true_iff, Z.eqb_neq in Hk. exact Hk. }
    split; [|split].
    + rewrite map_app. simpl. apply NoDup_snoc; [exact Hnd|].
      intro Hin. apply in_map_iff in Hin. destruct Hin as [y [Hy Hin]].
      apply Hother in Hin. tauto.
    + eexists. split; [reflexivity|]. intros b Hb.
      destruct (Hother b Hb). split; [assumption|]. exists existing. tauto.
    + f_equal.
      rewrite filter_app. simpl.
      replace (keep new_row) with false
        by (unfold keep, same_time; rewrite Z.eqb_refl; reflexivity).
      rewrite app_nil_r, drop_duplicates_last_id by exact Hnd.
      rewrite !filter_twice. reflexivity.
  - split; [repeat constructor; intros []|]. split.
    + exists []. split; [reflexivity|]. intros b [].
    + unfold same_time. rewrite Z.eqb_refl. reflexivity.
Qed.

Lemma write_row_appends (file : option (list Bar)) (new_row : Bar) :
  exists earlier, write_row file new_row = earlier ++ [new_row].
Proof.
  destruct file as [existing|]; simpl.
  - rewrite drop_duplicates_last_snoc. eexists. reflexivity.
  - exists []. reflexivity.
Qed.

Lemma strictly_timed_NoDup (df : list Bar) :
  strictly_timed df -> NoDup (map datetime df).
Proof.
  unfold strictly_timed. induction 1 as [|a df Hs IH Hhead]; simpl; constructor; [|exact IH].
  intro Hin. apply in_map_iff in Hin. destruct Hin as [y [Hy Hin]].
  rewrite Forall_forall in Hhead. specialize (Hhead y Hin). lia.
Qed.

Lemma strictly_timed_filter (f : Bar -> bool) (df : list Bar) :
  strictly_timed df -> strictly_timed (filter f df).
Proof.
  unfold strictly_timed. induction 1 as [|a df Hs IH Hhead]; simpl; [constructor|].
  destruct (f a); [|exact IH].
  constructor; [exact IH|].
  apply Forall_forall. intros y Hy. apply filter_In in Hy.
  rewrite Forall_forall in Hhead. apply Hhead. tauto.
Qed.

Lemma strictly_timed_snoc (df : list Bar) (r : Bar) :
  strictly_timed df -> Forall (fun b => (datetime b < datetime r)%Z) df ->
  strictly_timed (df ++ [r]).
Proof.
  unfold strictly_timed. induction 1 as [|a df Hs IH Hhead]; simpl; intro Hlt.
  - constructor; [constructor|constructor].
  - constructor.
    + apply IH. eapply Forall_inv_tail; exact Hlt.
    + apply Forall_app. split; [exact Hhead|].
      constructor; [exact (Forall_inv Hlt)|constructor].
Qed.

Lemma strictly_timed_ordered (df : list Bar) : strictly_timed df -> time_ordered df.
Proof.
  unfold strictly_timed, time_ordered. intro Hs.
  apply StronglySorted_Sorted.
  induction Hs as [|a df Hs IH Hhead]; constructor; [exact IH|].
  eapply Forall_impl; [|exact Hhead]. intros b Hb. simpl in Hb. lia.
Qed.

(** Writes in clock order keep the stored series in strictly increasing
    timestamp order (so also without duplicates and time-ordered, as the
    VWAP computation expects); a missing or failed quote leaves the file as
    it is and yields no signal. *)
Theorem stored_series_stays_in_order (cfg : Config) (now : Z) (file : option (list Bar))
        (quote : option FeedQuote) :
  file_in_order now file ->
  let after := fst (update_instrument_data cfg now file quote) in
  file_in_order now after /\
  (forall rows, after = Some rows -> time_ordered rows /\ NoDup (map datetime rows)) /\
  (forall q, quote = Some q -> f_stat_ok q = true ->
             exists earlier, after = Some (earlier ++ [data_point now q])) /\
  (quote = None \/ (exists q, quote = Some q /\ f_stat_ok q = false) ->
   update_instrument_data cfg now file quote = (file, None)).
Proof.
  intros Hfile after.
  assert (Hwrite : forall q, file_in_order now (Some (write_row file (data_point now q)))).
  { intro q. destruct file as [existing|]; simpl.
    - destruct Hfile as [Hs Hle].
      rewrite drop_duplicates_last_snoc,
        (drop_duplicates_last_id existing (strictly_timed_NoDup _ Hs)).
      split.
      + apply strictly_timed_snoc; [apply strictly_timed_filter, Hs|].
        apply Forall_forall. intros b Hb. apply filter_In in Hb. destruct Hb as [Hb Hk].
        rewrite Forall_forall in Hle. specialize (Hle b Hb).
        unfold same_time in Hk. apply negb_true_iff, Z.eqb_neq in Hk.
        simpl in *. lia.
      + apply Forall_app. split.
        * apply Forall_forall. intros b Hb. apply filter_In in Hb.
          rewrite Forall_forall in Hle. apply Hle. tauto.
        * constructor; [simpl; lia|constructor].
    - split; [repeat constructor|]. constructor; [simpl; lia|constructor]. }
  assert (Hafter : file_in_order now after).
  { unfold after, update_instrument_data.
    destruct quote as [q|]; [|exact Hfile].
    destruct (f_stat_ok q); simpl; [apply Hwrite|exact Hfile]. }
  split; [exact Hafter|]. split; [|split].
  - intros rows Hrows. rewrite Hrows in Hafter. destruct Hafter as [Hs _].
    split; [apply strictly_timed_ordered, Hs|apply strictly_timed_NoDup, Hs].
  - intros q -> Hok. unfold after, update_instrument_data. rewrite Hok. simpl.
    destruct (write_row_appends file (data_point now q)) as (earlier & Heq).
    exists earlier. rewrite Heq. reflexivity.
  - intros [->|[q [-> Hbad]]]; unfold update_instrument_data; [reflexivity|].
    rewrite Hbad. reflexivity.
Qed.

Lemma stored_series_stays_in_order_witness :
  file_in_order 3
    (fst (update_instrument_data source_config 3 (Some [quiet_bar 1; quiet_bar 2])
            (Some (mkFeedQuote true (Some 9) None None None None)))).
Proof.
  refine (proj1 (stored_series_stays_in_order source_config 3
                   (Some [quiet_bar 1; quiet_bar 2])
                   (Some (mkFeedQuote true (Some 9) None None None None)) _)).
  split.
  - repeat constructor.
  - repeat constructor; simpl; lia.
Defined.

(** ** Strikes and instruments *)

Lemma py_round_near (x : Q) :
  inject_Z (py_round x) - x <= 1 # 2 /\ x - inject_Z (py_round x) <= 1 # 2.
Proof.
  pose proof (Qfloor_le x) as Hlo. pose proof (Qlt_floor x) as Hhi.
  rewrite inject_Z_plus in Hhi. change (inject_Z 1) with 1 in Hhi.
  unfold py_round.
  destruct (Qltb (x - inject_Z (Qfloor x)) (1 # 2)) eqn:E1.
  { apply Qltb_iff in E1. split; lra. }
  apply Qltb_false in E1.
  destruct (Qltb (1 # 2) (x - inject_Z (Qfloor x))) eqn:E2.
  { apply Qltb_iff in E2. rewrite inject_Z_plus. change (inject_Z 1) with 1.
    split; lra. }
  apply Qltb_false in E2.
  destruct (Z.even (Qfloor x));
    [|rewrite inject_Z_plus; change (inject_Z 1) with 1]; split; lra.
Qed.

Lemma py_round_others_far (x : Q) (k : Z) :
  k <> py_round x -> 1 # 2 <= inject_Z k - x \/ 1 # 2 <= x - inject_Z k.
Proof.
  intro Hne. destruct (py_round_near x) as [Hup Hdown].
  destruct (Z_lt_le_dec k (py_round x)) as [Hlt|Hge].
  - right. assert (H : (k + 1 <= py_round x)%Z) by lia.
    rewrite Zle_Qle, inject_Z_plus in H. change (inject_Z 1) with 1 in H. lra.
  - left. assert (H : (py_round x + 1 <= k)%Z) by lia.
    rewrite Zle_Qle, inject_Z_plus in H. change (inject_Z 1) with 1 in H. lra.
Qed.

Lemma py_round_tie_even (x : Q) :
  inject_Z (py_round x) - x == 1 # 2 \/ x - inject_Z (py_round x) == 1 # 2 ->
  Z.even (py_round x) = true.
Proof.
  pose proof (Qfloor_le x) as Hlo. pose proof (Qlt_floor x) as Hhi.
  rewrite inject_Z_plus in Hhi. change (inject_Z 1) with 1 in Hhi.
  unfold py_round.
  destruct (Qltb (x - inject_Z (Qfloor x)) (1 # 2)) eqn:E1.
  { apply Qltb_iff in E1. intros [H|H]; lra. }
  apply Qltb_false in E1.
  destruct (Qltb (1 # 2) (x - inject_Z (Qfloor x))) eqn:E2.
  { apply Qltb_iff in E2. rewrite inject_Z_plus. change (inject_Z 1) with 1.
    intros [H|H]; lra. }
  destruct (Z.even (Qfloor x)) eqn:E3; intros _; [exact E3|].
  change (Qfloor x + 1)%Z with (Z.succ (Qfloor x)).
  rewrite Z.even_succ, <- Z.negb_even, E3. reflexivity.
Qed.

(** The at-the-money strike is the multiple of the strike step nearest to
    the last price: it lies within half a step of it, every other multiple
    is at least half a step away, and when the price is exactly half a step
    from it (two multiples equally near) it is the even multiple, as
    Python's [round] has it.  The strikes returned are atm + k x step for k
    from -STRIKES_COUNT to +STRIKES_COUNT, ascending. *)
Theorem atm_strike_is_nearest_multiple (sc : StrikeConfig) (ltp : Q) (underlying : string) :
  (0 < strike_step_of sc underlying)%Z ->
  let step := strike_step_of sc underlying in
  let atm := atm_strike_of sc ltp underlying in
  let strikes := fst (fst (get_atm_strikes sc ltp underlying)) in
  (step | atm)%Z /\
  inject_Z atm - ltp <= inject_Z step * (1 # 2) /\
  ltp - inject_Z atm <= inject_Z step * (1 # 2) /\
  (forall m, (step | m)%Z -> m <> atm ->
             inject_Z step * (1 # 2) <= inject_Z m - ltp \/
             inject_Z step * (1 # 2) <= ltp - inject_Z m) /\
  (inject_Z atm - ltp == inject_Z step * (1 # 2) \/
   ltp - inject_Z atm == inject_Z step * (1 # 2) ->
   Z.even (atm / step) = true) /\
  strikes = map (fun i => (atm + (Z.of_nat i - Z.of_nat (STRIKES_COUNT sc)) * step)%Z)
                (seq 0 (2 * STRIKES_COUNT sc + 1)) /\
  In atm strikes.
Proof.
  intros Hstep step atm strikes.
  assert (Hs : 0 < inject_Z step) by (unfold Qlt; simpl; lia).
  assert (Hlist : strikes =
                  map (fun i => (atm + (Z.of_nat i - Z.of_nat (STRIKES_COUNT sc)) * step)%Z)
                      (seq 0 (2 * STRIKES_COUNT sc + 1))).
  { unfold strikes, get_atm_strikes, py_range. simpl. rewrite map_map. reflexivity. }
  split; [exists (py_round (ltp / inject_Z step)); reflexivity|].
  destruct (py_round_near (ltp / inject_Z step)) as [Hup Hdown].
  pose proof (py_round_others_far (ltp / inject_Z step)) as Hfar.
  pose proof (py_round_tie_even (ltp / inject_Z step)) as Htie.
  assert (Hq : ltp / inject_Z step * inject_Z step == ltp) by (field; lra).
  assert (Hatm_Z : atm = (py_round (ltp / inject_Z step) * step)%Z) by reflexivity.
  assert (Hatm : inject_Z atm == inject_Z (py_round (ltp / inject_Z step)) * inject_Z step).
  { rewrite Hatm_Z, inject_Z_mult. reflexivity. }
  assert (Hdiv : (atm / step)%Z = py_round (ltp / inject_Z step)).
  { rewrite Hatm_Z. apply Z.div_mul. lia. }
  set (r := py_round (ltp / inject_Z step)) in *.
  set (q := ltp / inject_Z step) in *.
  split; [rewrite Hatm, <- Hq; nra|].
  split; [rewrite Hatm, <- Hq; nra|].
  split.
  { intros m [k Hk] Hne.
    assert (Hkr : k <> r) by (intro Heq; apply Hne; rewrite Hk, Heq, Hatm_Z; reflexivity).
    assert (Hm : inject_Z m == inject_Z k * inject_Z step)
      by (rewrite Hk, inject_Z_mult; reflexivity).
    destruct (Hfar k Hkr) as [H|H]; [left|right]; rewrite Hm, <- Hq; nra. }
  split.
  { intro Hhalf. rewrite Hdiv. apply Htie.
    destruct Hhalf as [H|H]; [left|right]; rewrite Hatm, <- Hq in H; nra. }
  split; [exact Hlist|].
  rewrite Hlist. apply in_map_iff. exists (STRIKES_COUNT sc).
  split; [lia|]. apply in_seq. lia.
Qed.

Lemma atm_strike_is_nearest_multiple_witness :
  Z.even (atm_strike_of sample_strikes 21525 "NIFTY" / 50) = true /\
  fst (fst (get_atm_strikes sample_strikes 21525 "NIFTY")) = [21450; 21500; 21550]%Z.
Proof.
  destruct (atm_strike_is_nearest_multiple sample_strikes 21525 "NIFTY")
    as (_ & _ & _ & _ & Heven & Hlist & _); [reflexivity|].
  split.
  - apply Heven. right. vm_compute. reflexivity.
  - rewrite Hlist. vm_compute. reflexivity.
Defined.

Lemma append_cancel_l (p a b : string) : (p ++ a = p ++ b)%string -> a = b.
Proof.
  induction p as [|c p IH]; simpl; intro H; [exact H|].
  injection H as H. apply IH, H.
Qed.

Lemma str_of_int_inj (a b : Z) : str_of_int a = str_of_int b -> a = b.
Proof.
  unfold str_of_int. intro H. apply DecimalZ.to_int_inj.
  assert (Hs : Some (Z.to_int a) = Some (Z.to_int b)).
  { rewrite <- (NilEmpty.isi (Z.to_int a)), <- (NilEmpty.isi (Z.to_int b)), H. reflexivity. }
  injection Hs as Hs. exact Hs.
Qed.

Lemma option_symbol_In (base expiry : string) (lot : Z) (strikes : list Z) (x : string) :
  In x (map i_symbol (option_instruments base expiry lot strikes)) <->
  exists s t, In s strikes /\ (t = "C" \/ t = "P")%string /\
              x = (base ++ expiry ++ t ++ str_of_int s)%string.
Proof.
  unfold option_instruments. induction strikes as [|s0 strikes IH]; simpl.
  - split; [intros []|intros (s & t & [] & _)].
  - split.
    + intros [H|[H|H]].
      * exists s0, "C"%string. split; [left; reflexivity|]. split; [tauto|]. symmetry. exact H.
      * exists s0, "P"%string. split; [left; reflexivity|]. split; [tauto|]. symmetry. exact H.
      * apply IH in H. destruct H as (s & t & Hin & Ht & Hx).
        exists s, t. split; [right; exact Hin|]. tauto.
    + intros (s & t & [Hs|Hin] & Ht & Hx).
      * subst s. destruct Ht as [-> | ->]; [left|right; left]; symmetry; exact Hx.
      * right. right. apply IH. exists s, t. tauto.
Qed.

Lemma option_symbol_inj (base expiry t t' : string) (s s' : Z) :
  (t = "C" \/ t = "P")%string -> (t' = "C" \/ t' = "P")%string ->
  (base ++ expiry ++ t ++ str_of_int s = base ++ expiry ++ t' ++ str_of_int s')%string ->
  t = t' /\ s = s'.
Proof.
  intros Ht Ht' H. apply append_cancel_l, append_cancel_l in H.
  destruct Ht as [-> | ->], Ht' as [-> | ->]; simpl in H; try discriminate;
    injection H as H; apply str_of_int_inj in H; tauto.
Qed.

Lemma option_symbols_NoDup (base expiry : string) (lot : Z) (strikes : list Z) :
  NoDup strikes -> NoDup (map i_symbol (option_instruments base expiry lot strikes)).
Proof.
  induction strikes as [|s strikes IH]; intro Hnd; [constructor|].
  apply NoDup_cons_iff in Hnd. destruct Hnd as [Hs Hnd].
  change (map i_symbol (option_instruments base expiry lot (s :: strikes)))
    with ((base ++ expiry ++ "C" ++ str_of_int s)%string ::
          (base ++ expiry ++ "P" ++ str_of_int s)%string ::
          map i_symbol (option_instruments base expiry lot strikes)).
  assert (Hnot : forall t, (t = "C" \/ t = "P")%string ->
             ~ In (base ++ expiry ++ t ++ str_of_int s)%string
                  (map i_symbol (option_instruments base expiry lot strikes))).
  { intros t Ht Hin. apply option_symbol_In in Hin.
    destruct Hin as (s' & t' & Hin & Ht' & Heq).
    apply option_symbol_inj in Heq; try assumption. destruct Heq as [_ ->]. tauto. }
  constructor.
  - intros [H|H].
    + apply option_symbol_inj in H; try tauto. destruct H as [H _]. discriminate.
    + revert H. apply Hnot. tauto.
  - constructor; [apply Hnot; tauto|apply IH, Hnd].
Qed.

Lemma NoDup_map_injective {A B} (f : A -> B) (l : list A) :
  (forall a b, f a = f b -> a = b) -> NoDup l -> NoDup (map f l).
Proof.
  intros Hinj Hnd. induction Hnd as [|a l Ha Hnd IH]; simpl; constructor; [|exact IH].
  intro Hin. apply in_map_iff in Hin. destruct Hin as [b [Hb Hin]].
  apply Hinj in Hb. subst b. tauto.
Qed.

Lemma py_range_NoDup (n : nat) : NoDup (py_range n).
Proof.
  unfold py_range. apply NoDup_map_injective; [|apply seq_NoDup].
  intros a b H. lia.
Qed.

Lemma strikes_NoDup (sc : StrikeConfig) (ltp : Q) (underlying : string) :
  strike_step_of sc underlying <> 0%Z ->
  NoDup (fst (fst (get_atm_strikes sc ltp underlying))).
Proof.
  intro Hstep. unfold get_atm_strikes. simpl.
  apply NoDup_map_injective; [|apply py_range_NoDup].
  intros a b H. nia.
Qed.

Lemma NoDup_app_disjoint {A} (l1 l2 : list A) :
  NoDup l1 -> NoDup l2 -> (forall x, In x l1 -> ~ In x l2) -> NoDup (l1 ++ l2).
Proof.
  induction l1 as [|a l1 IH]; simpl; intros H1 H2 Hd; [exact H2|].
  apply NoDup_cons_iff in H1. destruct H1 as [Ha H1].
  constructor.
  - rewrite in_app_iff. intros [H|H]; [tauto|]. apply (Hd a); [left; reflexivity|exact H].
  - apply IH; try assumption. intros x Hx. apply Hd. right. exact Hx.
Qed.

(** No two instruments built at start-up carry the same symbol, whatever
    the two index quotes are, as long as neither strike step is 0; each
    underlying whose quote is Ok contributes a call and a put per strike. *)
Theorem instrument_symbols_are_distinct (sc : StrikeConfig)
        (nifty_quote banknifty_quote : option Quote) :
  NIFTY_STRIKE_STEP sc <> 0%Z -> BANKNIFTY_STRIKE_STEP sc <> 0%Z ->
  let listed q := match VWAPStrategy.quote_ok q with
                  | Some _ => (2 * (2 * STRIKES_COUNT sc + 1))%nat
                  | None => 0%nat
                  end in
  NoDup (map i_symbol (initialize_instruments sc nifty_quote banknifty_quote)) /\
  length (initialize_instruments sc nifty_quote banknifty_quote)
  = (listed nifty_quote + listed banknifty_quote)%nat.
Proof.
  intros Hn Hb listed.
  assert (Hlen : forall base expiry lot strikes,
             length (option_instruments base expiry lot strikes) = (2 * length strikes)%nat).
  { intros base expiry lot strikes.
    induction strikes as [|s strikes IH]; [reflexivity|].
    change (length (option_instruments base expiry lot (s :: strikes)))
      with (S (S (length (option_instruments base expiry lot strikes)))).
    rewrite IH. simpl. lia. }
  assert (Hcount : forall ltp underlying,
             length (fst (fst (get_atm_strikes sc ltp underlying)))
             = (2 * STRIKES_COUNT sc + 1)%nat).
  { intros. unfold get_atm_strikes, py_range. simpl.
    rewrite !length_map, length_seq. reflexivity. }
  unfold initialize_instruments, listed.
  split.
  - rewrite map_app. apply NoDup_app_disjoint.
    + destruct (VWAPStrategy.quote_ok nifty_quote) as [q|]; [|constructor].
      apply option_symbols_NoDup.
      apply (strikes_NoDup sc (quote_curr q) "NIFTY"). exact Hn.
    + destruct (VWAPStrategy.quote_ok banknifty_quote) as [q|]; [|constructor].
      apply option_symbols_NoDup.
      apply (strikes_NoDup sc (quote_curr q) "BANKNIFTY"). exact Hb.
    + intros x H1 H2.
      destruct (VWAPStrategy.quote_ok nifty_quote) as [q1|]; [|destruct H1].
      destruct (VWAPStrategy.quote_ok banknifty_quote) as [q2|]; [|destruct H2].
      apply option_symbol_In in H1. apply option_symbol_In in H2.
      destruct H1 as (s1 & t1 & _ & _ & E1). destruct H2 as (s2 & t2 & _ & _ & E2).
      rewrite E1 in E2. simpl in E2. discriminate.
  - rewrite length_app.
    destruct (VWAPStrategy.quote_ok nifty_quote) as [q1|],
             (VWAPStrategy.quote_ok banknifty_quote) as [q2|]; simpl;
      rewrite ?Hlen, ?length_map, ?length_seq; unfold py_range;
      rewrite ?length_map, ?length_seq; lia.
Qed.

Lemma instrument_symbols_are_distinct_witness :
  NoDup (map i_symbol (initialize_instruments sample_strikes
                         (Some (last_price 21526)) (Some (last_price 48250)))).
Proof.
  apply (instrument_symbols_are_distinct sample_strikes
           (Some (last_price 21526)) (Some (last_price 48250))); discriminate.
Defined.

(** ** The single-instrument variant *)

Lemma variant_crossover_last_two (pre : list VWAPStrategy.Row)
      (previous current : VWAPStrategy.Row) :
  VWAPStrategy.vwap_crossover_logic (pre ++ [previous; current]) =
  if VWAPStrategy.le_cell (VWAPStrategy.r_close previous) (VWAPStrategy.r_vwap previous)
     && VWAPStrategy.gt_cell (VWAPStrategy.r_close current) (VWAPStrategy.r_vwap current)
  then Some BUY_CALL
  else if VWAPStrategy.ge_cell (VWAPStrategy.r_close previous)
                               (VWAPStrategy.r_vwap previous)
          && VWAPStrategy.lt_cell (VWAPStrategy.r_close current)
                                  (VWAPStrategy.r_vwap current)
  then Some BUY_PUT
  else None.
Proof.
  unfold VWAPStrategy.vwap_crossover_logic.
  rewrite length_app, rev_app_distr. simpl.
  replace (length pre + 2 <? 2)%nat with false by (symmetry; apply Nat.ltb_ge; lia).
  reflexivity.
Qed.

(** [vwap_crossover_logic] on the last two rows: BUY_CALL exactly when both
    rows have a VWAP, the previous close is at or below its VWAP and the
    current close is above its VWAP; BUY_PUT exactly under the mirrored
    conditions; nothing when either row has no VWAP (NaN) or when there are
    fewer than two rows. *)
Theorem variant_crossover_cases (pre : list VWAPStrategy.Row)
        (previous current : VWAPStrategy.Row) :
  let df := pre ++ [previous; current] in
  let cp := VWAPStrategy.r_close previous in
  let cc := VWAPStrategy.r_close current in
  (VWAPStrategy.vwap_crossover_logic df = Some BUY_CALL <->
   exists vp vc, VWAPStrategy.r_vwap previous = Some vp /\
                 VWAPStrategy.r_vwap current = Some vc /\ cp <= vp /\ vc < cc) /\
  (VWAPStrategy.vwap_crossover_logic df = Some BUY_PUT <->
   exists vp vc, VWAPStrategy.r_vwap previous = Some vp /\
                 VWAPStrategy.r_vwap current = Some vc /\ vp <= cp /\ cc < vc) /\
  (VWAPStrategy.r_vwap previous = None \/ VWAPStrategy.r_vwap current = None ->
   VWAPStrategy.vwap_crossover_logic df = None) /\
  VWAPStrategy.vwap_crossover_logic [current] = None /\
  VWAPStrategy.vwap_crossover_logic [] = None.
Proof.
  intros df cp cc. unfold df. rewrite variant_crossover_last_two.
  fold cp cc.
  destruct (VWAPStrategy.r_vwap previous) as [vp|], (VWAPStrategy.r_vwap current) as [vc|];
    simpl.
  - destruct (Qleb cp vp) eqn:E1, (Qltb vc cc) eqn:E2; simpl.
    + apply Qleb_iff in E1. apply Qltb_iff in E2.
      split; [split; [exists vp, vc; tauto|reflexivity]|].
      split; [|split; [intros [|]; discriminate|split; reflexivity]].
      split; [discriminate|]. intros (vp' & vc' & Hp & Hc & _ & H).
      injection Hc as <-. lra.
    + apply Qltb_false in E2.
      split.
      { split; [|intros (vp' & vc' & Hp & Hc & _ & H); injection Hc as <-; lra].
        destruct (Qleb vp cp && Qltb cc vc); discriminate. }
      split; [|split; [intros [|]; discriminate|split; reflexivity]].
      destruct (Qleb vp cp) eqn:E3, (Qltb cc vc) eqn:E4; simpl.
      * apply Qleb_iff in E3. apply Qltb_iff in E4.
        split; [exists vp, vc; tauto|reflexivity].
      * apply Qltb_false in E4. split; [discriminate|].
        intros (vp' & vc' & Hp & Hc & _ & H). injection Hc as <-. lra.
      * apply Qleb_false in E3. split; [discriminate|].
        intros (vp' & vc' & Hp & Hc & H & _). injection Hp as <-. lra.
      * apply Qleb_false in E3. split; [discriminate|].
        intros (vp' & vc' & Hp & Hc & H & _). injection Hp as <-. lra.
    + apply Qleb_false in E1. apply Qltb_iff in E2.
      split.
      { split; [|intros (vp' & vc' & Hp & Hc & H & _); injection Hp as <-; lra].
        destruct (Qleb vp cp && Qltb cc vc); discriminate. }
      split; [|split; [intros [|]; discriminate|split; reflexivity]].
      destruct (Qleb vp cp) eqn:E3, (Qltb cc vc) eqn:E4; simpl.
      * apply Qltb_iff in E4. lra.
      * split; [discriminate|].
        apply Qltb_false in E4.
        intros (vp' & vc' & Hp & Hc & _ & H). injection Hc as <-. lra.
      * apply Qltb_iff in E4. lra.
      * split; [discriminate|].
        apply Qltb_false in E4.
        intros (vp' & vc' & Hp & Hc & _ & H). injection Hc as <-. lra.
    + apply Qleb_false in E1. apply Qltb_false in E2.
      split.
      { split; [|intros (vp' & vc' & Hp & Hc & H & _); injection Hp as <-; lra].
        destruct (Qleb vp cp && Qltb cc vc); discriminate. }
      split; [|split; [intros [|]; discriminate|split; reflexivity]].
      destruct (Qleb vp cp) eqn:E3, (Qltb cc vc) eqn:E4; simpl.
      * apply Qleb_iff in E3. apply Qltb_iff in E4.
        split; [exists vp, vc; tauto|reflexivity].
      * apply Qltb_false in E4. split; [discriminate|].
        intros (vp' & vc' & Hp & Hc & _ & H). injection Hc as <-. lra.
      * apply Qleb_false in E3. split; [discriminate|].
        intros (vp' & vc' & Hp & Hc & H & _). injection Hp as <-. lra.
      * apply Qleb_false in E3. split; [discriminate|].
        intros (vp' & vc' & Hp & Hc & H & _). injection Hp as <-. lra.
  - rewrite !andb_false_r.
    repeat split; try discriminate; try reflexivity;
      intros (vp' & vc' & _ & Hc & _); discriminate.
  - repeat split; try discriminate; try reflexivity;
      intros (vp' & vc' & Hp & _); discriminate.
  - repeat split; try discriminate; try reflexivity;
      intros (vp' & vc' & Hp & _); discriminate.
Qed.

(** [VWAPStrategy.close_position] drops a position only when the sell order
    is accepted and the quote that follows is Ok; the daily PnL then grows
    by (exit - entry) x qty, without commission.  When the order is
    rejected, or when the order is accepted but the quote fails, the
    position stays open and the daily PnL is not touched. *)
Theorem variant_close_needs_order_and_quote (w : VWAPStrategy.World)
        (st : VWAPStrategy.State) (position_id : string) (pos : VWAPStrategy.Position) :
  dict_get position_id (VWAPStrategy.positions st) = Some pos ->
  let st' := VWAPStrategy.close_position w st position_id in
  let order := VWAPStrategy.w_order w (VWAPStrategy.clock st) Sell
                 (VWAPStrategy.symbol pos) (VWAPStrategy.qty pos) in
  let quote := VWAPStrategy.quote_ok
                 (VWAPStrategy.w_quote w (S (VWAPStrategy.clock st))
                    (VWAPStrategy.token pos)) in
  (order = None \/ quote = None ->
   VWAPStrategy.positions st' = VWAPStrategy.positions st /\
   VWAPStrategy.daily_pnl st' = VWAPStrategy.daily_pnl st) /\
  (forall oid r, order = Some oid -> quote = Some r ->
     VWAPStrategy.positions st' = dict_del position_id (VWAPStrategy.positions st) /\
     VWAPStrategy.daily_pnl st' =
       VWAPStrategy.daily_pnl st
       + (VWAPStrategy.quote_lp r - VWAPStrategy.entry_price pos)
         * inject_Z (VWAPStrategy.qty pos)).
Proof.
  intros Hget st' order quote. subst st'.
  unfold VWAPStrategy.close_position. rewrite Hget. simpl.
  fold order. destruct order as [oid|]; simpl.
  - fold quote. destruct quote as [r|]; simpl.
    + split; [intros [|]; discriminate|].
      intros oid' r' Ho Hq. injection Hq as <-. split; reflexivity.
    + split; [intros _; split; reflexivity|]. intros oid' r' _ Hq. discriminate.
  - split; [intros _; split; reflexivity|]. intros oid' r' Ho. discriminate.
Qed.

Lemma variant_close_needs_order_and_quote_witness :
  VWAPStrategy.positions
    (VWAPStrategy.close_position
       (VWAPStrategy.mkWorld (fun _ => None) (fun _ _ => (EmptyString, None))
                             (fun _ _ => []) (fun _ _ => None)
                             (fun _ _ _ _ => Some "7"%string)
                             (fun _ => 36000000000%Z))
       (VWAPStrategy.run reversal_world variant_config 1 VWAPStrategy.init_state)
       "NIFTY24C21500_4")
  = VWAPStrategy.positions
      (VWAPStrategy.run reversal_world variant_config 1 VWAPStrategy.init_state).
Proof.
  refine (proj1 (proj1 (variant_close_needs_order_and_quote
            (VWAPStrategy.mkWorld (fun _ => None) (fun _ _ => (EmptyString, None))
                                  (fun _ _ => []) (fun _ _ => None)
                                  (fun _ _ _ _ => Some "7"%string)
                                  (fun _ => 36000000000%Z))
            (VWAPStrategy.run reversal_world variant_config 1 VWAPStrategy.init_state)
            "NIFTY24C21500_4"
            (VWAPStrategy.mkPosition "NIFTY24C21500" "54321" 75 1300
               (1300 * (1 - 20 / 100)) (1300 * (1 + 60 / 100))) _) _)).
  - vm_compute. reflexivity.
  - right. reflexivity.
Defined.

(** [VWAPStrategy.manage_position]: without an Ok quote, or with a last
    price strictly between the stop and the target, nothing but the clock
    moves and no order is placed; at or below the stop, or at or above the
    target, the position goes to [close_position], the stop being tested
    first. *)
Theorem variant_manage_position_cases (w : VWAPStrategy.World)
        (st : VWAPStrategy.State) (position_id : string) (pos : VWAPStrategy.Position) :
  dict_get position_id (VWAPStrategy.positions st) = Some pos ->
  let st' := VWAPStrategy.manage_position w st position_id in
  let quote := VWAPStrategy.quote_ok
                 (VWAPStrategy.w_quote w (VWAPStrategy.clock st)
                    (VWAPStrategy.token pos)) in
  (quote = None \/
   (exists r, quote = Some r /\
              VWAPStrategy.stop_loss pos < VWAPStrategy.quote_lp r /\
              VWAPStrategy.quote_lp r < VWAPStrategy.take_profit pos) ->
   st' = VWAPStrategy.advance st) /\
  (forall r, quote = Some r ->
             VWAPStrategy.quote_lp r <= VWAPStrategy.stop_loss pos \/
             VWAPStrategy.take_profit pos <= VWAPStrategy.quote_lp r ->
             st' = VWAPStrategy.close_position w (VWAPStrategy.advance st) position_id).
Proof.
  intros Hget st' quote. subst st'.
  unfold VWAPStrategy.manage_position. rewrite Hget. fold quote.
  destruct quote as [r|]; simpl.
  - destruct (Qleb (VWAPStrategy.quote_lp r) (VWAPStrategy.stop_loss pos)) eqn:E1.
    + apply Qleb_iff in E1. split.
      * intros [H|(r' & Hr & H1 & H2)]; [discriminate|]. injection Hr as <-. lra.
      * intros r' Hr _. reflexivity.
    + apply Qleb_false in E1.
      destruct (Qleb (VWAPStrategy.take_profit pos) (VWAPStrategy.quote_lp r)) eqn:E2.
      * apply Qleb_iff in E2. split.
        -- intros [H|(r' & Hr & H1 & H2)]; [discriminate|]. injection Hr as <-. lra.
        -- intros r' Hr _. reflexivity.
      * apply Qleb_false in E2. split; [intros _; reflexivity|].
        intros r' Hr [H|H]; injection Hr as <-; lra.
  - split; [intros _; reflexivity|]. intros r' Hr. discriminate.
Qed.

Lemma variant_manage_position_cases_witness :
  VWAPStrategy.manage_position reversal_world
    (VWAPStrategy.run reversal_world variant_config 1 VWAPStrategy.init_state)
    "NIFTY24C21500_4"
  = VWAPStrategy.advance
      (VWAPStrategy.run reversal_world variant_config 1 VWAPStrategy.init_state).
Proof.
  refine (proj1 (variant_manage_position_cases reversal_world
            (VWAPStrategy.run reversal_world variant_config 1 VWAPStrategy.init_state)
            "NIFTY24C21500_4"
            (VWAPStrategy.mkPosition "NIFTY24C21500" "54321" 75 1300
               (1300 * (1 - 20 / 100)) (1300 * (1 + 60 / 100))) _) _).
  - vm_compute. reflexivity.
  - right. exists (last_price 1300). split; [vm_compute; reflexivity|].
    split; apply Qltb_iff; vm_compute; reflexivity.
Defined.

Lemma cumsum_from_positive (xs : list Q) :
  forall acc, 0 < acc -> Forall (fun x => 0 <= x) xs ->
              Forall (fun c => 0 < c) (cumsum acc xs).
Proof.
  induction xs as [|x xs IH]; intros acc Hacc Hpos; simpl; constructor.
  - apply Forall_inv in Hpos. cbv beta. lra.
  - apply IH; [|eapply Forall_inv_tail; exact Hpos].
    apply Forall_inv in Hpos. lra.
Qed.

Lemma cumsum_length (xs : list Q) : forall acc, length (cumsum acc xs) = length xs.
Proof.
  induction xs as [|x xs IH]; intro acc; simpl; [reflexivity|]. rewrite IH. reflexivity.
Qed.

Lemma variant_cells_traded (rest : list Bar) (an ad : Q) :
  ad == 0 -> traded_from_first rest ->
  exists cells,
    ffill_from None
      (col_div (cumsum an (map (fun b => typical_price b * inject_Z (volume b)) rest))
               (cumsum ad (map (fun b => inject_Z (volume b)) rest)))
    = map Some cells /\ length cells = length rest.
Proof.
  intros Had Hrest.
  assert (Hpos : Forall (fun c => 0 < c)
                        (cumsum ad (map (fun b => inject_Z (volume b)) rest))).
  { destruct rest as [|first later]; [constructor|].
    destruct Hrest as [Hfirst Hlater]. simpl.
    assert (H1 : 0 < inject_Z (volume first)).
    { change 0 with (inject_Z 0). rewrite <- Zlt_Qlt. exact Hfirst. }
    constructor; [lra|].
    apply cumsum_from_positive; [lra|].
    apply Forall_map. eapply Forall_impl; [|exact Hlater].
    intros b Hb. simpl in Hb. change 0 with (inject_Z 0). rewrite <- Zle_Qle. exact Hb. }
  rewrite (col_div_defined _ _ Hpos), ffill_from_defined.
  eexists. split; [reflexivity|].
  rewrite col_ratio_length; rewrite !cumsum_length, !length_map; reflexivity.
Qed.

Lemma variant_cells_quiet (quiet rest : list Bar) :
  Forall (fun b => volume b = 0%Z) quiet -> traded_from_first rest ->
  forall an ad, ad == 0 ->
  exists cells,
    ffill_from None
      (col_div (cumsum an (map (fun b => typical_price b * inject_Z (volume b))
                               (quiet ++ rest)))
               (cumsum ad (map (fun b => inject_Z (volume b)) (quiet ++ rest))))
    = repeat None (length quiet) ++ map Some cells /\ length cells = length rest.
Proof.
  intros Hquiet Hrest.
  induction Hquiet as [|b quiet Hb Hquiet IH]; intros an ad Had.
  - apply variant_cells_traded; assumption.
  - assert (Hzero : ad + inject_Z (volume b) == 0).
    { rewrite Hb. change (inject_Z 0) with 0. lra. }
    assert (Hcell : fdiv (an + typical_price b * inject_Z (volume b))
                         (ad + inject_Z (volume b)) = None).
    { unfold fdiv. apply Qeq_bool_iff in Hzero. rewrite Hzero. reflexivity. }
    simpl. rewrite !Hcell.
    destruct (IH (an + typical_price b * inject_Z (volume b))
                 (ad + inject_Z (volume b)) Hzero) as (cells & Heq & Hlen).
    exists cells. rewrite Heq. split; [reflexivity|exact Hlen].
Qed.

Lemma variant_rows_without_vwap (df : list Bar) :
  forall n, Forall (fun r => VWAPStrategy.r_vwap r = None)
                   (VWAPStrategy.rows_of df (repeat None n)).
Proof.
  induction df as [|b df IH]; intros [|n]; simpl; constructor; [reflexivity|apply IH].
Qed.

Lemma variant_no_vwap_no_signal (rows : list VWAPStrategy.Row) :
  Forall (fun r => VWAPStrategy.r_vwap r = None) rows ->
  VWAPStrategy.vwap_crossover_logic rows = None.
Proof.
  intro Hall. unfold VWAPStrategy.vwap_crossover_logic.
  destruct (length rows <? 2)%nat; [reflexivity|].
  destruct (rev rows) as [|current [|previous older]] eqn:E; try reflexivity.
  assert (Hin : In previous rows).
  { apply in_rev. rewrite E. right. left. reflexivity. }
  rewrite Forall_forall in Hall. rewrite (Hall previous Hin). reflexivity.
Qed.

(** [VWAPStrategy.calculate_vwap] keeps zero volumes as they are: every row
    before the first traded bar has no VWAP (0/0, which the forward fill
    cannot repair), every row from the first traded bar on has one, and a
    frame without any traded bar gives no signal. *)
Theorem variant_vwap_needs_volume (quiet rest : list Bar) :
  Forall (fun b => volume b = 0%Z) quiet ->
  traded_from_first rest ->
  quiet ++ rest <> [] ->
  exists cells,
    VWAPStrategy.calculate_vwap (quiet ++ rest)
      = Some (repeat None (length quiet) ++ map Some cells) /\
    length cells = length rest /\
    (rest = [] ->
     VWAPStrategy.vwap_crossover_logic
       (VWAPStrategy.rows_of (quiet ++ rest)
                             (repeat None (length quiet) ++ map Some cells)) = None).
Proof.
  intros Hquiet Hrest Hne.
  destruct (variant_cells_quiet quiet rest Hquiet Hrest 0 0 (Qeq_refl 0))
    as (cells & Heq & Hlen).
  exists cells. split; [|split; [exact Hlen|]].
  - unfold VWAPStrategy.calculate_vwap.
    destruct (quiet ++ rest) as [|b df] eqn:E; [contradiction|].
    unfold ffill. rewrite Heq. reflexivity.
  - intros ->. destruct cells; [|discriminate].
    simpl. rewrite !app_nil_r.
    apply variant_no_vwap_no_signal, variant_rows_without_vwap.
Qed.

Lemma variant_vwap_needs_volume_witness :
  exists cells,
    VWAPStrategy.calculate_vwap [mkBar 0 20 20 20 20 0; mkBar 60 10 10 10 10 5]
    = Some (None :: map Some cells) /\ length cells = 1%nat.
Proof.
  destruct (variant_vwap_needs_volume [mkBar 0 20 20 20 20 0] [mkBar 60 10 10 10 10 5])
    as (cells & Heq & Hlen & _).
  - repeat constructor.
  - split; [reflexivity|constructor].
  - discriminate.
  - exists cells. split; [exact Heq|exact Hlen].
Defined.
